(** * Rainflow counting, four-point method: the streaming core of rainflow.c

    A shallow embedding of the counting core (turning-point filter, residue
    buffer, four-point cycle detector, counter sinks, lifecycle) together with
    the properties the specification states about it.

    Number model.  [RFC_value_type] (the sample type, a C floating type) is
    embedded as the exact rationals [Q], so that the filter and the detector
    run inside Rocq; the C type [double] of the damage computation, which uses
    [exp] and [log], is embedded as the real numbers [R].  Rounding, infinities
    and NaN are therefore outside the model.  The cast [(double)] from the
    sample type is [Q2R].

    Memory model.  A buffer is a list; slot [i] is read with [peek] and written
    with [poke].  C leaves an access beyond the allocated capacity undefined;
    the embedding treats the memory behind a buffer as further (zeroed) slots,
    so a run that touches such a slot continues as it does on a machine where
    this memory is unused, and the event stays observable: the list has grown
    beyond the capacity it was allocated with.  [residue_in_bounds] says of a
    context that its residue has not; what a run computes after such a write
    depends, in C, on what lies behind the buffer.

    The build modelled is the release build: [assert] is a no-op.

    Beside the counting core the file embeds the class macros [CLASS_MEAN]
    and [CLASS_UPPER] and the helpers of the test suite (rfc_test.c),
    [calc_extema], [calc_class_param] and [rfm_peek], with the properties the
    code shows for them. *)

From Stdlib Require Import ZArith QArith Qabs Qminmax Qround Reals Qreals Lra Lqa Lia List Bool.
Import ListNotations.

Local Open Scope Z_scope.

(** ** Buffers *)

Section Buffers.

Context {A : Type} (zero : A).

Definition peek (buf : list A) (i : nat) : A := nth i buf zero.

Fixpoint poke (buf : list A) (i : nat) (v : A) : list A :=
  match i, buf with
  | O, [] => [v]
  | O, _ :: t => v :: t
  | S i', [] => zero :: poke [] i' v
  | S i', x :: t => x :: poke t i' v
  end.

End Buffers.

(** ** Data model (rainflow.h) *)

(** [RFC_value_type] is [double] in the test suite ([#define RFC_VALUE_TYPE double]). *)
Definition RFC_value_type : Type := Q.

Definition Qlt_bool (x y : Q) : bool := negb (Qle_bool y x).

(** Conversion of a floating value to [unsigned]: the fraction is discarded
    (truncation toward zero).  A value outside the range of [unsigned] is
    undefined in C; the embedding reduces it modulo 2^32. *)
Definition to_unsigned (x : Q) : Z := (Z.quot (Qnum x) (Z.pos (Qden x))) mod 2 ^ 32.

(** [(int)] applied to an [unsigned] value. *)
Definition to_int (u : Z) : Z := if u <? 2 ^ 31 then u else u - 2 ^ 32.

(** The records have primitive projections: a field of an updated context
    reduces without unfolding the update. *)
#[local] Set Primitive Projections.

Record rfc_value_tuple_s : Type := {
  value : RFC_value_type;   (* Value *)
  cls   : Z;                (* Class number, base 0 *)
  pos   : Z                 (* Absolute position in the input stream, base 1 *)
}.

(** [rfc_value_tuple_s nil = { 0.0 }]: all members zero. *)
Definition nil : rfc_value_tuple_s := {| value := 0%Q; cls := 0; pos := 0 |}.

(** Modelled from the spec: rainflow.h is not among the sources.  The
    lifecycle states in the order of section 3 of the specification; the code
    compares them with [<] and [>=]. *)
Inductive rfc_state : Type :=
| RFC_STATE_INIT0
| RFC_STATE_INIT
| RFC_STATE_BUSY
| RFC_STATE_BUSY_INTERIM
| RFC_STATE_FINALIZE
| RFC_STATE_FINISHED
| RFC_STATE_ERROR.

Definition state_rank (s : rfc_state) : Z :=
  match s with
  | RFC_STATE_INIT0 => 0
  | RFC_STATE_INIT => 1
  | RFC_STATE_BUSY => 2
  | RFC_STATE_BUSY_INTERIM => 3
  | RFC_STATE_FINALIZE => 4
  | RFC_STATE_FINISHED => 5
  | RFC_STATE_ERROR => 6
  end.

Definition state_lt (a b : rfc_state) : bool := state_rank a <? state_rank b.
Definition state_ge (a b : rfc_state) : bool := state_rank b <=? state_rank a.

Definition state_eqb (a b : rfc_state) : bool := state_rank a =? state_rank b.

(** Modelled from the spec: the error kinds of section 7, and the value of a
    zero-initialised context.  The code under study stores [RFC_ERROR_INVARG]
    only. *)
Inductive rfc_error : Type :=
| RFC_ERROR_NOERROR
| RFC_ERROR_INVARG
| RFC_ERROR_STATE
| RFC_ERROR_OVERFLOW
| RFC_ERROR_ALLOC.

(** Modelled from the spec: the residual methods of section 6; every other
    [int] passed to [RFC_finalize] is a [RFC_RES_OTHER]. *)
Inductive rfc_res_method : Type :=
| RFC_RES_NONE
| RFC_RES_IGNORE
| RFC_RES_OTHER (code : Z).

Inductive rfc_mem_aim : Type :=
| RFC_MEM_AIM_TEMP
| RFC_MEM_AIM_RESIDUE
| RFC_MEM_AIM_MATRIX.

(** Modelled from the spec: the flag bitmask of section 6,
    [DEFAULT = COUNT_RFM | COUNT_DAMAGE]. *)
Definition RFC_FLAGS_COUNT_RFM : Z := 1.
Definition RFC_FLAGS_COUNT_DAMAGE : Z := 2.
Definition RFC_FLAGS_DEFAULT : Z := Z.lor RFC_FLAGS_COUNT_RFM RFC_FLAGS_COUNT_DAMAGE.

(** Modelled from the spec: the counter increments of section 3; a full cycle
    counts twice a half cycle, so that counts divide cleanly by [full_inc]. *)
Definition RFC_FULL_CYCLE_INCREMENT : Z := 2.
Definition RFC_HALF_CYCLE_INCREMENT : Z := 1.

(** Modelled from the spec: [NUMEL( rfc_ctx->internal.residue )], the small
    embedded residue of three elements ("two to define a slope and one as
    interim point"). *)
Definition NUMEL_internal_residue : nat := 3.

(** Element sizes handed to the allocator; only their being nonzero matters. *)
Definition sizeof_rfc_value_tuple_s : nat := 24.
Definition sizeof_RFC_counts_type : nat := 8.

(** The allocator hook [(ptr, num, size, aim) -> ptr], called at init with
    [ptr = NULL]: the result says whether a block was returned (non-NULL).  A
    returned block is zeroed, as with [calloc]. *)
Definition rfc_mem_alloc_fcn_t : Type := nat -> nat -> rfc_mem_aim -> bool.

Module Internal.

Record rfc_internal_s : Type := {
  flags         : Z;                       (* Flags (enum rfc_flags) *)
  slope         : Z;                       (* Current signal slope *)
  extrema0      : rfc_value_tuple_s;       (* extrema[0], local minimum *)
  extrema1      : rfc_value_tuple_s;       (* extrema[1], local maximum *)
  pos           : Z;                       (* Absolute position in data input stream, base 1 *)
  global_offset : Z;
  residue       : list rfc_value_tuple_s;  (* Static residue *)
  residue_cap   : nat;
  res_static    : bool
}.

Definition set_flags (i : rfc_internal_s) (x : Z) : rfc_internal_s :=
  {| flags := x; slope := slope i; extrema0 := extrema0 i; extrema1 := extrema1 i; pos
     := pos i; global_offset := global_offset i; residue := residue i; residue_cap :=
     residue_cap i; res_static := res_static i |}.

Definition set_slope (i : rfc_internal_s) (x : Z) : rfc_internal_s :=
  {| flags := flags i; slope := x; extrema0 := extrema0 i; extrema1 := extrema1 i; pos
     := pos i; global_offset := global_offset i; residue := residue i; residue_cap :=
     residue_cap i; res_static := res_static i |}.

Definition set_extrema0 (i : rfc_internal_s) (x : rfc_value_tuple_s) : rfc_internal_s :=
  {| flags := flags i; slope := slope i; extrema0 := x; extrema1 := extrema1 i; pos :=
     pos i; global_offset := global_offset i; residue := residue i; residue_cap :=
     residue_cap i; res_static := res_static i |}.

Definition set_extrema1 (i : rfc_internal_s) (x : rfc_value_tuple_s) : rfc_internal_s :=
  {| flags := flags i; slope := slope i; extrema0 := extrema0 i; extrema1 := x; pos :=
     pos i; global_offset := global_offset i; residue := residue i; residue_cap :=
     residue_cap i; res_static := res_static i |}.

Definition set_pos (i : rfc_internal_s) (x : Z) : rfc_internal_s :=
  {| flags := flags i; slope := slope i; extrema0 := extrema0 i; extrema1 := extrema1 i;
     pos := x; global_offset := global_offset i; residue := residue i; residue_cap :=
     residue_cap i; res_static := res_static i |}.

Definition set_global_offset (i : rfc_internal_s) (x : Z) : rfc_internal_s :=
  {| flags := flags i; slope := slope i; extrema0 := extrema0 i; extrema1 := extrema1 i;
     pos := pos i; global_offset := x; residue := residue i; residue_cap := residue_cap
     i; res_static := res_static i |}.

Definition set_residue_cap (i : rfc_internal_s) (x : nat) : rfc_internal_s :=
  {| flags := flags i; slope := slope i; extrema0 := extrema0 i; extrema1 := extrema1 i;
     pos := pos i; global_offset := global_offset i; residue := residue i; residue_cap
     := x; res_static := res_static i |}.

Definition set_res_static (i : rfc_internal_s) (x : bool) : rfc_internal_s :=
  {| flags := flags i; slope := slope i; extrema0 := extrema0 i; extrema1 := extrema1 i;
     pos := pos i; global_offset := global_offset i; residue := residue i; residue_cap
     := residue_cap i; res_static := x |}.
(** [extrema[i]] for [i] in {0, 1}. *)
Definition extrema (i : rfc_internal_s) (idx : Z) : rfc_value_tuple_s :=
  if idx =? 0 then extrema0 i else extrema1 i.

End Internal.

Abbreviation rfc_internal_s := Internal.rfc_internal_s.

Record rfc_ctx_s : Type := {
  version_ok    : bool;  (* rfc_ctx && rfc_ctx->version == sizeof(rfc_ctx_s) *)
  state         : rfc_state;
  error         : rfc_error;
  mem_alloc     : option rfc_mem_alloc_fcn_t;  (* None: NULL *)
  (* Counter increments *)
  full_inc      : Z;
  half_inc      : Z;
  curr_inc      : Z;
  (* Rainflow class parameters *)
  class_count   : Z;  (* unsigned *)
  class_width   : RFC_value_type;
  class_offset  : RFC_value_type;
  hysteresis    : RFC_value_type;
  (* Woehler curve *)
  wl_sd         : R;
  wl_nd         : R;
  wl_k          : R;
  (* Residue *)
  residue       : option (list rfc_value_tuple_s);  (* None: NULL *)
  residue_cap   : nat;
  residue_cnt   : nat;
  (* Non-sparse storages (optional, may be NULL) *)
  rfm           : option (list Z);
  (* Damage *)
  pseudo_damage : R;
  internal      : rfc_internal_s
}.

Definition set_state (c : rfc_ctx_s) (x : rfc_state) : rfc_ctx_s :=
  {| version_ok := version_ok c; state := x; error := error c; mem_alloc := mem_alloc c;
     full_inc := full_inc c; half_inc := half_inc c; curr_inc := curr_inc c; class_count
     := class_count c; class_width := class_width c; class_offset := class_offset c;
     hysteresis := hysteresis c; wl_sd := wl_sd c; wl_nd := wl_nd c; wl_k := wl_k c;
     residue := residue c; residue_cap := residue_cap c; residue_cnt := residue_cnt c;
     rfm := rfm c; pseudo_damage := pseudo_damage c; internal := internal c |}.

Definition set_error (c : rfc_ctx_s) (x : rfc_error) : rfc_ctx_s :=
  {| version_ok := version_ok c; state := state c; error := x; mem_alloc := mem_alloc c;
     full_inc := full_inc c; half_inc := half_inc c; curr_inc := curr_inc c; class_count
     := class_count c; class_width := class_width c; class_offset := class_offset c;
     hysteresis := hysteresis c; wl_sd := wl_sd c; wl_nd := wl_nd c; wl_k := wl_k c;
     residue := residue c; residue_cap := residue_cap c; residue_cnt := residue_cnt c;
     rfm := rfm c; pseudo_damage := pseudo_damage c; internal := internal c |}.

Definition set_mem_alloc (c : rfc_ctx_s) (x : option rfc_mem_alloc_fcn_t) : rfc_ctx_s :=
  {| version_ok := version_ok c; state := state c; error := error c; mem_alloc := x;
     full_inc := full_inc c; half_inc := half_inc c; curr_inc := curr_inc c; class_count
     := class_count c; class_width := class_width c; class_offset := class_offset c;
     hysteresis := hysteresis c; wl_sd := wl_sd c; wl_nd := wl_nd c; wl_k := wl_k c;
     residue := residue c; residue_cap := residue_cap c; residue_cnt := residue_cnt c;
     rfm := rfm c; pseudo_damage := pseudo_damage c; internal := internal c |}.

Definition set_full_inc (c : rfc_ctx_s) (x : Z) : rfc_ctx_s :=
  {| version_ok := version_ok c; state := state c; error := error c; mem_alloc :=
     mem_alloc c; full_inc := x; half_inc := half_inc c; curr_inc := curr_inc c;
     class_count := class_count c; class_width := class_width c; class_offset :=
     class_offset c; hysteresis := hysteresis c; wl_sd := wl_sd c; wl_nd := wl_nd c;
     wl_k := wl_k c; residue := residue c; residue_cap := residue_cap c; residue_cnt :=
     residue_cnt c; rfm := rfm c; pseudo_damage := pseudo_damage c; internal := internal
     c |}.

Definition set_half_inc (c : rfc_ctx_s) (x : Z) : rfc_ctx_s :=
  {| version_ok := version_ok c; state := state c; error := error c; mem_alloc :=
     mem_alloc c; full_inc := full_inc c; half_inc := x; curr_inc := curr_inc c;
     class_count := class_count c; class_width := class_width c; class_offset :=
     class_offset c; hysteresis := hysteresis c; wl_sd := wl_sd c; wl_nd := wl_nd c;
     wl_k := wl_k c; residue := residue c; residue_cap := residue_cap c; residue_cnt :=
     residue_cnt c; rfm := rfm c; pseudo_damage := pseudo_damage c; internal := internal
     c |}.

Definition set_curr_inc (c : rfc_ctx_s) (x : Z) : rfc_ctx_s :=
  {| version_ok := version_ok c; state := state c; error := error c; mem_alloc :=
     mem_alloc c; full_inc := full_inc c; half_inc := half_inc c; curr_inc := x;
     class_count := class_count c; class_width := class_width c; class_offset :=
     class_offset c; hysteresis := hysteresis c; wl_sd := wl_sd c; wl_nd := wl_nd c;
     wl_k := wl_k c; residue := residue c; residue_cap := residue_cap c; residue_cnt :=
     residue_cnt c; rfm := rfm c; pseudo_damage := pseudo_damage c; internal := internal
     c |}.

Definition set_class_count (c : rfc_ctx_s) (x : Z) : rfc_ctx_s :=
  {| version_ok := version_ok c; state := state c; error := error c; mem_alloc :=
     mem_alloc c; full_inc := full_inc c; half_inc := half_inc c; curr_inc := curr_inc
     c; class_count := x; class_width := class_width c; class_offset := class_offset c;
     hysteresis := hysteresis c; wl_sd := wl_sd c; wl_nd := wl_nd c; wl_k := wl_k c;
     residue := residue c; residue_cap := residue_cap c; residue_cnt := residue_cnt c;
     rfm := rfm c; pseudo_damage := pseudo_damage c; internal := internal c |}.

Definition set_class_width (c : rfc_ctx_s) (x : RFC_value_type) : rfc_ctx_s :=
  {| version_ok := version_ok c; state := state c; error := error c; mem_alloc :=
     mem_alloc c; full_inc := full_inc c; half_inc := half_inc c; curr_inc := curr_inc
     c; class_count := class_count c; class_width := x; class_offset := class_offset c;
     hysteresis := hysteresis c; wl_sd := wl_sd c; wl_nd := wl_nd c; wl_k := wl_k c;
     residue := residue c; residue_cap := residue_cap c; residue_cnt := residue_cnt c;
     rfm := rfm c; pseudo_damage := pseudo_damage c; internal := internal c |}.

Definition set_class_offset (c : rfc_ctx_s) (x : RFC_value_type) : rfc_ctx_s :=
  {| version_ok := version_ok c; state := state c; error := error c; mem_alloc :=
     mem_alloc c; full_inc := full_inc c; half_inc := half_inc c; curr_inc := curr_inc
     c; class_count := class_count c; class_width := class_width c; class_offset := x;
     hysteresis := hysteresis c; wl_sd := wl_sd c; wl_nd := wl_nd c; wl_k := wl_k c;
     residue := residue c; residue_cap := residue_cap c; residue_cnt := residue_cnt c;
     rfm := rfm c; pseudo_damage := pseudo_damage c; internal := internal c |}.

Definition set_hysteresis (c : rfc_ctx_s) (x : RFC_value_type) : rfc_ctx_s :=
  {| version_ok := version_ok c; state := state c; error := error c; mem_alloc :=
     mem_alloc c; full_inc := full_inc c; half_inc := half_inc c; curr_inc := curr_inc
     c; class_count := class_count c; class_width := class_width c; class_offset :=
     class_offset c; hysteresis := x; wl_sd := wl_sd c; wl_nd := wl_nd c; wl_k := wl_k
     c; residue := residue c; residue_cap := residue_cap c; residue_cnt := residue_cnt
     c; rfm := rfm c; pseudo_damage := pseudo_damage c; internal := internal c |}.

Definition set_wl_sd (c : rfc_ctx_s) (x : R) : rfc_ctx_s :=
  {| version_ok := version_ok c; state := state c; error := error c; mem_alloc :=
     mem_alloc c; full_inc := full_inc c; half_inc := half_inc c; curr_inc := curr_inc
     c; class_count := class_count c; class_width := class_width c; class_offset :=
     class_offset c; hysteresis := hysteresis c; wl_sd := x; wl_nd := wl_nd c; wl_k :=
     wl_k c; residue := residue c; residue_cap := residue_cap c; residue_cnt :=
     residue_cnt c; rfm := rfm c; pseudo_damage := pseudo_damage c; internal := internal
     c |}.

Definition set_wl_nd (c : rfc_ctx_s) (x : R) : rfc_ctx_s :=
  {| version_ok := version_ok c; state := state c; error := error c; mem_alloc :=
     mem_alloc c; full_inc := full_inc c; half_inc := half_inc c; curr_inc := curr_inc
     c; class_count := class_count c; class_width := class_width c; class_offset :=
     class_offset c; hysteresis := hysteresis c; wl_sd := wl_sd c; wl_nd := x; wl_k :=
     wl_k c; residue := residue c; residue_cap := residue_cap c; residue_cnt :=
     residue_cnt c; rfm := rfm c; pseudo_damage := pseudo_damage c; internal := internal
     c |}.

Definition set_wl_k (c : rfc_ctx_s) (x : R) : rfc_ctx_s :=
  {| version_ok := version_ok c; state := state c; error := error c; mem_alloc :=
     mem_alloc c; full_inc := full_inc c; half_inc := half_inc c; curr_inc := curr_inc
     c; class_count := class_count c; class_width := class_width c; class_offset :=
     class_offset c; hysteresis := hysteresis c; wl_sd := wl_sd c; wl_nd := wl_nd c;
     wl_k := x; residue := residue c; residue_cap := residue_cap c; residue_cnt :=
     residue_cnt c; rfm := rfm c; pseudo_damage := pseudo_damage c; internal := internal
     c |}.

Definition set_residue (c : rfc_ctx_s) (x : option (list rfc_value_tuple_s)) : rfc_ctx_s :=
  {| version_ok := version_ok c; state := state c; error := error c; mem_alloc :=
     mem_alloc c; full_inc := full_inc c; half_inc := half_inc c; curr_inc := curr_inc
     c; class_count := class_count c; class_width := class_width c; class_offset :=
     class_offset c; hysteresis := hysteresis c; wl_sd := wl_sd c; wl_nd := wl_nd c;
     wl_k := wl_k c; residue := x; residue_cap := residue_cap c; residue_cnt :=
     residue_cnt c; rfm := rfm c; pseudo_damage := pseudo_damage c; internal := internal
     c |}.

Definition set_residue_cap (c : rfc_ctx_s) (x : nat) : rfc_ctx_s :=
  {| version_ok := version_ok c; state := state c; error := error c; mem_alloc :=
     mem_alloc c; full_inc := full_inc c; half_inc := half_inc c; curr_inc := curr_inc
     c; class_count := class_count c; class_width := class_width c; class_offset :=
     class_offset c; hysteresis := hysteresis c; wl_sd := wl_sd c; wl_nd := wl_nd c;
     wl_k := wl_k c; residue := residue c; residue_cap := x; residue_cnt := residue_cnt
     c; rfm := rfm c; pseudo_damage := pseudo_damage c; internal := internal c |}.

Definition set_residue_cnt (c : rfc_ctx_s) (x : nat) : rfc_ctx_s :=
  {| version_ok := version_ok c; state := state c; error := error c; mem_alloc :=
     mem_alloc c; full_inc := full_inc c; half_inc := half_inc c; curr_inc := curr_inc
     c; class_count := class_count c; class_width := class_width c; class_offset :=
     class_offset c; hysteresis := hysteresis c; wl_sd := wl_sd c; wl_nd := wl_nd c;
     wl_k := wl_k c; residue := residue c; residue_cap := residue_cap c; residue_cnt :=
     x; rfm := rfm c; pseudo_damage := pseudo_damage c; internal := internal c |}.

Definition set_rfm (c : rfc_ctx_s) (x : option (list Z)) : rfc_ctx_s :=
  {| version_ok := version_ok c; state := state c; error := error c; mem_alloc :=
     mem_alloc c; full_inc := full_inc c; half_inc := half_inc c; curr_inc := curr_inc
     c; class_count := class_count c; class_width := class_width c; class_offset :=
     class_offset c; hysteresis := hysteresis c; wl_sd := wl_sd c; wl_nd := wl_nd c;
     wl_k := wl_k c; residue := residue c; residue_cap := residue_cap c; residue_cnt :=
     residue_cnt c; rfm := x; pseudo_damage := pseudo_damage c; internal := internal c
     |}.

Definition set_pseudo_damage (c : rfc_ctx_s) (x : R) : rfc_ctx_s :=
  {| version_ok := version_ok c; state := state c; error := error c; mem_alloc :=
     mem_alloc c; full_inc := full_inc c; half_inc := half_inc c; curr_inc := curr_inc
     c; class_count := class_count c; class_width := class_width c; class_offset :=
     class_offset c; hysteresis := hysteresis c; wl_sd := wl_sd c; wl_nd := wl_nd c;
     wl_k := wl_k c; residue := residue c; residue_cap := residue_cap c; residue_cnt :=
     residue_cnt c; rfm := rfm c; pseudo_damage := x; internal := internal c |}.

Definition set_internal (c : rfc_ctx_s) (x : rfc_internal_s) : rfc_ctx_s :=
  {| version_ok := version_ok c; state := state c; error := error c; mem_alloc :=
     mem_alloc c; full_inc := full_inc c; half_inc := half_inc c; curr_inc := curr_inc
     c; class_count := class_count c; class_width := class_width c; class_offset :=
     class_offset c; hysteresis := hysteresis c; wl_sd := wl_sd c; wl_nd := wl_nd c;
     wl_k := wl_k c; residue := residue c; residue_cap := residue_cap c; residue_cnt :=
     residue_cnt c; rfm := rfm c; pseudo_damage := pseudo_damage c; internal := x |}.
(** ** Access to the residue and to the matrix through the context *)

(** [rfc_ctx->residue[i]] read.  Reading through a NULL pointer is undefined
    in C; the embedding yields [nil]. *)
Definition residue_at (c : rfc_ctx_s) (i : nat) : rfc_value_tuple_s :=
  match residue c with
  | Some buf => peek nil buf i
  | None => nil
  end.

(** [rfc_ctx->residue[i] = v].  Writing through a NULL pointer is undefined in
    C; the embedding leaves the context as it is. *)
Definition residue_put (c : rfc_ctx_s) (i : nat) (v : rfc_value_tuple_s) : rfc_ctx_s :=
  match residue c with
  | Some buf => set_residue c (Some (poke nil buf i v))
  | None => c
  end.

Definition with_internal (c : rfc_ctx_s) (f : rfc_internal_s -> rfc_internal_s) : rfc_ctx_s :=
  set_internal c (f (internal c)).

(** ** Macros *)

(** [QUANTIZE( r, v ) = (unsigned)( ((v) - (r)->class_offset) / (r)->class_width )] *)
Definition QUANTIZE (r : rfc_ctx_s) (v : RFC_value_type) : Z :=
  to_unsigned ((v - class_offset r) / class_width r)%Q.

(** ** Implementation static functions *)

(** Returns the unsigned difference of two values and its sign, -1 or 1 (the
    caller that passes [sign_ptr = NULL] drops the sign). *)
Definition value_delta (from_val to_val : RFC_value_type) : RFC_value_type * Z :=
  let delta := (to_val - from_val)%Q in
  (Qabs delta, if Qlt_bool delta 0 then -1 else 1).

(** The default allocator: NULL if either [num] or [size] is 0, else a zeroed
    block ([calloc] is taken to succeed). *)
Definition RFC_mem_alloc (num size : nat) (aim : rfc_mem_aim) : bool :=
  negb ((num =? 0)%nat || (size =? 0)%nat).

Definition RFC_error_raise (rfc_ctx : rfc_ctx_s) (err : rfc_error) : bool * rfc_ctx_s :=
  (false, set_error (set_state rfc_ctx RFC_STATE_ERROR) err).

Definition RFC_wl_init (rfc_ctx : rfc_ctx_s) (sd nd k : R) : rfc_ctx_s :=
  set_wl_k (set_wl_nd (set_wl_sd rfc_ctx sd) nd) (- Rabs k)%R.

(** C's [log(0)] is minus infinity and [exp] of minus infinity is 0: an
    amplitude 0 yields the damage 0. *)
Definition RFC_damage_calc_amplitude (rfc_ctx : rfc_ctx_s) (Sa : R) : R :=
  let SD_log := ln (wl_sd rfc_ctx) in
  let ND_log := ln (wl_nd rfc_ctx) in
  let k := wl_k rfc_ctx in
  if Rle_dec 0 Sa then
    if Req_dec_T Sa 0 then 0%R
    else exp (Rabs k * (ln Sa - SD_log) - ND_log)%R
  else 0%R.

(** Returns the damage and the amplitude ([Sa_ret]). *)
Definition RFC_damage_calc (rfc_ctx : rfc_ctx_s) (class_from class_to : Z) : R * R :=
  if negb (class_from =? class_to) then
    let range := (Q2R (class_width rfc_ctx) * IZR (Z.abs (to_int class_to - to_int class_from)))%R in
    let amplitude := (range / 2)%R in
    (RFC_damage_calc_amplitude rfc_ctx amplitude, amplitude)
  else (0%R, (-1)%R).

(** Processes counts on a closing cycle. *)
Definition RFC_cycle_process_counts (rfc_ctx : rfc_ctx_s)
  (from to next : rfc_value_tuple_s) (flags : Z) : rfc_ctx_s :=
  (* Quantize "from" *)
  let class_from := QUANTIZE rfc_ctx (value from) in
  let class_from :=
    if class_count rfc_ctx <=? class_from then (class_count rfc_ctx - 1) mod 2 ^ 32
    else class_from in
  (* Quantize "to" *)
  let class_to := QUANTIZE rfc_ctx (value to) in
  let class_to :=
    if class_count rfc_ctx <=? class_to then (class_count rfc_ctx - 1) mod 2 ^ 32
    else class_to in
  if negb (class_from =? class_to) then
    (* Cumulate pseudo damage *)
    let rfc_ctx :=
      if negb (Z.land flags RFC_FLAGS_COUNT_DAMAGE =? 0) then
        let damage := fst (RFC_damage_calc rfc_ctx class_from class_to) in
        set_pseudo_damage rfc_ctx
          (pseudo_damage rfc_ctx
           + damage / IZR (full_inc rfc_ctx) * IZR (curr_inc rfc_ctx))%R
      else rfc_ctx in
    (* Rainflow matrix *)
    match rfm rfc_ctx with
    | Some m =>
        if negb (Z.land flags RFC_FLAGS_COUNT_RFM =? 0) then
          let idx := Z.to_nat ((class_count rfc_ctx * class_from + class_to) mod 2 ^ 32) in
          set_rfm rfc_ctx (Some (poke 0 m idx (peek 0 m idx + curr_inc rfc_ctx)))
        else rfc_ctx
    | None => rfc_ctx
    end
  else rfc_ctx.

(** One turn of the loop of [RFC_cycle_find_4ptm], entered with
    [residue_cnt >= 4]: [None] is the [break]. *)
Definition cycle_find_4ptm_body (rfc_ctx : rfc_ctx_s) (flags : Z) : option rfc_ctx_s :=
  let idx := (residue_cnt rfc_ctx - 4)%nat in
  let A := value (residue_at rfc_ctx (idx + 0)) in
  let B := value (residue_at rfc_ctx (idx + 1)) in
  let C := value (residue_at rfc_ctx (idx + 2)) in
  let D := value (residue_at rfc_ctx (idx + 3)) in
  let '(B, C) := if Qlt_bool C B then (C, B) else (B, C) in
  let '(A, D) := if Qlt_bool D A then (D, A) else (A, D) in
  if Qle_bool A B && Qle_bool C D then
    let from := residue_at rfc_ctx (idx + 1) in
    let to := residue_at rfc_ctx (idx + 2) in
    (* Closed cycle found, process countings *)
    let rfc_ctx := RFC_cycle_process_counts rfc_ctx from to (residue_at rfc_ctx (idx + 3)) flags in
    (* Remove two inner turning points (idx+1 and idx+2) *)
    (* Move last turning point *)
    let rfc_ctx := residue_put rfc_ctx (idx + 1) (residue_at rfc_ctx (idx + 3)) in
    (* Move interim turning point *)
    let rfc_ctx :=
      if state_eqb (state rfc_ctx) RFC_STATE_BUSY_INTERIM
      then residue_put rfc_ctx (idx + 2) (residue_at rfc_ctx (idx + 4))
      else rfc_ctx in
    Some (set_residue_cnt rfc_ctx (residue_cnt rfc_ctx - 2)%nat)
  else None.

(** [while( rfc_ctx->residue_cnt >= 4 )]: every turn that does not [break]
    takes two points away, so [fuel = residue_cnt] turns are never used up. *)
Fixpoint cycle_find_4ptm_loop (fuel : nat) (rfc_ctx : rfc_ctx_s) (flags : Z) : rfc_ctx_s :=
  match fuel with
  | O => rfc_ctx
  | S fuel' =>
      if (4 <=? residue_cnt rfc_ctx)%nat then
        match cycle_find_4ptm_body rfc_ctx flags with
        | Some rfc_ctx' => cycle_find_4ptm_loop fuel' rfc_ctx' flags
        | None => rfc_ctx
        end
      else rfc_ctx
  end.

(** Rainflow counting core (4-point-method). *)
Definition RFC_cycle_find_4ptm (rfc_ctx : rfc_ctx_s) (flags : Z) : rfc_ctx_s :=
  cycle_find_4ptm_loop (residue_cnt rfc_ctx) rfc_ctx flags.

Definition RFC_cycle_find := RFC_cycle_find_4ptm.

(** Remove items (points) from the residue: the points from [index + count]
    up to [end] move down by [count]. *)
Definition RFC_residue_remove_item (rfc_ctx : rfc_ctx_s) (index count : nat) : rfc_ctx_s :=
  let from := (index + count)%nat in
  let to := index in
  let end_ := residue_cnt rfc_ctx in
  let end_ :=
    if state_eqb (state rfc_ctx) RFC_STATE_BUSY_INTERIM then S end_ else end_ in
  (* Shift points *)
  let rfc_ctx :=
    fold_left (fun c k => residue_put c (to + k) (residue_at c (from + k)))
              (seq 0 (end_ - from)) rfc_ctx in
  set_residue_cnt rfc_ctx (residue_cnt rfc_ctx - count)%nat.

(** Test data sample for a new turning point and add to the residue in that
    case.  Update extrema.  Returns the index in the residue of the new
    turning point, or [None] (NULL). *)
Definition RFC_feed_filter_pt (rfc_ctx : rfc_ctx_s) (pt : rfc_value_tuple_s)
  : rfc_ctx_s * option nat :=
  let slope := Internal.slope (internal rfc_ctx) in
  let '(rfc_ctx, do_append) :=
    (* Handle first turning point(s) *)
    if state_lt (state rfc_ctx) RFC_STATE_BUSY_INTERIM then
      (* Residue is empty, still searching first turning point(s) *)
      if state_eqb (state rfc_ctx) RFC_STATE_INIT then
        (* Very first point, initialize local min-max search *)
        let rfc_ctx := with_internal rfc_ctx (fun i => Internal.set_extrema1 i pt) in
        let rfc_ctx := with_internal rfc_ctx (fun i => Internal.set_extrema0 i pt) in
        (set_state rfc_ctx RFC_STATE_BUSY, false)
      else
        (* Still searching for first turning point(s) *)
        (* Update local extrema *)
        let '(rfc_ctx, is_falling_slope) :=
          if Qlt_bool (value pt) (value (Internal.extrema0 (internal rfc_ctx))) then
            (* Minimum *)
            (with_internal rfc_ctx (fun i => Internal.set_extrema0 i pt), 1)
          else if Qlt_bool (value (Internal.extrema1 (internal rfc_ctx))) (value pt) then
            (* Maximum *)
            (with_internal rfc_ctx (fun i => Internal.set_extrema1 i pt), 0)
          else (rfc_ctx, -1) in
        (* Local hysteresis filtering *)
        let delta := fst (value_delta (value (Internal.extrema0 (internal rfc_ctx)))
                                      (value (Internal.extrema1 (internal rfc_ctx)))) in
        if (0 <=? is_falling_slope) && Qlt_bool (hysteresis rfc_ctx) delta then
          (* Criteria met, new turning point found. *)
          let rfc_ctx := residue_put rfc_ctx (residue_cnt rfc_ctx)
                                     (Internal.extrema (internal rfc_ctx) is_falling_slope) in
          let rfc_ctx :=
            with_internal rfc_ctx
              (fun i => Internal.set_slope i (if negb (is_falling_slope =? 0) then -1 else 1)) in
          (* pt is the new interim turning point *)
          (set_state rfc_ctx RFC_STATE_BUSY_INTERIM, true)
        else (rfc_ctx, false)
    else
      (* Consecutive search for turning points *)
      (* Hysteresis Filtering, check against interim turning point *)
      let '(delta, slope) :=
        value_delta (value (residue_at rfc_ctx (residue_cnt rfc_ctx))) (value pt) in
      (* Peak-Valley Filtering *)
      if slope =? Internal.slope (internal rfc_ctx) then
        (* Scenario (1), Continuous slope *)
        (* Replace interim turning point with new extrema *)
        if negb (Qeq_bool (value (residue_at rfc_ctx (residue_cnt rfc_ctx))) (value pt)) then
          (residue_put rfc_ctx (residue_cnt rfc_ctx) pt, false)
        else (rfc_ctx, false)
      else if Qlt_bool (hysteresis rfc_ctx) delta then
        (* Scenario (2), Criteria met *)
        (with_internal rfc_ctx (fun i => Internal.set_slope i slope), true)
      else
        (* Scenario (3), still in hysteresis band, nothing to do *)
        (rfc_ctx, false)
  in
  (* Handle new turning point, that is the current last point in residue *)
  if do_append : bool then
    (* Increment and set new interim turning point *)
    let rfc_ctx := set_residue_cnt rfc_ctx (S (residue_cnt rfc_ctx)) in
    let rfc_ctx := residue_put rfc_ctx (residue_cnt rfc_ctx) pt in
    (* Return new turning point *)
    (rfc_ctx, Some (residue_cnt rfc_ctx - 1)%nat)
  else (rfc_ctx, None).

(** Processing one data point.  Find turning points and check for closed
    cycles. *)
Definition RFC_feed_once (rfc_ctx : rfc_ctx_s) (pt : rfc_value_tuple_s) (flags : Z)
  : bool * rfc_ctx_s :=
  let '(rfc_ctx, tp_residue) := RFC_feed_filter_pt rfc_ctx pt in
  match tp_residue with
  | Some _ =>
      if negb (class_count rfc_ctx =? 0) then
        (* Check for closed cycles and count. Modifies residue! *)
        (true, RFC_cycle_find rfc_ctx flags)
      else if (1 <? residue_cnt rfc_ctx)%nat then
        (true, RFC_residue_remove_item rfc_ctx 0 1)
      else (true, rfc_ctx)
  | None => (true, rfc_ctx)
  end.

(** Handling interim turning point and margin. *)
Definition RFC_feed_finalize (rfc_ctx : rfc_ctx_s) : bool * rfc_ctx_s :=
  if state_lt (state rfc_ctx) RFC_STATE_FINALIZE then
    (* Adjust residue: Incorporate interim turning point *)
    let '(rfc_ctx, tp_interim) :=
      if state_eqb (state rfc_ctx) RFC_STATE_BUSY_INTERIM then
        (set_state (set_residue_cnt rfc_ctx (S (residue_cnt rfc_ctx))) RFC_STATE_BUSY, true)
      else (rfc_ctx, false) in
    let rfc_ctx :=
      if tp_interim : bool then
        (* Check once more if a new cycle is closed now *)
        RFC_cycle_find rfc_ctx (Internal.flags (internal rfc_ctx))
      else rfc_ctx in
    (true, set_state rfc_ctx RFC_STATE_FINALIZE)
  else (true, rfc_ctx).

(** Finalize pending counts, ignore residue. *)
Definition RFC_finalize_res_ignore (rfc_ctx : rfc_ctx_s) (flags : Z) : bool * rfc_ctx_s :=
  (* Include interim turning point *)
  RFC_feed_finalize rfc_ctx.

(** ** Public entry points *)

(** De-initialization (freeing memory). *)
Definition RFC_deinit (rfc_ctx : rfc_ctx_s) : bool * rfc_ctx_s :=
  if negb (version_ok rfc_ctx) then (false, set_error rfc_ctx RFC_ERROR_INVARG)
  else if state_lt (state rfc_ctx) RFC_STATE_INIT then (false, rfc_ctx)
  else
    let rfc_ctx := set_residue rfc_ctx None in
    let rfc_ctx := set_residue_cap rfc_ctx 0%nat in
    let rfc_ctx := set_residue_cnt rfc_ctx 0%nat in
    let rfc_ctx := set_rfm rfc_ctx None in
    let rfc_ctx := with_internal rfc_ctx (fun i => Internal.set_slope i 0) in
    let rfc_ctx := with_internal rfc_ctx (fun i => Internal.set_extrema0 i nil) in
    let rfc_ctx := with_internal rfc_ctx (fun i => Internal.set_extrema1 i nil) in
    let rfc_ctx := with_internal rfc_ctx (fun i => Internal.set_pos i 0) in
    let rfc_ctx := with_internal rfc_ctx (fun i => Internal.set_global_offset i 0) in
    (true, set_state rfc_ctx RFC_STATE_INIT0).

(** Initialization (rainflow context). *)
Definition RFC_init (rfc_ctx : rfc_ctx_s) (class_count_ : Z)
  (class_width_ class_offset_ hysteresis_ : RFC_value_type) (flags : Z)
  : bool * rfc_ctx_s :=
  if negb (version_ok rfc_ctx) then (false, set_error rfc_ctx RFC_ERROR_INVARG)
  else if negb (state_eqb (state rfc_ctx) RFC_STATE_INIT0) then (false, rfc_ctx)
  else
    (* Flags *)
    let flags :=
      if flags =? RFC_FLAGS_DEFAULT
      then Z.lor RFC_FLAGS_COUNT_RFM RFC_FLAGS_COUNT_DAMAGE
      else flags in
    let rfc_ctx := with_internal rfc_ctx (fun i => Internal.set_flags i flags) in
    (* Counter increments *)
    let rfc_ctx := set_full_inc rfc_ctx RFC_FULL_CYCLE_INCREMENT in
    let rfc_ctx := set_half_inc rfc_ctx RFC_HALF_CYCLE_INCREMENT in
    let rfc_ctx := set_curr_inc rfc_ctx RFC_FULL_CYCLE_INCREMENT in
    if negb (class_count_ =? 0) && ((512 <? class_count_) || Qle_bool class_width_ 0) then
      (false, set_error rfc_ctx RFC_ERROR_INVARG)
    else
      (* Rainflow class parameters *)
      let rfc_ctx := set_class_count rfc_ctx class_count_ in
      let rfc_ctx := set_class_width rfc_ctx class_width_ in
      let rfc_ctx := set_class_offset rfc_ctx class_offset_ in
      let rfc_ctx := set_hysteresis rfc_ctx hysteresis_ in
      (* Values for a "pseudo Woehler curve" *)
      let rfc_ctx := RFC_wl_init rfc_ctx 1000 10000000 (-5) in
      (* Memory allocator *)
      let alloc :=
        match mem_alloc rfc_ctx with
        | Some f => f
        | None => RFC_mem_alloc
        end in
      let rfc_ctx := set_mem_alloc rfc_ctx (Some alloc) in
      (* Residue *)
      let rfc_ctx :=
        with_internal rfc_ctx (fun i => Internal.set_residue_cap i NUMEL_internal_residue) in
      let rfc_ctx := set_residue_cnt rfc_ctx 0%nat in
      let rfc_ctx := set_residue_cap rfc_ctx (Z.to_nat (2 * class_count rfc_ctx)) in
      let rfc_ctx :=
        if (residue_cap rfc_ctx <=? Internal.residue_cap (internal rfc_ctx))%nat then
          (* At least 3 elements are needed *)
          let rfc_ctx := set_residue_cap rfc_ctx (Internal.residue_cap (internal rfc_ctx)) in
          let rfc_ctx := set_residue rfc_ctx (Some (Internal.residue (internal rfc_ctx))) in
          with_internal rfc_ctx (fun i => Internal.set_res_static i true)
        else
          let rfc_ctx :=
            set_residue rfc_ctx
              (if alloc (residue_cap rfc_ctx) sizeof_rfc_value_tuple_s RFC_MEM_AIM_RESIDUE
               then Some (repeat nil (residue_cap rfc_ctx)) else None) in
          with_internal rfc_ctx (fun i => Internal.set_res_static i false) in
      let '(rfc_ctx, ok) :=
        if negb (class_count rfc_ctx =? 0) then
          let ok := match residue rfc_ctx with Some _ => true | None => false end in
          if ok && negb (Z.land flags RFC_FLAGS_COUNT_RFM =? 0) then
            (* Non-sparse storages (optional, may be NULL) *)
            let num := Z.to_nat ((class_count_ * class_count_) mod 2 ^ 32) in
            if alloc num sizeof_RFC_counts_type RFC_MEM_AIM_MATRIX
            then (set_rfm rfc_ctx (Some (repeat 0 num)), true)
            else (set_rfm rfc_ctx None, false)
          else (rfc_ctx, ok)
        else (rfc_ctx, true) in
      if negb ok then
        let rfc_ctx := snd (RFC_deinit rfc_ctx) in
        (false, set_error rfc_ctx RFC_ERROR_INVARG)
      else
        (* Damage *)
        let rfc_ctx := set_pseudo_damage rfc_ctx 0%R in
        (* Internals *)
        let rfc_ctx := with_internal rfc_ctx (fun i => Internal.set_slope i 0) in
        let rfc_ctx := with_internal rfc_ctx (fun i => Internal.set_extrema0 i nil) in
        let rfc_ctx := with_internal rfc_ctx (fun i => Internal.set_extrema1 i nil) in
        (true, set_state rfc_ctx RFC_STATE_INIT).

(** The samples [RFC_feed] reads: the first [data_count] elements of the
    caller's buffer. *)
Fixpoint RFC_feed_loop (rfc_ctx : rfc_ctx_s) (data : list RFC_value_type) : bool * rfc_ctx_s :=
  match data with
  | [] => (true, rfc_ctx)
  | v :: data' =>
      (* Assign class and global position (base 1) *)
      let c := QUANTIZE rfc_ctx v in
      let rfc_ctx :=
        with_internal rfc_ctx (fun i => Internal.set_pos i (Internal.pos i + 1)) in
      let tp := {| value := v; cls := c; pos := Internal.pos (internal rfc_ctx) |} in
      let '(ok, rfc_ctx) := RFC_feed_once rfc_ctx tp (Internal.flags (internal rfc_ctx)) in
      if ok : bool then RFC_feed_loop rfc_ctx data' else (false, rfc_ctx)
  end.

(** "Feed" counting algorithm with data samples (consecutive calls allowed).
    [data = None] is the NULL pointer. *)
Definition RFC_feed (rfc_ctx : rfc_ctx_s) (data : option (list RFC_value_type))
  (data_count : nat) : bool * rfc_ctx_s :=
  if negb (data_count =? 0)%nat && match data with None => true | Some _ => false end
  then (false, rfc_ctx)
  else if negb (version_ok rfc_ctx) then (false, set_error rfc_ctx RFC_ERROR_INVARG)
  else if state_lt (state rfc_ctx) RFC_STATE_INIT
          || state_ge (state rfc_ctx) RFC_STATE_FINISHED
  then (false, rfc_ctx)
  else
    (* Process data *)
    RFC_feed_loop rfc_ctx
      (firstn data_count (match data with Some buf => buf | None => [] end)).

(** Finalize pending counts and turning point storage. *)
Definition RFC_finalize (rfc_ctx : rfc_ctx_s) (residual_method : rfc_res_method)
  : bool * rfc_ctx_s :=
  if negb (version_ok rfc_ctx) then (false, set_error rfc_ctx RFC_ERROR_INVARG)
  else if state_lt (state rfc_ctx) RFC_STATE_INIT
          || state_ge (state rfc_ctx) RFC_STATE_FINISHED
  then (false, rfc_ctx)
  else
    let flags := Internal.flags (internal rfc_ctx) in
    let '(ok, rfc_ctx) :=
      match residual_method with
      | RFC_RES_NONE
      | RFC_RES_IGNORE => RFC_finalize_res_ignore rfc_ctx flags
      | RFC_RES_OTHER _ => (false, set_error rfc_ctx RFC_ERROR_INVARG)
      end in
    let rfc_ctx :=
      if class_count rfc_ctx =? 0 then set_residue_cnt rfc_ctx 0%nat else rfc_ctx in
    (ok, set_state rfc_ctx (if ok : bool then RFC_STATE_FINISHED else RFC_STATE_ERROR)).

(** ** Calls from the public interface *)

(** [RFC_feed( ctx, data, NUMEL( data ) )] on a caller's array. *)
Definition feed (rfc_ctx : rfc_ctx_s) (data : list RFC_value_type) : bool * rfc_ctx_s :=
  RFC_feed rfc_ctx (Some data) (length data).

(** Feeding chunk by chunk, one [RFC_feed] call per chunk. *)
Definition feed_chunks (rfc_ctx : rfc_ctx_s) (chunks : list (list RFC_value_type)) : rfc_ctx_s :=
  fold_left (fun c chunk => snd (feed c chunk)) chunks rfc_ctx.

(** What the queries of section 6 read of the counting result. *)
Definition counting_result (c : rfc_ctx_s)
  : option (list Z) * R * option (list rfc_value_tuple_s) * nat :=
  (rfm c, pseudo_damage c, residue c, residue_cnt c).

(** The fields no function of the counting core writes after init, together
    with [state] and [internal]: what [RFC_cycle_find] and the residue
    operations leave alone. *)
Definition untouched_by_counting (c : rfc_ctx_s) :=
  (version_ok c, state c, error c, mem_alloc c, (full_inc c, half_inc c, curr_inc c),
   (class_count c, class_width c, class_offset c, hysteresis c),
   (wl_sd c, wl_nd c, wl_k c), residue_cap c, internal c).

(** [RFC_feed] and [RFC_finalize] let a call through in these states. *)
Definition state_accepted (s : rfc_state) : bool :=
  negb (state_lt s RFC_STATE_INIT || state_ge s RFC_STATE_FINISHED).

(** What init fixes for the life of the context: no feed or finalize call
    writes these. *)
Definition configuration (c : rfc_ctx_s) :=
  (version_ok c, error c, mem_alloc c, (full_inc c, half_inc c, curr_inc c),
   (class_count c, class_width c, class_offset c, hysteresis c),
   (wl_sd c, wl_nd c, wl_k c), residue_cap c, Internal.flags (internal c)).

(** The branches of [RFC_feed_filter_pt], named for the proofs. *)

(** Very first point: initialize local min-max search. *)
Definition filter_first (c : rfc_ctx_s) (pt : rfc_value_tuple_s) : rfc_ctx_s :=
  set_state
    (with_internal (with_internal c (fun i => Internal.set_extrema1 i pt))
                   (fun i => Internal.set_extrema0 i pt))
    RFC_STATE_BUSY.

(** First turning point found: [extrema[is_falling_slope]] enters the residue. *)
Definition filter_emit_first (c : rfc_ctx_s) (is_falling_slope : Z) : rfc_ctx_s :=
  set_state
    (with_internal
       (residue_put c (residue_cnt c) (Internal.extrema (internal c) is_falling_slope))
       (fun i => Internal.set_slope i (if negb (is_falling_slope =? 0) then -1 else 1)))
    RFC_STATE_BUSY_INTERIM.

(** [rfc_ctx->residue[++rfc_ctx->residue_cnt] = *pt] *)
Definition filter_append (c : rfc_ctx_s) (pt : rfc_value_tuple_s) : rfc_ctx_s :=
  residue_put (set_residue_cnt c (S (residue_cnt c))) (S (residue_cnt c)) pt.

(** The closure rule of section 4.E in the words of the specification: the
    inner range [B, C] is contained in the outer range [A, D], that is
    [min(B,C) >= min(A,D)] and [max(B,C) <= max(A,D)]; equalities count as
    closed. *)
Definition closed_cycle (A B C D : RFC_value_type) : bool :=
  Qle_bool (Qmin A D) (Qmin B C) && Qle_bool (Qmax B C) (Qmax A D).

(** Steps 3 and 4 of section 4.E, in the words of the specification: with
    [idx = n - 4], count [(B, C)], then [R[idx+1] <- R[idx+3]] and, if
    [BUSY_INTERIM], [R[idx+2] <- R[idx+4]]; decrease [n] by 2. *)
Definition close_cycle_spec (c : rfc_ctx_s) (flags : Z) : rfc_ctx_s :=
  let n := residue_cnt c in
  let B := residue_at c (n - 3) in
  let C := residue_at c (n - 2) in
  let D := residue_at c (n - 1) in
  let interim := residue_at c n in
  let c := RFC_cycle_process_counts c B C D flags in
  let c := residue_put c (n - 3) D in
  let c := if state_eqb (state c) RFC_STATE_BUSY_INTERIM
           then residue_put c (n - 2) interim else c in
  set_residue_cnt c (n - 2).

(** The residue: its buffer and its count. *)
Definition residue_part (c : rfc_ctx_s) := (residue c, residue_cnt c).

(** ** Contexts of the test suite *)

(** [rfc_ctx_s ctx = { sizeof(ctx) }]: the version set, every other member
    zero. *)
Definition ctx_zero : rfc_ctx_s :=
  {| version_ok := true; state := RFC_STATE_INIT0; error := RFC_ERROR_NOERROR;
     mem_alloc := None; full_inc := 0; half_inc := 0; curr_inc := 0;
     class_count := 0; class_width := 0%Q; class_offset := 0%Q; hysteresis := 0%Q;
     wl_sd := 0%R; wl_nd := 0%R; wl_k := 0%R;
     residue := None; residue_cap := 0%nat; residue_cnt := 0%nat;
     rfm := None; pseudo_damage := 0%R;
     internal :=
       {| Internal.flags := 0; Internal.slope := 0;
          Internal.extrema0 := nil; Internal.extrema1 := nil;
          Internal.pos := 0; Internal.global_offset := 0;
          Internal.residue := repeat nil NUMEL_internal_residue;
          Internal.residue_cap := 0%nat; Internal.res_static := false |} |}.

(** The context of the tests with four classes: [calc_class_param( 4, 1, 4 )]
    gives [class_width = 1] and [class_offset = 0.5]; the hysteresis is
    [class_width * 0.99]. *)
Definition ctx_4_classes (flags : Z) : rfc_ctx_s :=
  snd (RFC_init ctx_zero 4 1%Q (1 # 2)%Q (99 # 100)%Q flags).

Definition samples (l : list Z) : list RFC_value_type := map inject_Z l.

(** The tuple [RFC_feed] builds for the next sample [v], and the context as
    [RFC_feed_once] hands it to the detector: after the filter has run on that
    sample. *)
Definition next_tuple (c : rfc_ctx_s) (v : RFC_value_type) : rfc_value_tuple_s :=
  {| value := v; cls := QUANTIZE c v; pos := Internal.pos (internal c) + 1 |}.

Definition after_filter (c : rfc_ctx_s) (v : RFC_value_type) : rfc_ctx_s :=
  fst (RFC_feed_filter_pt
         (with_internal c (fun i => Internal.set_pos i (Internal.pos i + 1)))
         (next_tuple c v)).

(** The test context after the samples 1, 3, 2, 4 and the filter's pass over a
    fifth sample 1: four confirmed turning points and the interim point, as
    the detector finds them. *)
Definition ctx_before_closing : rfc_ctx_s :=
  after_filter (snd (feed (ctx_4_classes RFC_FLAGS_DEFAULT) (samples [1; 3; 2; 4]))) 1%Q.

(** ** Counter sinks *)

(** The two sinks of section 4.F. *)
Definition sinks (c : rfc_ctx_s) := (rfm c, pseudo_damage c).

(** What the counting of a cycle reads besides the sinks. *)
Definition parameters (c : rfc_ctx_s) :=
  ((full_inc c, half_inc c, curr_inc c),
   (class_count c, class_width c, class_offset c, hysteresis c),
   (wl_sd c, wl_nd c, wl_k c), Internal.flags (internal c)).

(** The class of a cycle's end point after clamping to [0, class_count-1]. *)
Definition counted_class (c : rfc_ctx_s) (v : RFC_value_type) : Z :=
  Z.min (QUANTIZE c v) (class_count c - 1).

(** [Sa = class_width * |ct - cf| / 2] *)
Definition cycle_amplitude (c : rfc_ctx_s) (cf ct : Z) : R :=
  (Q2R (class_width c) * IZR (Z.abs (ct - cf)) / 2)%R.

(** [D(Sa) = exp(|k| * (ln Sa - ln SD) - ln ND)], the logarithmic form. *)
Definition woehler_damage_log (c : rfc_ctx_s) (Sa : R) : R :=
  exp (Rabs (wl_k c) * (ln Sa - ln (wl_sd c)) - ln (wl_nd c))%R.

(** [D(Sa) = (Sa/SD)^|k| / ND] *)
Definition woehler_damage (c : rfc_ctx_s) (Sa : R) : R :=
  (Rpower (Sa / wl_sd c) (Rabs (wl_k c)) / wl_nd c)%R.

(** [rfc_ctx->rfm[i]], 0 where there is no matrix. *)
Definition rfm_at (c : rfc_ctx_s) (i : Z) : Z :=
  match rfm c with
  | Some m => peek 0 m (Z.to_nat i)
  | None => 0
  end.

(** The RFM sink is enabled: the matrix exists and [RFC_FLAGS_COUNT_RFM] is set. *)
Definition rfm_sink_enabled (c : rfc_ctx_s) (flags : Z) : bool :=
  match rfm c with
  | Some _ => negb (Z.land flags RFC_FLAGS_COUNT_RFM =? 0)
  | None => false
  end.

Definition damage_sink_enabled (flags : Z) : bool :=
  negb (Z.land flags RFC_FLAGS_COUNT_DAMAGE =? 0).

(** The diagonal of the rainflow matrix is zero. *)
Definition diagonal_zero (c : rfc_ctx_s) : Prop :=
  forall i, 0 <= i < class_count c -> rfm_at c (i * class_count c + i) = 0.

(** What the diagonal needs of a context, and what the calls keep of it. *)
Definition keeps_diagonal (c c' : rfc_ctx_s) : Prop :=
  parameters c' = parameters c
  /\ (0 < class_count c <= 512 -> diagonal_zero c -> diagonal_zero c').

Definition tp_of (v cl p : Z) : rfc_value_tuple_s :=
  {| value := inject_Z v; cls := cl; pos := p |}.

(** The residue capacity [RFC_init] settles on. *)
Definition init_residue_cap (cc : Z) : nat :=
  Nat.max (Z.to_nat (2 * cc)) NUMEL_internal_residue.

(** A call of the public interface made after init, and the context a
    sequence of such calls leaves. *)
Inductive rfc_call : Type :=
| call_feed (data : option (list RFC_value_type)) (data_count : nat)
| call_finalize (residual_method : rfc_res_method).

Definition run_call (c : rfc_ctx_s) (call : rfc_call) : rfc_ctx_s :=
  match call with
  | call_feed data data_count => snd (RFC_feed c data data_count)
  | call_finalize residual_method => snd (RFC_finalize c residual_method)
  end.

Definition run_calls (c : rfc_ctx_s) (calls : list rfc_call) : rfc_ctx_s :=
  fold_left run_call calls c.

(** The increments are as [RFC_init] sets them: [full_inc] positive,
    [curr_inc] not negative. *)
Definition increments_ok (c : rfc_ctx_s) : Prop := 0 < full_inc c /\ 0 <= curr_inc c.

Definition damage_grows (c c' : rfc_ctx_s) : Prop :=
  parameters c' = parameters c
  /\ (increments_ok c -> (pseudo_damage c <= pseudo_damage c')%R).

(** The input of the test [RFC_cycle_up]. *)
Definition data_up : list RFC_value_type := samples [1; 3; 2; 4].

(** The allocator the context uses: the hook, or the default one. *)
Definition allocator (c : rfc_ctx_s) : rfc_mem_alloc_fcn_t :=
  match mem_alloc c with
  | Some f => f
  | None => RFC_mem_alloc
  end.

(** The flags [RFC_init] stores. *)
Definition init_flags (flags : Z) : Z :=
  if flags =? RFC_FLAGS_DEFAULT
  then Z.lor RFC_FLAGS_COUNT_RFM RFC_FLAGS_COUNT_DAMAGE
  else flags.

(** The allocations [RFC_init] asks for succeed: the residue when
    [2 * class_count] exceeds the embedded capacity, the matrix when there
    are classes and [RFC_FLAGS_COUNT_RFM] is set. *)
Definition allocations_succeed (c : rfc_ctx_s) (cc flags : Z) : Prop :=
  ((NUMEL_internal_residue < Z.to_nat (2 * cc))%nat ->
   allocator c (Z.to_nat (2 * cc)) sizeof_rfc_value_tuple_s RFC_MEM_AIM_RESIDUE = true)
  /\ (cc <> 0 -> Z.land (init_flags flags) RFC_FLAGS_COUNT_RFM <> 0 ->
      allocator c (Z.to_nat ((cc * cc) mod 2 ^ 32)) sizeof_RFC_counts_type
                RFC_MEM_AIM_MATRIX = true).

(** The feeding states: INIT, BUSY and BUSY_INTERIM. *)
Definition feeding_state (s : rfc_state) : bool :=
  match s with
  | RFC_STATE_INIT | RFC_STATE_BUSY | RFC_STATE_BUSY_INTERIM => true
  | _ => false
  end.

(** The residual methods in scope: NONE and IGNORE. *)
Definition ignores_residue (m : rfc_res_method) : bool :=
  match m with
  | RFC_RES_NONE | RFC_RES_IGNORE => true
  | RFC_RES_OTHER _ => false
  end.

(** Section 4.G, finalize, in the words of the specification: if
    [BUSY_INTERIM], promote the interim point to a confirmed turning point
    ([n <- n + 1]), transition to BUSY and run the detector once more. *)
Definition promote_interim_spec (c : rfc_ctx_s) : rfc_ctx_s :=
  if state_eqb (state c) RFC_STATE_BUSY_INTERIM then
    RFC_cycle_find_4ptm
      (set_state (set_residue_cnt c (S (residue_cnt c))) RFC_STATE_BUSY)
      (Internal.flags (internal c))
  else c.

(** The context of the tests without classes ([class_count = 0], where
    [calc_class_param] gives width 1 and offset 0) after the samples 1, 3. *)
Definition ctx_no_classes_fed : rfc_ctx_s :=
  snd (feed (snd (RFC_init ctx_zero 0 1%Q 0%Q (99 # 100)%Q RFC_FLAGS_DEFAULT))
            (samples [1; 3])).

(** An allocator that never delivers, and the fresh context that uses it. *)
Definition no_memory : rfc_mem_alloc_fcn_t := fun _ _ _ => false.

Definition ctx_zero_no_memory : rfc_ctx_s := set_mem_alloc ctx_zero (Some no_memory).

(** The test context finalized right after init. *)
Definition ctx_finished : rfc_ctx_s :=
  snd (RFC_finalize (ctx_4_classes RFC_FLAGS_DEFAULT) RFC_RES_NONE).

(** The 25 samples of the test [RFC_residue_stress_test]. *)
Definition data_stress : list RFC_value_type :=
  samples [2; 3; 1; 4; 1; 3; 2; 3; 2; 3; 1; 4; 1; 3; 2; 3; 2; 3; 1; 4; 1; 3; 2; 3]
  ++ [(19 # 10)%Q].

(** The test context after the first [k] samples of the stress test, and
    after all of them and [RFC_finalize( &ctx, RFC_RES_NONE )]. *)
Definition ctx_stress (k : nat) : rfc_ctx_s :=
  snd (feed (ctx_4_classes RFC_FLAGS_DEFAULT) (firstn k data_stress)).

Definition ctx_stress_finalized : rfc_ctx_s :=
  snd (RFC_finalize (ctx_stress 25) RFC_RES_NONE).

(** The confirmed turning points of the residue. *)
Definition residue_points (c : rfc_ctx_s) : list rfc_value_tuple_s :=
  map (residue_at c) (seq 0 (residue_cnt c)).

(** The sum of all counters of the matrix. *)
Definition rfm_sum (c : rfc_ctx_s) : Z :=
  match rfm c with
  | Some m => fold_right Z.add 0 m
  | None => 0
  end.

(** The counter of the cycles from class [from] to class [to], classes
    numbered from 1. *)
Definition rfm_count_base1 (c : rfc_ctx_s) (from to : Z) : Z :=
  rfm_at c ((from - 1) * class_count c + (to - 1)).

(** The sample at the position [p] of the input, positions numbered from 1. *)
Definition sample_at (data : list RFC_value_type) (p : Z) : option RFC_value_type :=
  nth_error data (Z.to_nat (p - 1)).

(** A context with two classes over the window [0, 2) and no hysteresis, and
    samples inside the window whose swings widen slowly. *)
Definition ctx_2_classes : rfc_ctx_s :=
  snd (RFC_init ctx_zero 2 1%Q 0%Q 0%Q RFC_FLAGS_DEFAULT).

Definition data_widening : list RFC_value_type :=
  [1; 11 # 10; 9 # 10; 12 # 10; 8 # 10; 13 # 10]%Q.

(** The length of the residue buffer, 0 for NULL. *)
Definition residue_buffer_length (c : rfc_ctx_s) : nat :=
  match residue c with
  | Some buf => length buf
  | None => 0%nat
  end.

(** ** The residue as a chain of turning points *)

(** [b] is a turning point between [a] and [c]: a peak or a valley that
    stands out by more than the hysteresis [h] on both sides. *)
Definition is_turn (h : RFC_value_type) (a b c : rfc_value_tuple_s) : Prop :=
  (value a + h < value b /\ value c + h < value b)%Q
  \/ (value b + h < value a /\ value b + h < value c)%Q.

(** The swing from [a] to [b] exceeds the hysteresis and goes the way the
    slope [s] says. *)
Definition last_swing (h : RFC_value_type) (s : Z) (a b : rfc_value_tuple_s) : Prop :=
  (s = 1 /\ (value a + h < value b)%Q) \/ (s = -1 /\ (value b + h < value a)%Q).

(** The first [m] points read by [R] form a chain of turning points: every
    inner point is a turn, the last swing follows the slope, the positions
    increase strictly and stay below the bound [b]. *)
Definition chain (h : RFC_value_type) (s b : Z) (m : nat)
  (R : nat -> rfc_value_tuple_s) : Prop :=
  (forall i, (i + 2 < m)%nat -> is_turn h (R i) (R (i + 1)%nat) (R (i + 2)%nat))
  /\ ((2 <= m)%nat -> last_swing h s (R (m - 2)%nat) (R (m - 1)%nat))
  /\ (forall i, (i + 1 < m)%nat -> pos (R i) < pos (R (i + 1)%nat))
  /\ (forall i, (i < m)%nat -> pos (R i) <= b).

(** The points of the residue that form the chain: the confirmed ones and,
    in BUSY_INTERIM, the interim point behind them. *)
Definition chain_len (c : rfc_ctx_s) : nat :=
  if state_eqb (state c) RFC_STATE_BUSY_INTERIM
  then S (residue_cnt c) else residue_cnt c.










(** The states in which the counting is over: FINISHED and ERROR. *)
Definition counting_over (s : rfc_state) : bool := state_ge s RFC_STATE_FINISHED.

(** The success value of a call of the public interface. *)
Definition call_succeeds (c : rfc_ctx_s) (call : rfc_call) : bool :=
  match call with
  | call_feed data data_count => fst (RFC_feed c data data_count)
  | call_finalize residual_method => fst (RFC_finalize c residual_method)
  end.

(** The matrix holds zeros only (or is NULL). *)
Definition rfm_is_zero (c : rfc_ctx_s) : Prop := forall i, rfm_at c i = 0.

(** The lower edge of the class [k]. *)
Definition class_edge (c : rfc_ctx_s) (k : Z) : RFC_value_type :=
  (class_offset c + inject_Z k * class_width c)%Q.

(** No cycle can be closed at the end of the confirmed residue: there are
    fewer than four confirmed points, or the last four fail the closure
    rule. *)
Definition detector_exhausted (c : rfc_ctx_s) : Prop :=
  (residue_cnt c < 4)%nat
  \/ closed_cycle (value (residue_at c (residue_cnt c - 4)))
                  (value (residue_at c (residue_cnt c - 3)))
                  (value (residue_at c (residue_cnt c - 2)))
                  (value (residue_at c (residue_cnt c - 1))) = false.

(** The residue [c'] is what is left of the residue [c] after cycles were
    cut out below its last confirmed point: an even number of points is
    gone, the points below the last one of [c'] are the first points of [c],
    the last confirmed point is the last confirmed point of [c], and so is
    the interim point in BUSY_INTERIM. *)
Definition cut_from (c c' : rfc_ctx_s) : Prop :=
  (exists k, residue_cnt c = residue_cnt c' + 2 * k)%nat
  /\ (forall j, (j + 1 < residue_cnt c')%nat -> residue_at c' j = residue_at c j)
  /\ residue_at c' (residue_cnt c' - 1) = residue_at c (residue_cnt c - 1)
  /\ (state c = RFC_STATE_BUSY_INTERIM ->
      residue_at c' (residue_cnt c') = residue_at c (residue_cnt c))
  /\ ((residue_cnt c < 4)%nat -> c' = c).

(** Every tuple the counting may still read has the property [P]: the points
    of the residue with the interim point and, while the first turning point
    is sought, the two extrema.  Before the first turning point the residue
    is empty. *)
Definition tuples_hold (P : rfc_value_tuple_s -> Prop) (c : rfc_ctx_s) : Prop :=
  residue c <> None
  /\ (forall i, (i < chain_len c)%nat -> P (residue_at c i))
  /\ match state c with
     | RFC_STATE_INIT => residue_cnt c = 0%nat
     | RFC_STATE_BUSY =>
         residue_cnt c = 0%nat
         /\ P (Internal.extrema0 (internal c)) /\ P (Internal.extrema1 (internal c))
     | RFC_STATE_BUSY_INTERIM => True
     | _ => False
     end.

(** The tuple [t] is the sample of the stream at the position [pos t],
    counted from the position [p0] on, with the class of its value. *)
Definition sample_of (c : rfc_ctx_s) (p0 : Z) (stream : list RFC_value_type)
  (t : rfc_value_tuple_s) : Prop :=
  p0 < pos t <= p0 + Z.of_nat (length stream)
  /\ sample_at stream (pos t - p0) = Some (value t)
  /\ cls t = QUANTIZE c (value t).

(** The invariant of the stream: the tuples the counting reads are samples
    of the stream fed so far, and the position counter has counted them. *)
Definition stream_inv (c0 : rfc_ctx_s) (p0 : Z) (stream : list RFC_value_type)
  (c : rfc_ctx_s) : Prop :=
  tuples_hold (sample_of c0 p0 stream) c
  /\ Internal.pos (internal c) = p0 + Z.of_nat (length stream)
  /\ configuration c = configuration c0.

(** A context without classes at rest: the residue lives in the three
    embedded slots and holds one confirmed point at most, and the sinks are
    as [s0] has them. *)
Definition no_classes_inv (s0 : option (list Z) * R) (c : rfc_ctx_s) : Prop :=
  class_count c = 0
  /\ residue_buffer_length c = NUMEL_internal_residue
  /\ sinks c = s0
  /\ match state c with
     | RFC_STATE_INIT | RFC_STATE_BUSY => residue_cnt c = 0%nat
     | RFC_STATE_BUSY_INTERIM => residue_cnt c = 1%nat
     | _ => False
     end.

(** From [c] to [c'] every counter of the matrix has grown by a whole number
    of increments. *)
Definition counters_grow (c c' : rfc_ctx_s) : Prop :=
  parameters c' = parameters c
  /\ (0 < class_count c <= 512 -> 0 <= curr_inc c ->
      forall i, 0 <= i -> exists k, 0 <= k /\ rfm_at c' i = rfm_at c i + k * curr_inc c).

(** The damage of one full cycle counted in the cell [i] of the matrix, from
    class [i / class_count] to class [i mod class_count], per unit of the
    counter. *)
Definition cell_weight (c : rfc_ctx_s) (i : nat) : R :=
  (fst (RFC_damage_calc c (Z.of_nat i / class_count c) (Z.of_nat i mod class_count c))
   / IZR (full_inc c))%R.

(** The sum of the counters [m], the first of which is the cell [i], each
    weighted by [w]. *)
Fixpoint weighted_sum (w : nat -> R) (m : list Z) (i : nat) : R :=
  match m with
  | [] => 0%R
  | x :: m' => (IZR x * w i + weighted_sum w m' (S i))%R
  end.

(** The damage of all the cycles the matrix has counted. *)
Definition matrix_damage (c : rfc_ctx_s) : R :=
  match rfm c with
  | Some m => weighted_sum (cell_weight c) m 0
  | None => 0%R
  end.

(** The matrix has its [class_count * class_count] cells and accounts for
    the pseudo damage. *)
Definition damage_matches (c : rfc_ctx_s) : Prop :=
  (exists m, rfm c = Some m /\ length m = Z.to_nat (class_count c * class_count c))
  /\ pseudo_damage c = matrix_damage c.

(** Both sinks are enabled in the flags of the context. *)
Definition counts_both (c : rfc_ctx_s) : Prop :=
  Z.land (Internal.flags (internal c)) RFC_FLAGS_COUNT_RFM <> 0
  /\ Z.land (Internal.flags (internal c)) RFC_FLAGS_COUNT_DAMAGE <> 0.

Definition damage_follows (c c' : rfc_ctx_s) : Prop :=
  parameters c' = parameters c
  /\ (0 < class_count c <= 512 -> 0 < full_inc c -> counts_both c ->
      damage_matches c -> damage_matches c').



(** The loop of [calc_extema] over the samples behind the first one. *)
Fixpoint calc_extema_loop (data : list RFC_value_type) (x_min x_max : RFC_value_type)
  : RFC_value_type * RFC_value_type :=
  match data with
  | [] => (x_max, x_min)
  | x :: data' =>
      if Qlt_bool x_max x then calc_extema_loop data' x_min x
      else if Qlt_bool x x_min then calc_extema_loop data' x x_max
      else calc_extema_loop data' x_min x_max
  end.

(** [calc_extema( data, data_len, &data_max, &data_min )]: the pair
    [(data_max, data_min)] written, [None] where the function returns at once
    (no data) and leaves the outputs as they are. *)
Definition calc_extema (data : option (list RFC_value_type)) (data_len : nat)
  : option (RFC_value_type * RFC_value_type) :=
  match data with
  | None => None
  | Some buf =>
      if (data_len =? 0)%nat then None
      else
        let x0 := peek 0%Q buf 0 in
        Some (calc_extema_loop (firstn (data_len - 1) (skipn 1 buf)) x0 x0)
  end.

(** What [calc_class_param] does: it aborts, it writes parameters, or (one
    class, where the code divides by [class_count - 1 = 0]) it writes values
    that are not finite, which the rationals do not have. *)
Inductive calc_result : Type :=
| calc_abort
| calc_not_finite
| calc_params (class_width class_offset : RFC_value_type).

(** [calc_class_param( data_max, data_min, class_count, &class_width, &class_offset )] *)
Definition calc_class_param (data_max data_min : RFC_value_type) (class_count : Z)
  : calc_result :=
  if Qlt_bool data_max data_min then calc_abort
  else if class_count <? 1 then calc_params 1%Q 0%Q
  else if class_count - 1 =? 0 then calc_not_finite
  else
    let width := ((data_max - data_min) / inject_Z (class_count - 1))%Q in
    let width := (inject_Z (Qceiling (width * 100)) / 100)%Q in
    let offset := (inject_Z (Qfloor ((data_min - width / 2) * 1000)) / 1000)%Q in
    calc_params width offset.

(** [rfm_peek( rfc_ctx, from, to )] of the test suite: the counter of the
    cycles from the class of the value [from] to the class of the value
    [to].  The conversion to [int] truncates. *)
Definition rfm_peek (rfc_ctx : rfc_ctx_s) (from to : Z) : Z :=
  let trunc (x : Q) := Z.quot (Qnum x) (Z.pos (Qden x)) in
  let from := trunc ((inject_Z from - class_offset rfc_ctx) / class_width rfc_ctx)%Q in
  let to := trunc ((inject_Z to - class_offset rfc_ctx) / class_width rfc_ctx)%Q in
  rfm_at rfc_ctx ((from * class_count rfc_ctx + to) mod 2 ^ 32).

(** The value [v] lies inside the window of the classes of [c]. *)
Definition in_window (c : rfc_ctx_s) (v : RFC_value_type) : Prop :=
  (class_offset c <= v)%Q
  /\ (v < class_offset c + inject_Z (class_count c) * class_width c)%Q.

(** While the first turning point is sought the extrema are the smallest
    and the largest sample of the stream, no further apart than the
    hysteresis; before the first sample the stream is empty. *)
Definition seeking (stream : list RFC_value_type) (c : rfc_ctx_s) : Prop :=
  match state c with
  | RFC_STATE_INIT => stream = []
  | RFC_STATE_BUSY =>
      let lo := value (Internal.extrema0 (internal c)) in
      let hi := value (Internal.extrema1 (internal c)) in
      In lo stream /\ In hi stream
      /\ (forall x, In x stream -> (lo <= x <= hi)%Q)
      /\ (hi - lo <= hysteresis c)%Q
  | RFC_STATE_BUSY_INTERIM => stream <> []
  | _ => False
  end.

(** [CLASS_MEAN( r, c ) = (double)( (r)->class_width * (0.5 + (c)) + (r)->class_offset )] *)
Definition CLASS_MEAN (r : rfc_ctx_s) (c : Z) : RFC_value_type :=
  (class_width r * ((1 # 2) + inject_Z c) + class_offset r)%Q.

(** [CLASS_UPPER( r, c ) = (double)( (r)->class_width * (1.0 + (c)) + (r)->class_offset )] *)
Definition CLASS_UPPER (r : rfc_ctx_s) (c : Z) : RFC_value_type :=
  (class_width r * (1 + inject_Z c) + class_offset r)%Q.

(** The context takes samples, has classes and no cycle can be closed at the
    end of its confirmed residue. *)
Definition eager_inv (c : rfc_ctx_s) : Prop :=
  tuples_hold (fun _ => True) c /\ class_count c <> 0 /\ detector_exhausted c.

(** No write has gone beyond the capacity of the residue: the buffer has not
    grown behind its [residue_cap] slots.  A write beyond the capacity extends
    the buffer for good, so a run that ends in bounds has made no such write
    (see [in_bounds_all_along]), and on such a run the memory behind the buffer
    plays no part. *)
Definition residue_in_bounds (c : rfc_ctx_s) : Prop :=
  (residue_buffer_length c <= residue_cap c)%nat.

(** From [c] to [c'] the residue buffer has not shrunk and has kept its
    capacity. *)
Definition buffer_grows (c c' : rfc_ctx_s) : Prop :=
  (residue_buffer_length c <= residue_buffer_length c')%nat
  /\ residue_cap c' = residue_cap c.

(** * Properties *)

(** ** Buffers *)

Lemma peek_poke {A : Type} (zero : A) (buf : list A) (i j : nat) (v : A) :
  peek zero (poke zero buf i v) j = if (j =? i)%nat then v else peek zero buf j.
Proof.
  unfold peek. revert buf j.
  induction i as [|i IH]; intros buf j; destruct buf as [|x t], j as [|j]; cbn;
    try reflexivity; try apply IH.
  - now destruct j.
  - rewrite IH. destruct (j =? i)%nat; [reflexivity|now destruct j].
Qed.

Lemma length_poke {A : Type} (zero : A) (buf : list A) (i : nat) (v : A) :
  length (poke zero buf i v) = Nat.max (length buf) (S i).
Proof.
  revert buf. induction i as [|i IH]; intros [|x t]; cbn [poke length]; try rewrite IH; cbn; lia.
Qed.

(** ** Frame lemmas *)

Lemma untouched_residue_put c i v :
  untouched_by_counting (residue_put c i v) = untouched_by_counting c.
Proof. unfold residue_put. now destruct (residue c). Qed.

Lemma untouched_process_counts c from to next flags :
  untouched_by_counting (RFC_cycle_process_counts c from to next flags)
  = untouched_by_counting c.
Proof.
  unfold RFC_cycle_process_counts.
  repeat match goal with
         | |- context [if ?b then _ else _] => destruct b
         | |- context [match rfm ?x with _ => _ end] => destruct (rfm x)
         end; reflexivity.
Qed.

Lemma untouched_body c flags c' :
  cycle_find_4ptm_body c flags = Some c' ->
  untouched_by_counting c' = untouched_by_counting c.
Proof.
  unfold cycle_find_4ptm_body.
  destruct (Qlt_bool _ _), (Qlt_bool _ _); cbv zeta;
    (destruct (_ && _); [|discriminate]);
    intros [= <-];
    (destruct (state_eqb _ _);
     [ change (untouched_by_counting (set_residue_cnt ?x _)) with (untouched_by_counting x);
       rewrite !untouched_residue_put
     | change (untouched_by_counting (set_residue_cnt ?x _)) with (untouched_by_counting x);
       rewrite !untouched_residue_put ]);
    apply untouched_process_counts.
Qed.

Lemma untouched_cycle_find c flags :
  untouched_by_counting (RFC_cycle_find c flags) = untouched_by_counting c.
Proof.
  unfold RFC_cycle_find, RFC_cycle_find_4ptm.
  generalize (residue_cnt c) at 1. intros fuel. revert c.
  induction fuel as [|fuel IH]; intros c; cbn [cycle_find_4ptm_loop]; [reflexivity|].
  destruct (4 <=? residue_cnt c)%nat; [|reflexivity].
  destruct (cycle_find_4ptm_body c flags) as [c'|] eqn:E; [|reflexivity].
  rewrite IH. eapply untouched_body; eassumption.
Qed.

Lemma untouched_state c c' :
  untouched_by_counting c' = untouched_by_counting c ->
  state c' = state c /\ version_ok c' = version_ok c /\ internal c' = internal c.
Proof. unfold untouched_by_counting. intros [= -> -> _ _ _ _ _ _ _ _ _ _ _ _ _ ->]. auto. Qed.

Lemma untouched_remove_item c index count :
  untouched_by_counting (RFC_residue_remove_item c index count) = untouched_by_counting c.
Proof.
  unfold RFC_residue_remove_item.
  change (untouched_by_counting (set_residue_cnt ?x _)) with (untouched_by_counting x).
  generalize (seq 0 ((if state_eqb (state c) RFC_STATE_BUSY_INTERIM
                      then S (residue_cnt c) else residue_cnt c) - (index + count))).
  intros l. revert c. induction l as [|k l IH]; intros c; cbn [fold_left]; [reflexivity|].
  rewrite IH. apply untouched_residue_put.
Qed.

Ltac break_if :=
  match goal with
  | |- context [if ?b then _ else _] => destruct b eqn:?
  end.

Lemma accepted_filter c pt :
  state_accepted (state c) = true ->
  state_accepted (state (fst (RFC_feed_filter_pt c pt))) = true.
Proof.
  unfold RFC_feed_filter_pt, residue_put, with_internal.
  destruct (state c) eqn:E; cbn; try discriminate; intros _.
  all: repeat break_if; cbn; rewrite ?E; try reflexivity.
  all: repeat match goal with |- context [match residue ?x with _ => _ end] => destruct (residue x) end; cbn; rewrite ?E; reflexivity.
Qed.

Lemma untouched_configuration c c' :
  untouched_by_counting c' = untouched_by_counting c ->
  configuration c' = configuration c.
Proof.
  unfold untouched_by_counting, configuration.
  intros [= -> _ -> -> -> -> -> -> -> -> -> -> -> -> -> ->]. reflexivity.
Qed.

Lemma residue_cnt_residue_put c i v : residue_cnt (residue_put c i v) = residue_cnt c.
Proof. unfold residue_put. now destruct (residue c). Qed.

Lemma residue_residue_put c i v :
  residue (residue_put c i v) = option_map (fun buf => poke nil buf i v) (residue c).
Proof. unfold residue_put. destruct (residue c) eqn:E; [reflexivity|exact E]. Qed.

Lemma residue_at_residue_put c i v j :
  residue c <> None ->
  residue_at (residue_put c i v) j = if (j =? i)%nat then v else residue_at c j.
Proof.
  unfold residue_at, residue_put. destruct (residue c) as [buf|]; [intros _|intros H; now contradiction H].
  cbn. apply peek_poke.
Qed.

(** The filter, branch by branch. *)
Lemma filter_unfold c pt :
  RFC_feed_filter_pt c pt =
  if state_lt (state c) RFC_STATE_BUSY_INTERIM then
    if state_eqb (state c) RFC_STATE_INIT then (filter_first c pt, None)
    else if Qlt_bool (value pt) (value (Internal.extrema0 (internal c))) then
      let c1 := with_internal c (fun i => Internal.set_extrema0 i pt) in
      if Qlt_bool (hysteresis c)
                  (Qabs (value (Internal.extrema1 (internal c)) - value pt))
      then (filter_append (filter_emit_first c1 1) pt, Some (residue_cnt c))
      else (c1, None)
    else if Qlt_bool (value (Internal.extrema1 (internal c))) (value pt) then
      let c1 := with_internal c (fun i => Internal.set_extrema1 i pt) in
      if Qlt_bool (hysteresis c)
                  (Qabs (value pt - value (Internal.extrema0 (internal c))))
      then (filter_append (filter_emit_first c1 0) pt, Some (residue_cnt c))
      else (c1, None)
    else (c, None)
  else
    let interim := residue_at c (residue_cnt c) in
    let delta := (value pt - value interim)%Q in
    let sign := if Qlt_bool delta 0 then -1 else 1 in
    if sign =? Internal.slope (internal c) then
      if negb (Qeq_bool (value interim) (value pt))
      then (residue_put c (residue_cnt c) pt, None)
      else (c, None)
    else if Qlt_bool (hysteresis c) (Qabs delta) then
      (filter_append (with_internal c (fun i => Internal.set_slope i sign)) pt,
       Some (residue_cnt c))
    else (c, None).
Proof.
  unfold RFC_feed_filter_pt, value_delta.
  destruct (state_lt (state c) RFC_STATE_BUSY_INTERIM).
  - destruct (state_eqb (state c) RFC_STATE_INIT); [reflexivity|].
    destruct (Qlt_bool (value pt) (value (Internal.extrema0 (internal c)))).
    + cbn [fst snd with_internal internal set_internal Internal.extrema0 Internal.extrema1
             Internal.set_extrema0 hysteresis value Z.leb andb Z.compare].
      destruct (Qlt_bool (hysteresis c) _); [|reflexivity].
      unfold filter_append, filter_emit_first. cbn [residue_cnt set_state with_internal set_internal].
      rewrite !residue_cnt_residue_put. cbn. rewrite Nat.sub_0_r. reflexivity.
    + destruct (Qlt_bool (value (Internal.extrema1 (internal c))) (value pt)).
      * cbn [fst snd with_internal internal set_internal Internal.extrema0 Internal.extrema1
               Internal.set_extrema1 hysteresis value Z.leb andb Z.compare].
        destruct (Qlt_bool (hysteresis c) _); [|reflexivity].
        unfold filter_append, filter_emit_first.
        cbn [residue_cnt set_state with_internal set_internal].
        rewrite !residue_cnt_residue_put. cbn. rewrite Nat.sub_0_r. reflexivity.
      * reflexivity.
  - cbv zeta.
    destruct (_ =? Internal.slope (internal c)).
    + destruct (negb _); reflexivity.
    + destruct (Qlt_bool (hysteresis c) _); [|reflexivity].
      unfold filter_append. cbn [residue_cnt set_state with_internal set_internal].
      rewrite !residue_cnt_residue_put. cbn. rewrite Nat.sub_0_r. reflexivity.
Qed.

Lemma configuration_residue_put c i v :
  configuration (residue_put c i v) = configuration c.
Proof. apply untouched_configuration, untouched_residue_put. Qed.

(** A write into the residue touches the buffer only. *)
Lemma residue_put_eq c i v :
  residue_put c i v = set_residue c (option_map (fun buf => poke nil buf i v) (residue c)).
Proof.
  unfold residue_put. destruct (residue c) eqn:E; [reflexivity|].
  destruct c; cbn in *; now subst.
Qed.

Lemma configuration_filter c pt :
  configuration (fst (RFC_feed_filter_pt c pt)) = configuration c.
Proof.
  rewrite filter_unfold. cbv zeta.
  repeat break_if; cbn [fst];
    unfold filter_append, filter_emit_first, filter_first;
    rewrite ?residue_put_eq; reflexivity.
Qed.

Lemma fst_feed_once c pt flags : fst (RFC_feed_once c pt flags) = true.
Proof.
  unfold RFC_feed_once. destruct (RFC_feed_filter_pt c pt) as [c' [i|]]; [|reflexivity].
  repeat break_if; reflexivity.
Qed.

(** [RFC_feed_once] after the filter: the counting that follows a new
    turning point. *)
Lemma feed_once_cases c pt flags :
  let c' := fst (RFC_feed_filter_pt c pt) in
  snd (RFC_feed_once c pt flags) = c'
  \/ snd (RFC_feed_once c pt flags) = RFC_cycle_find c' flags
  \/ snd (RFC_feed_once c pt flags) = RFC_residue_remove_item c' 0 1.
Proof.
  unfold RFC_feed_once. destruct (RFC_feed_filter_pt c pt) as [c' [i|]]; cbn; [|auto].
  repeat break_if; cbn; auto.
Qed.

Lemma untouched_feed_once c pt flags :
  untouched_by_counting (snd (RFC_feed_once c pt flags))
  = untouched_by_counting (fst (RFC_feed_filter_pt c pt)).
Proof.
  destruct (feed_once_cases c pt flags) as [-> | [-> | ->]];
    auto using untouched_cycle_find, untouched_remove_item.
Qed.

Lemma configuration_feed_once c pt flags :
  configuration (snd (RFC_feed_once c pt flags)) = configuration c.
Proof.
  rewrite (untouched_configuration _ _ (untouched_feed_once c pt flags)).
  apply configuration_filter.
Qed.

Lemma accepted_feed_once c pt flags :
  state_accepted (state c) = true ->
  state_accepted (state (snd (RFC_feed_once c pt flags))) = true.
Proof.
  intros H. destruct (untouched_state _ _ (untouched_feed_once c pt flags)) as [-> _].
  now apply accepted_filter.
Qed.

Lemma configuration_version_ok c c' :
  configuration c' = configuration c -> version_ok c' = version_ok c.
Proof. unfold configuration. now intros [= -> _]. Qed.

(** The loop of [RFC_feed] never stops early, keeps the configuration and
    stays in a state that accepts further calls. *)
Lemma feed_loop_facts data : forall c,
  fst (RFC_feed_loop c data) = true
  /\ configuration (snd (RFC_feed_loop c data)) = configuration c
  /\ (state_accepted (state c) = true ->
      state_accepted (state (snd (RFC_feed_loop c data))) = true).
Proof.
  induction data as [|v data IH]; intros c; cbn [RFC_feed_loop]; [auto|].
  set (c1 := with_internal c _).
  set (tp := {| value := v; cls := _; pos := _ |}).
  pose proof (fst_feed_once c1 tp (Internal.flags (internal c1))) as Hok.
  pose proof (configuration_feed_once c1 tp (Internal.flags (internal c1))) as Hcfg.
  pose proof (accepted_feed_once c1 tp (Internal.flags (internal c1))) as Hacc.
  destruct (RFC_feed_once c1 tp (Internal.flags (internal c1))) as [ok c2].
  cbn [fst snd] in *. subst ok.
  destruct (IH c2) as (H1 & H2 & H3). repeat split; auto.
  now rewrite H2, Hcfg.
Qed.

Lemma feed_loop_app a : forall b c,
  RFC_feed_loop c (a ++ b) = RFC_feed_loop (snd (RFC_feed_loop c a)) b.
Proof.
  induction a as [|v a IH]; intros b c; cbn [RFC_feed_loop app snd]; [reflexivity|].
  set (c1 := with_internal c _).
  set (tp := {| value := v; cls := _; pos := _ |}).
  pose proof (fst_feed_once c1 tp (Internal.flags (internal c1))) as Hok.
  destruct (RFC_feed_once c1 tp (Internal.flags (internal c1))) as [ok c2].
  cbn [fst] in Hok. subst ok. apply IH.
Qed.

Lemma feed_unfold c data :
  feed c data =
  if negb (version_ok c) then (false, set_error c RFC_ERROR_INVARG)
  else if negb (state_accepted (state c)) then (false, c)
  else RFC_feed_loop c data.
Proof.
  unfold feed, RFC_feed, state_accepted. rewrite firstn_all.
  rewrite andb_false_r, negb_involutive. reflexivity.
Qed.

(** C1.  Feeding is streaming-equivalent.  A call [RFC_feed(a)] followed by
    [RFC_feed(b)] returns the same success value and leaves the same context
    (rainflow matrix, pseudo damage, residue and all the rest) as the single
    call [RFC_feed(a ++ b)]; and for every partition of a sequence into
    chunks, feeding chunk by chunk yields the same rainflow matrix, pseudo
    damage and residue as feeding the concatenation in one call. *)
Theorem feed_streaming_equivalence :
  (forall c a b, feed (snd (feed c a)) b = feed c (a ++ b))
  /\ (forall c chunks,
        counting_result (feed_chunks c chunks)
        = counting_result (snd (feed c (concat chunks)))).
Proof.
  assert (two : forall c a b, feed (snd (feed c a)) b = feed c (a ++ b)).
  { intros c a b. rewrite !feed_unfold.
    destruct (version_ok c) eqn:Hv; cbn [negb]; [|cbn; now rewrite Hv].
    destruct (state_accepted (state c)) eqn:Hs; cbn [negb snd]; [|now rewrite Hv, Hs].
    destruct (feed_loop_facts a c) as (_ & Hcfg & Hacc).
    rewrite (configuration_version_ok _ _ Hcfg), Hv, (Hacc Hs). cbn [negb].
    symmetry. apply feed_loop_app. }
  split; [exact two|].
  intros c chunks. revert c.
  induction chunks as [|a chunks IH]; intros c; cbn [feed_chunks fold_left concat].
  - rewrite feed_unfold. repeat break_if; reflexivity.
  - fold (feed_chunks (snd (feed c a)) chunks). rewrite IH, two. reflexivity.
Qed.

(** ** The four-point detector *)

Lemma Qlt_bool_iff x y : Qlt_bool x y = true <-> (x < y)%Q.
Proof.
  unfold Qlt_bool. rewrite negb_true_iff, <- not_true_iff_false, Qle_bool_iff.
  split; [apply Qnot_le_lt|apply Qlt_not_le].
Qed.

Lemma Qlt_bool_false x y : Qlt_bool x y = false <-> (y <= x)%Q.
Proof. unfold Qlt_bool. rewrite negb_false_iff. apply Qle_bool_iff. Qed.

Lemma Qle_bool_false x y : Qle_bool x y = false <-> (y < x)%Q.
Proof.
  rewrite <- not_true_iff_false, Qle_bool_iff.
  split; [apply Qnot_le_lt|apply Qlt_not_le].
Qed.

Lemma swap_test_is_containment A B C D :
  (let '(B', C') := if Qlt_bool C B then (C, B) else (B, C) in
   let '(A', D') := if Qlt_bool D A then (D, A) else (A, D) in
   Qle_bool A' B' && Qle_bool C' D') = closed_cycle A B C D.
Proof.
  unfold closed_cycle. apply eq_iff_eq_true.
  destruct (Q.min_spec A D) as [[? Ea]|[? Ea]], (Q.min_spec B C) as [[? Eb]|[? Eb]],
           (Q.max_spec A D) as [[? Ec]|[? Ec]], (Q.max_spec B C) as [[? Ed]|[? Ed]];
    destruct (Qlt_bool C B) eqn:E1, (Qlt_bool D A) eqn:E2;
    rewrite ?Qlt_bool_iff, ?Qlt_bool_false in E1;
    rewrite ?Qlt_bool_iff, ?Qlt_bool_false in E2;
    rewrite !andb_true_iff, !Qle_bool_iff, Ea, Eb, Ec, Ed;
    (split; intros [? ?]; split; Lqa.lra).
Qed.

Lemma residue_part_process_counts c from to next flags :
  residue_part (RFC_cycle_process_counts c from to next flags) = residue_part c.
Proof.
  unfold RFC_cycle_process_counts.
  repeat match goal with
         | |- context [if ?b then _ else _] => destruct b
         | |- context [match rfm ?x with _ => _ end] => destruct (rfm x)
         end; reflexivity.
Qed.

Lemma residue_at_ext c c' i : residue c' = residue c -> residue_at c' i = residue_at c i.
Proof. unfold residue_at. now intros ->. Qed.

Lemma residue_at_residue_put_other c i v j :
  j <> i -> residue_at (residue_put c i v) j = residue_at c j.
Proof.
  intros Hne. unfold residue_at, residue_put. destruct (residue c) as [buf|] eqn:E; cbn.
  - rewrite peek_poke. now destruct (Nat.eqb_spec j i).
  - now rewrite E.
Qed.

Lemma body_is_close_cycle c flags :
  (4 <= residue_cnt c)%nat ->
  cycle_find_4ptm_body c flags =
  let n := residue_cnt c in
  if closed_cycle (value (residue_at c (n - 4))) (value (residue_at c (n - 3)))
                  (value (residue_at c (n - 2))) (value (residue_at c (n - 1)))
  then Some (close_cycle_spec c flags) else None.
Proof.
  intros Hn. unfold cycle_find_4ptm_body. cbv zeta.
  replace (residue_cnt c - 4 + 0)%nat with (residue_cnt c - 4)%nat by lia.
  replace (residue_cnt c - 4 + 1)%nat with (residue_cnt c - 3)%nat by lia.
  replace (residue_cnt c - 4 + 2)%nat with (residue_cnt c - 2)%nat by lia.
  replace (residue_cnt c - 4 + 3)%nat with (residue_cnt c - 1)%nat by lia.
  replace (residue_cnt c - 4 + 4)%nat with (residue_cnt c) by lia.
  rewrite <- swap_test_is_containment.
  destruct (Qlt_bool _ _), (Qlt_bool _ _); cbv zeta;
    (destruct (_ && _); [|reflexivity]); f_equal; unfold close_cycle_spec; cbv zeta.
  all: set (c1 := RFC_cycle_process_counts c _ _ _ flags).
  all: pose proof (residue_part_process_counts c (residue_at c (residue_cnt c - 3))
         (residue_at c (residue_cnt c - 2)) (residue_at c (residue_cnt c - 1)) flags) as HR;
       fold c1 in HR; unfold residue_part in HR; injection HR as HR1 HR2.
  all: rewrite (residue_at_ext c c1 _ HR1).
  all: destruct (state_eqb (state (residue_put c1 _ _)) RFC_STATE_BUSY_INTERIM);
       rewrite ?residue_cnt_residue_put, ?HR2; try reflexivity.
  all: rewrite residue_at_residue_put_other by lia.
  all: now rewrite (residue_at_ext c c1 _ HR1).
Qed.

Lemma residue_cnt_close_cycle c flags :
  residue_cnt (close_cycle_spec c flags) = (residue_cnt c - 2)%nat.
Proof. reflexivity. Qed.

Lemma loop_fuel_irrelevant flags fuel : forall fuel' c,
  (residue_cnt c <= fuel)%nat -> (residue_cnt c <= fuel')%nat ->
  cycle_find_4ptm_loop fuel c flags = cycle_find_4ptm_loop fuel' c flags.
Proof.
  induction fuel as [|fuel IH]; intros [|fuel'] c H H'; cbn [cycle_find_4ptm_loop];
    try reflexivity.
  - destruct (Nat.leb_spec 4 (residue_cnt c)); [lia|reflexivity].
  - destruct (Nat.leb_spec 4 (residue_cnt c)); [lia|reflexivity].
  - destruct (Nat.leb_spec 4 (residue_cnt c)) as [Hn|]; [|reflexivity].
    rewrite (body_is_close_cycle c flags Hn). cbv zeta.
    destruct (closed_cycle _ _ _ _); [|reflexivity].
    apply IH; rewrite residue_cnt_close_cycle; lia.
Qed.

(** C2.  The four-point detector.  While the confirmed residue length [n] is
    at least 4 the detector takes the last four confirmed points
    [A = R[n-4]], [B = R[n-3]], [C = R[n-2]], [D = R[n-1]] and closes
    [(B, C)] exactly when [min(B,C) >= min(A,D)] and [max(B,C) <= max(A,D)]
    (equalities included); it then counts [(B, C)], moves [R[n-1]] to
    [R[n-3]] (and the interim [R[n]] to [R[n-2]] in [BUSY_INTERIM]),
    decreases [n] by 2 and goes on; with fewer than four points, or the first
    time the rule fails, it stops and leaves the context as it is. *)
Theorem four_point_detector c flags :
  let n := residue_cnt c in
  let A := residue_at c (n - 4) in
  let B := residue_at c (n - 3) in
  let C := residue_at c (n - 2) in
  let D := residue_at c (n - 1) in
  let c' := close_cycle_spec c flags in
  RFC_cycle_find_4ptm c flags =
    (if (4 <=? n)%nat && closed_cycle (value A) (value B) (value C) (value D)
     then RFC_cycle_find_4ptm c' flags
     else c)
  /\ (residue c <> None -> (4 <= n)%nat ->
      residue_cnt c' = (n - 2)%nat
      /\ (forall j, (j < n - 3)%nat -> residue_at c' j = residue_at c j)
      /\ residue_at c' (n - 3) = D
      /\ (state c = RFC_STATE_BUSY_INTERIM -> residue_at c' (n - 2) = residue_at c n)
      /\ (rfm c', pseudo_damage c')
         = (rfm (RFC_cycle_process_counts c B C D flags),
            pseudo_damage (RFC_cycle_process_counts c B C D flags))).
Proof.
  cbv zeta. split.
  - unfold RFC_cycle_find_4ptm at 1.
    destruct (residue_cnt c) as [|fuel] eqn:En; [reflexivity|].
    cbn [cycle_find_4ptm_loop]. rewrite En.
    destruct (Nat.leb_spec 4 (S fuel)) as [Hn|]; [|reflexivity].
    rewrite (body_is_close_cycle c flags) by lia. cbv zeta. rewrite En.
    cbn [andb]. destruct (closed_cycle _ _ _ _); [|reflexivity].
    apply loop_fuel_irrelevant; rewrite residue_cnt_close_cycle; lia.
  - intros Hres Hn. unfold close_cycle_spec. cbv zeta.
    set (c1 := RFC_cycle_process_counts c _ _ _ flags).
    pose proof (residue_part_process_counts c (residue_at c (residue_cnt c - 3))
         (residue_at c (residue_cnt c - 2)) (residue_at c (residue_cnt c - 1)) flags) as HR;
       fold c1 in HR; unfold residue_part in HR; injection HR as HR1 HR2.
    pose proof (untouched_state _ _ (untouched_process_counts c (residue_at c (residue_cnt c - 3))
         (residue_at c (residue_cnt c - 2)) (residue_at c (residue_cnt c - 1)) flags)) as [Hst _].
    fold c1 in Hst.
    assert (Hres1 : residue c1 <> None) by now rewrite HR1.
    rewrite !residue_put_eq. cbn [state set_residue].
    rewrite Hst.
    split; [reflexivity|].
    destruct (state c) eqn:Es; cbn [state_eqb state_rank Z.eqb Pos.eqb].
    all: rewrite <- !residue_put_eq.
    all: repeat split; try discriminate.
    all: try (rewrite ?residue_put_eq; reflexivity).
    all: try (intros j Hj).
    all: change (residue_at (set_residue_cnt ?x ?k) ?i) with (residue_at x i).
    all: rewrite ?residue_at_residue_put, ?residue_residue_put by
           (rewrite ?residue_residue_put; destruct (residue c1); [discriminate|congruence]).
    all: repeat match goal with
         | |- context [(?a =? ?b)%nat] => destruct (Nat.eqb_spec a b); try lia
         end.
    all: try apply residue_at_ext; auto.
Qed.

Lemma four_point_detector_witness :
  residue ctx_before_closing <> None
  /\ (4 <= residue_cnt ctx_before_closing)%nat
  /\ RFC_cycle_find_4ptm ctx_before_closing RFC_FLAGS_DEFAULT
     = RFC_cycle_find_4ptm (close_cycle_spec ctx_before_closing RFC_FLAGS_DEFAULT)
                           RFC_FLAGS_DEFAULT
  /\ residue_cnt (close_cycle_spec ctx_before_closing RFC_FLAGS_DEFAULT)
     = (residue_cnt ctx_before_closing - 2)%nat.
Proof.
  assert (Hres : residue ctx_before_closing <> None) by (vm_compute; discriminate).
  assert (Hn : (4 <= residue_cnt ctx_before_closing)%nat) by (vm_compute; lia).
  destruct (four_point_detector ctx_before_closing RFC_FLAGS_DEFAULT) as [Hloop Hstep].
  destruct (Hstep Hres Hn) as (Hcnt & _).
  split; [exact Hres|]. split; [exact Hn|]. split; [|exact Hcnt].
  rewrite Hloop.
  match goal with
  | |- (if ?b then _ else _) = _ => replace b with true by (vm_compute; reflexivity)
  end.
  reflexivity.
Defined.

(** ** Lifting a property of one count to the public calls *)

Lemma configuration_parameters c c' :
  configuration c' = configuration c -> parameters c' = parameters c.
Proof.
  unfold configuration, parameters. intros [= _ _ _ -> -> -> -> -> -> -> -> -> -> _ ->].
  reflexivity.
Qed.

Lemma sinks_filter c pt : sinks (fst (RFC_feed_filter_pt c pt)) = sinks c.
Proof.
  rewrite filter_unfold. cbv zeta.
  repeat break_if; cbn [fst];
    unfold filter_append, filter_emit_first, filter_first;
    rewrite ?residue_put_eq; reflexivity.
Qed.

Lemma remove_item_frame c index count :
  configuration (RFC_residue_remove_item c index count) = configuration c
  /\ sinks (RFC_residue_remove_item c index count) = sinks c.
Proof.
  split; [apply untouched_configuration, untouched_remove_item|].
  unfold RFC_residue_remove_item.
  change (sinks (set_residue_cnt ?x _)) with (sinks x).
  generalize (seq 0 ((if state_eqb (state c) RFC_STATE_BUSY_INTERIM
                      then S (residue_cnt c) else residue_cnt c) - (index + count))).
  intros l. revert c. induction l as [|k l IH]; intros c; cbn [fold_left]; [reflexivity|].
  rewrite IH, residue_put_eq. reflexivity.
Qed.

Section Lifting.

Variable R : rfc_ctx_s -> rfc_ctx_s -> Prop.

Hypothesis R_trans : forall a b c, R a b -> R b c -> R a c.

Hypothesis R_frame :
  forall c c', parameters c' = parameters c -> sinks c' = sinks c -> R c c'.

Hypothesis R_counts :
  forall c from to next flags, R c (RFC_cycle_process_counts c from to next flags).

Lemma lift_close_cycle c flags : R c (close_cycle_spec c flags).
Proof.
  unfold close_cycle_spec. cbv zeta.
  eapply R_trans; [apply R_counts|].
  apply R_frame; rewrite !residue_put_eq; cbn [state set_residue];
    destruct (state_eqb _ _); rewrite ?residue_put_eq; reflexivity.
Qed.

Lemma lift_cycle_find c flags : R c (RFC_cycle_find c flags).
Proof.
  unfold RFC_cycle_find, RFC_cycle_find_4ptm.
  generalize (residue_cnt c) at 1. intros fuel. revert c.
  induction fuel as [|fuel IH]; intros c; cbn [cycle_find_4ptm_loop];
    [now apply R_frame|].
  destruct (Nat.leb_spec 4 (residue_cnt c)) as [Hn|]; [|now apply R_frame].
  rewrite (body_is_close_cycle c flags Hn). cbv zeta.
  destruct (closed_cycle _ _ _ _); [|now apply R_frame].
  eapply R_trans; [apply lift_close_cycle|apply IH].
Qed.

Lemma lift_feed_once c pt flags : R c (snd (RFC_feed_once c pt flags)).
Proof.
  assert (Hf : R c (fst (RFC_feed_filter_pt c pt))).
  { apply R_frame; [apply configuration_parameters, configuration_filter|apply sinks_filter]. }
  destruct (feed_once_cases c pt flags) as [-> | [-> | ->]]; [exact Hf| |].
  - eapply R_trans; [exact Hf|apply lift_cycle_find].
  - eapply R_trans; [exact Hf|].
    destruct (remove_item_frame (fst (RFC_feed_filter_pt c pt)) 0 1).
    apply R_frame; [now apply configuration_parameters|assumption].
Qed.

Lemma lift_feed_loop data : forall c, R c (snd (RFC_feed_loop c data)).
Proof.
  induction data as [|v data IH]; intros c; cbn [RFC_feed_loop]; [now apply R_frame|].
  set (c1 := with_internal c _).
  set (tp := {| value := v; cls := _; pos := _ |}).
  pose proof (fst_feed_once c1 tp (Internal.flags (internal c1))) as Hok.
  pose proof (lift_feed_once c1 tp (Internal.flags (internal c1))) as Hstep.
  destruct (RFC_feed_once c1 tp (Internal.flags (internal c1))) as [ok c2].
  cbn [fst snd] in *. subst ok.
  eapply R_trans; [|apply IH].
  eapply R_trans; [|exact Hstep].
  now apply R_frame.
Qed.

Lemma lift_feed c data data_count : R c (snd (RFC_feed c data data_count)).
Proof.
  unfold RFC_feed. repeat break_if; try now apply R_frame.
  apply lift_feed_loop.
Qed.

Lemma lift_finalize c residual_method : R c (snd (RFC_finalize c residual_method)).
Proof.
  unfold RFC_finalize. repeat break_if; try now apply R_frame.
  assert (Hfin : R c (snd (RFC_feed_finalize c))).
  { unfold RFC_feed_finalize. repeat break_if; cbn [snd]; try now apply R_frame.
    eapply (R_trans _ (RFC_cycle_find _ _)); [|now apply R_frame].
    eapply R_trans; [|apply lift_cycle_find].
    now apply R_frame. }
  destruct residual_method as [| |code]; unfold RFC_finalize_res_ignore.
  1, 2: destruct (RFC_feed_finalize c) as [ok c1]; cbn [snd] in *;
        (eapply R_trans; [exact Hfin|]);
        destruct (class_count c1 =? 0); now apply R_frame.
  cbn [snd]. destruct (class_count _ =? 0); now apply R_frame.
Qed.

End Lifting.

(** ** Counter sinks *)

Lemma to_unsigned_range x : 0 <= to_unsigned x < 2 ^ 32.
Proof. unfold to_unsigned. apply Z.mod_pos_bound. reflexivity. Qed.

Lemma clamp_is_min cc q :
  0 < cc <= 512 -> 0 <= q ->
  (if cc <=? q then (cc - 1) mod 2 ^ 32 else q) = Z.min q (cc - 1).
Proof.
  intros Hcc Hq. destruct (Z.leb_spec cc q).
  - rewrite Z.mod_small by lia. lia.
  - lia.
Qed.

Lemma to_int_small u : 0 <= u < 2 ^ 31 -> to_int u = u.
Proof. intros H. unfold to_int. destruct (Z.ltb_spec u (2 ^ 31)); lia. Qed.

Lemma Q2R_pos q : (0 < q)%Q -> (0 < Q2R q)%R.
Proof. intros H. replace 0%R with (Q2R 0) by (unfold Q2R; cbn; Lra.lra). now apply Qlt_Rlt. Qed.

Lemma amplitude_pos c cf ct :
  (0 < class_width c)%Q -> cf <> ct -> (0 < cycle_amplitude c cf ct)%R.
Proof.
  intros Hw Hne. unfold cycle_amplitude.
  apply Q2R_pos in Hw.
  assert (0 < IZR (Z.abs (ct - cf)))%R by (apply IZR_lt; lia).
  assert (0 < Q2R (class_width c) * IZR (Z.abs (ct - cf)))%R by now apply Rmult_lt_0_compat.
  Lra.lra.
Qed.

(** The logarithmic form computes [(Sa/SD)^|k| / ND]. *)
Lemma woehler_log_form c Sa :
  (0 < Sa)%R -> (0 < wl_sd c)%R -> (0 < wl_nd c)%R ->
  woehler_damage_log c Sa = woehler_damage c Sa.
Proof.
  intros HSa HSD HND. unfold woehler_damage_log, woehler_damage, Rpower, Rdiv.
  rewrite ln_mult by (try apply Rinv_0_lt_compat; assumption).
  rewrite ln_Rinv by assumption.
  unfold Rminus. rewrite exp_plus, exp_Ropp, exp_ln by assumption.
  reflexivity.
Qed.

Lemma damage_calc_amplitude_log c Sa :
  (0 < Sa)%R -> RFC_damage_calc_amplitude c Sa = woehler_damage_log c Sa.
Proof.
  intros HSa. unfold RFC_damage_calc_amplitude, woehler_damage_log.
  destruct (Rle_dec 0 Sa); [|Lra.lra].
  destruct (Req_dec_T Sa 0); [Lra.lra|reflexivity].
Qed.

Lemma counted_class_range c v :
  0 < class_count c -> 0 <= counted_class c v < class_count c.
Proof.
  intros H. unfold counted_class, QUANTIZE.
  pose proof (to_unsigned_range ((v - class_offset c) / class_width c)). lia.
Qed.

(** [RFC_cycle_process_counts] on a context with classes. *)
Lemma process_counts_effect c from to next flags :
  0 < class_count c <= 512 ->
  let cf := counted_class c (value from) in
  let ct := counted_class c (value to) in
  let idx := Z.to_nat (class_count c * cf + ct) in
  RFC_cycle_process_counts c from to next flags =
  if cf =? ct then c
  else
    let c1 :=
      if damage_sink_enabled flags then
        set_pseudo_damage c
          (pseudo_damage c
           + RFC_damage_calc_amplitude c (cycle_amplitude c cf ct)
             / IZR (full_inc c) * IZR (curr_inc c))%R
      else c in
    match rfm c with
    | Some m =>
        if negb (Z.land flags RFC_FLAGS_COUNT_RFM =? 0)
        then set_rfm c1 (Some (poke 0 m idx (peek 0 m idx + curr_inc c)))
        else c1
    | None => c1
    end.
Proof.
  intros Hcc. cbv zeta. unfold RFC_cycle_process_counts.
  pose proof (counted_class_range c (value from) ltac:(lia)) as Hf.
  pose proof (counted_class_range c (value to) ltac:(lia)) as Ht.
  unfold counted_class in *.
  pose proof (to_unsigned_range ((value from - class_offset c) / class_width c)) as Hqf.
  pose proof (to_unsigned_range ((value to - class_offset c) / class_width c)) as Hqt.
  fold (QUANTIZE c (value from)) in Hqf. fold (QUANTIZE c (value to)) in Hqt.
  rewrite !clamp_is_min by lia.
  set (cf := Z.min (QUANTIZE c (value from)) (class_count c - 1)) in *.
  set (ct := Z.min (QUANTIZE c (value to)) (class_count c - 1)) in *.
  destruct (cf =? ct) eqn:E; cbn [negb]; [reflexivity|].
  unfold damage_sink_enabled, RFC_damage_calc. rewrite E. cbn [negb fst].
  rewrite !to_int_small by lia. fold (cycle_amplitude c cf ct).
  destruct (negb (Z.land flags RFC_FLAGS_COUNT_DAMAGE =? 0));
    cbn [rfm class_count curr_inc set_pseudo_damage];
    rewrite (Z.mod_small (class_count c * cf + ct)) by nia; reflexivity.
Qed.

Lemma diagonal_index cc i cf ct :
  0 <= i < cc -> 0 <= cf < cc -> 0 <= ct < cc ->
  i * cc + i = cc * cf + ct -> cf = ct.
Proof. intros Hi Hf Ht H. assert (i = cf) by nia. nia. Qed.

Lemma rfm_process_counts c from to next flags :
  0 < class_count c <= 512 ->
  let cf := counted_class c (value from) in
  let ct := counted_class c (value to) in
  forall i, 0 <= i ->
    rfm_at (RFC_cycle_process_counts c from to next flags) i =
      if negb (cf =? ct) && rfm_sink_enabled c flags && (i =? cf * class_count c + ct)
      then rfm_at c i + curr_inc c
      else rfm_at c i.
Proof.
  intros Hcc cf ct i Hi.
  pose proof (counted_class_range c (value from) ltac:(lia)) as Hf.
  pose proof (counted_class_range c (value to) ltac:(lia)) as Ht.
  rewrite (process_counts_effect c from to next flags Hcc). cbv zeta.
  fold cf ct. destruct (cf =? ct); cbn [negb andb]; [reflexivity|].
  unfold rfm_sink_enabled, rfm_at.
  destruct (rfm c) as [m|] eqn:Em.
  - destruct (negb (Z.land flags RFC_FLAGS_COUNT_RFM =? 0)); cbn [andb].
    + destruct (damage_sink_enabled flags); cbn [rfm set_rfm]; rewrite peek_poke;
        replace (cf * class_count c + ct) with (class_count c * cf + ct) by lia;
        (destruct (Z.eqb_spec i (class_count c * cf + ct)) as [->|Hd];
         [now rewrite Nat.eqb_refl|]);
        (destruct (Nat.eqb_spec (Z.to_nat i) (Z.to_nat (class_count c * cf + ct)));
         [exfalso; apply Hd; apply Z2Nat.inj; [lia|nia|assumption]|reflexivity]).
    + destruct (damage_sink_enabled flags); cbn [rfm set_pseudo_damage]; now rewrite Em.
  - destruct (damage_sink_enabled flags); cbn [rfm set_pseudo_damage]; now rewrite Em.
Qed.

Lemma diagonal_process_counts c from to next flags i :
  0 < class_count c <= 512 -> 0 <= i < class_count c ->
  rfm_at (RFC_cycle_process_counts c from to next flags) (i * class_count c + i)
  = rfm_at c (i * class_count c + i).
Proof.
  intros Hcc Hi.
  pose proof (counted_class_range c (value from) ltac:(lia)) as Hf.
  pose proof (counted_class_range c (value to) ltac:(lia)) as Ht.
  rewrite rfm_process_counts by nia.
  destruct (Z.eqb_spec (counted_class c (value from)) (counted_class c (value to)))
    as [|Hne]; [reflexivity|].
  destruct (Z.eqb_spec (i * class_count c + i)
              (counted_class c (value from) * class_count c + counted_class c (value to)))
    as [E|]; [|now rewrite andb_false_r].
  exfalso. apply Hne. apply (diagonal_index (class_count c) i); lia.
Qed.

Lemma parameters_process_counts c from to next flags :
  parameters (RFC_cycle_process_counts c from to next flags) = parameters c.
Proof. apply configuration_parameters, untouched_configuration, untouched_process_counts. Qed.

Lemma parameters_class_count c c' :
  parameters c' = parameters c -> class_count c' = class_count c.
Proof. unfold parameters. now intros [= _ _ _ -> _]. Qed.

Lemma keeps_diagonal_trans a b c :
  keeps_diagonal a b -> keeps_diagonal b c -> keeps_diagonal a c.
Proof.
  intros [P1 D1] [P2 D2]. split; [congruence|].
  intros Hcc Hd. apply D2; [|now apply D1].
  now rewrite (parameters_class_count _ _ P1).
Qed.

Lemma keeps_diagonal_frame c c' :
  parameters c' = parameters c -> sinks c' = sinks c -> keeps_diagonal c c'.
Proof.
  intros P S. split; [exact P|]. intros _ Hd i Hi.
  rewrite (parameters_class_count _ _ P) in *.
  unfold sinks in S. injection S as Em _.
  unfold rfm_at. rewrite Em. now apply Hd.
Qed.

Lemma keeps_diagonal_counts c from to next flags :
  keeps_diagonal c (RFC_cycle_process_counts c from to next flags).
Proof.
  split; [apply parameters_process_counts|]. intros Hcc Hd i Hi.
  rewrite (parameters_class_count _ _ (parameters_process_counts c from to next flags)) in *.
  rewrite diagonal_process_counts by assumption. now apply Hd.
Qed.

(** C3, as amended.  For a closed cycle on a context with classes, with [cf]
    and [ct] the from- and to-classes after clamping to [0, class_count-1]:
    if [cf = ct] the context does not change at all; if [cf <> ct], the
    pseudo damage grows by [D(Sa) * curr_inc / full_inc] when the flag
    [RFC_FLAGS_COUNT_DAMAGE] is set (and stays as it is when the flag is not
    set), where [Sa = class_width * |ct - cf| / 2] and
    [D(Sa) = (Sa/SD)^|k| / ND] is what the logarithmic form computes, and
    [RFM[cf * class_count + ct]] grows by [curr_inc] when the RFM sink is
    enabled, every other counter staying as it is.  The counting never
    writes the diagonal: a diagonal that is zero stays zero through a feed
    and through a finalize call that end with the residue in bounds, that is,
    without a write beyond the capacity of the residue (which the code does
    not rule out, and which lands in the memory behind the buffer, where the
    matrix may lie). *)
Theorem cycle_counts c from to next flags :
  0 < class_count c <= 512 ->
  (0 < class_width c)%Q -> (0 < wl_sd c)%R -> (0 < wl_nd c)%R ->
  let cf := counted_class c (value from) in
  let ct := counted_class c (value to) in
  let Sa := cycle_amplitude c cf ct in
  let c' := RFC_cycle_process_counts c from to next flags in
  (cf = ct -> c' = c)
  /\ (cf <> ct ->
      pseudo_damage c' =
        (if damage_sink_enabled flags
         then pseudo_damage c + woehler_damage c Sa * IZR (curr_inc c) / IZR (full_inc c)
         else pseudo_damage c)%R
      /\ woehler_damage c Sa = woehler_damage_log c Sa
      /\ forall i, 0 <= i ->
           rfm_at c' i =
             if rfm_sink_enabled c flags && (i =? cf * class_count c + ct)
             then rfm_at c i + curr_inc c
             else rfm_at c i)
  /\ (diagonal_zero c ->
      diagonal_zero c'
      /\ forall data residual_method,
           (residue_in_bounds (snd (feed c data)) -> diagonal_zero (snd (feed c data)))
           /\ (residue_in_bounds (snd (RFC_finalize (snd (feed c data)) residual_method)) ->
               diagonal_zero (snd (RFC_finalize (snd (feed c data)) residual_method)))).
Proof.
  intros Hcc Hw HSD HND. cbv zeta.
  pose proof (counted_class_range c (value from) ltac:(lia)) as Hf.
  pose proof (counted_class_range c (value to) ltac:(lia)) as Ht.
  split; [|split].
  - intros E. rewrite (process_counts_effect c from to next flags Hcc). cbv zeta.
    now rewrite E, Z.eqb_refl.
  - intros Hne. split; [|split].
    + rewrite (process_counts_effect c from to next flags Hcc). cbv zeta.
      destruct (Z.eqb_spec (counted_class c (value from)) (counted_class c (value to)));
        [contradiction|].
      pose proof (amplitude_pos c _ _ Hw Hne) as HSa.
      rewrite <- woehler_log_form, <- damage_calc_amplitude_log by assumption.
      destruct (rfm c), (negb (Z.land flags RFC_FLAGS_COUNT_RFM =? 0)),
        (damage_sink_enabled flags); cbn [pseudo_damage set_rfm set_pseudo_damage];
        try reflexivity; unfold Rdiv; Lra.lra.
    + symmetry. apply woehler_log_form; try assumption. now apply amplitude_pos.
    + intros i Hi. rewrite rfm_process_counts by assumption.
      destruct (Z.eqb_spec (counted_class c (value from)) (counted_class c (value to)));
        [contradiction|reflexivity].
  - intros Hd. split.
    + now apply (keeps_diagonal_counts c from to next flags).
    + intros data m.
      pose proof (lift_feed keeps_diagonal keeps_diagonal_trans keeps_diagonal_frame
                    keeps_diagonal_counts c (Some data) (length data)) as [P1 D1].
      fold (feed c data) in P1, D1.
      pose proof (lift_finalize keeps_diagonal keeps_diagonal_trans keeps_diagonal_frame
                    keeps_diagonal_counts (snd (feed c data)) m) as [P2 D2].
      split; [intros _; now apply D1|]. intros _. apply D2; [|now apply D1].
      now rewrite (parameters_class_count _ _ P1).
Qed.

Lemma cycle_counts_witness :
  0 < class_count (ctx_4_classes RFC_FLAGS_DEFAULT) <= 512
  /\ (0 < class_width (ctx_4_classes RFC_FLAGS_DEFAULT))%Q
  /\ (0 < wl_sd (ctx_4_classes RFC_FLAGS_DEFAULT))%R
  /\ (0 < wl_nd (ctx_4_classes RFC_FLAGS_DEFAULT))%R
  /\ counted_class (ctx_4_classes RFC_FLAGS_DEFAULT) (value (tp_of 3 2 2))
     <> counted_class (ctx_4_classes RFC_FLAGS_DEFAULT) (value (tp_of 2 1 3))
  /\ pseudo_damage
       (RFC_cycle_process_counts (ctx_4_classes RFC_FLAGS_DEFAULT)
          (tp_of 3 2 2) (tp_of 2 1 3) (tp_of 4 3 4) RFC_FLAGS_DEFAULT)
     = (pseudo_damage (ctx_4_classes RFC_FLAGS_DEFAULT)
        + woehler_damage (ctx_4_classes RFC_FLAGS_DEFAULT)
            (cycle_amplitude (ctx_4_classes RFC_FLAGS_DEFAULT)
               (counted_class (ctx_4_classes RFC_FLAGS_DEFAULT) (value (tp_of 3 2 2)))
               (counted_class (ctx_4_classes RFC_FLAGS_DEFAULT) (value (tp_of 2 1 3))))
          * IZR (curr_inc (ctx_4_classes RFC_FLAGS_DEFAULT))
          / IZR (full_inc (ctx_4_classes RFC_FLAGS_DEFAULT)))%R.
Proof.
  assert (H1 : 0 < class_count (ctx_4_classes RFC_FLAGS_DEFAULT) <= 512)
    by (vm_compute; split; [reflexivity|discriminate]).
  assert (H2 : (0 < class_width (ctx_4_classes RFC_FLAGS_DEFAULT))%Q)
    by (vm_compute; reflexivity).
  assert (H3 : (0 < wl_sd (ctx_4_classes RFC_FLAGS_DEFAULT))%R)
    by (replace (wl_sd (ctx_4_classes RFC_FLAGS_DEFAULT)) with 1000%R
          by (vm_compute; reflexivity); Lra.lra).
  assert (H4 : (0 < wl_nd (ctx_4_classes RFC_FLAGS_DEFAULT))%R)
    by (replace (wl_nd (ctx_4_classes RFC_FLAGS_DEFAULT)) with 10000000%R
          by (vm_compute; reflexivity); Lra.lra).
  assert (H5 : counted_class (ctx_4_classes RFC_FLAGS_DEFAULT) (value (tp_of 3 2 2))
               <> counted_class (ctx_4_classes RFC_FLAGS_DEFAULT) (value (tp_of 2 1 3)))
    by (vm_compute; discriminate).
  destruct (cycle_counts (ctx_4_classes RFC_FLAGS_DEFAULT)
              (tp_of 3 2 2) (tp_of 2 1 3) (tp_of 4 3 4) RFC_FLAGS_DEFAULT H1 H2 H3 H4)
    as (_ & Hne & _).
  destruct (Hne H5) as (Hpd & _).
  repeat (split; [assumption|]).
  exact Hpd.
Defined.

Lemma damage_needs_its_flag :
  counted_class (ctx_4_classes RFC_FLAGS_COUNT_RFM) (value (tp_of 3 2 2)) = 2
  /\ counted_class (ctx_4_classes RFC_FLAGS_COUNT_RFM) (value (tp_of 2 1 3)) = 1
  /\ pseudo_damage
       (RFC_cycle_process_counts (ctx_4_classes RFC_FLAGS_COUNT_RFM)
          (tp_of 3 2 2) (tp_of 2 1 3) (tp_of 4 3 4)
          (Internal.flags (internal (ctx_4_classes RFC_FLAGS_COUNT_RFM))))
     = pseudo_damage (ctx_4_classes RFC_FLAGS_COUNT_RFM)
  /\ (0 < woehler_damage (ctx_4_classes RFC_FLAGS_COUNT_RFM)
            (cycle_amplitude (ctx_4_classes RFC_FLAGS_COUNT_RFM) 2 1)
          * IZR (curr_inc (ctx_4_classes RFC_FLAGS_COUNT_RFM))
          / IZR (full_inc (ctx_4_classes RFC_FLAGS_COUNT_RFM)))%R.
Proof.
  split; [vm_compute; reflexivity|]. split; [vm_compute; reflexivity|].
  split; [vm_compute; reflexivity|].
  replace (curr_inc (ctx_4_classes RFC_FLAGS_COUNT_RFM)) with 2 by (vm_compute; reflexivity).
  replace (full_inc (ctx_4_classes RFC_FLAGS_COUNT_RFM)) with 2 by (vm_compute; reflexivity).
  unfold woehler_damage.
  replace (wl_nd (ctx_4_classes RFC_FLAGS_COUNT_RFM)) with 10000000%R
    by (vm_compute; reflexivity).
  set (p := Rpower _ _).
  assert (0 < p)%R by (unfold p, Rpower; apply exp_pos).
  assert (0 < p / 10000000)%R by (apply Rdiv_lt_0_compat; Lra.lra).
  Lra.lra.
Qed.

(** Reduction of the record operations only. *)
Tactic Notation "cbn_ctx" :=
  cbn [version_ok state error mem_alloc full_inc half_inc curr_inc class_count
       class_width class_offset hysteresis wl_sd wl_nd wl_k residue residue_cap
       residue_cnt rfm pseudo_damage internal set_state set_error set_mem_alloc
       set_full_inc set_half_inc set_curr_inc set_class_count set_class_width
       set_class_offset set_hysteresis set_wl_sd set_wl_nd set_wl_k set_residue
       set_residue_cap set_residue_cnt set_rfm set_pseudo_damage set_internal
       Internal.flags Internal.slope Internal.extrema0 Internal.extrema1 Internal.pos
       Internal.global_offset Internal.residue Internal.residue_cap Internal.res_static
       Internal.set_flags Internal.set_slope Internal.set_extrema0 Internal.set_extrema1
       Internal.set_pos Internal.set_global_offset Internal.set_residue_cap
       Internal.set_res_static with_internal value cls pos fst snd negb andb
       orb].

Tactic Notation "cbn_ctx" "in" hyp(H) :=
  cbn [version_ok state error mem_alloc full_inc half_inc curr_inc class_count
       class_width class_offset hysteresis wl_sd wl_nd wl_k residue residue_cap
       residue_cnt rfm pseudo_damage internal set_state set_error set_mem_alloc
       set_full_inc set_half_inc set_curr_inc set_class_count set_class_width
       set_class_offset set_hysteresis set_wl_sd set_wl_nd set_wl_k set_residue
       set_residue_cap set_residue_cnt set_rfm set_pseudo_damage set_internal
       Internal.flags Internal.slope Internal.extrema0 Internal.extrema1 Internal.pos
       Internal.global_offset Internal.residue Internal.residue_cap Internal.res_static
       Internal.set_flags Internal.set_slope Internal.set_extrema0 Internal.set_extrema1
       Internal.set_pos Internal.set_global_offset Internal.set_residue_cap
       Internal.set_res_static with_internal value cls pos fst snd negb andb
       orb] in H.

(** ** Initialization *)

(** A successful [RFC_init], field by field. *)
Lemma init_success c0 cc w o h flags c :
  RFC_init c0 cc w o h flags = (true, c) ->
  let alloc := match mem_alloc c0 with Some f => f | None => RFC_mem_alloc end in
  let flags' := if flags =? RFC_FLAGS_DEFAULT
                then Z.lor RFC_FLAGS_COUNT_RFM RFC_FLAGS_COUNT_DAMAGE else flags in
  (version_ok c0 = true /\ state c0 = RFC_STATE_INIT0
   /\ (cc = 0 \/ (cc <= 512 /\ (0 < w)%Q)))
  /\ (version_ok c = true /\ state c = RFC_STATE_INIT /\ error c = error c0
      /\ mem_alloc c = Some alloc)
  /\ parameters c =
       ((RFC_FULL_CYCLE_INCREMENT, RFC_HALF_CYCLE_INCREMENT, RFC_FULL_CYCLE_INCREMENT),
        (cc, w, o, h), (1000%R, 10000000%R, (- Rabs (-5))%R), flags')
  /\ (residue_cnt c = 0%nat /\ residue_cap c = init_residue_cap cc
      /\ residue c = Some (if (Z.to_nat (2 * cc) <=? NUMEL_internal_residue)%nat
                           then Internal.residue (internal c0)
                           else repeat nil (Z.to_nat (2 * cc))))
  /\ (pseudo_damage c = 0%R
      /\ rfm c = if negb (cc =? 0) && negb (Z.land flags' RFC_FLAGS_COUNT_RFM =? 0)
                 then Some (repeat 0 (Z.to_nat ((cc * cc) mod 2 ^ 32)))
                 else rfm c0)
  /\ (Internal.slope (internal c) = 0 /\ Internal.extrema0 (internal c) = nil
      /\ Internal.extrema1 (internal c) = nil
      /\ Internal.pos (internal c) = Internal.pos (internal c0)).
Proof.
  unfold RFC_init.
  destruct (version_ok c0) eqn:Hv; cbn_ctx; [|discriminate].
  destruct (state c0) eqn:Hs; cbn [state_eqb state_rank Z.eqb negb]; try discriminate.
  destruct (negb (cc =? 0) && ((512 <? cc) || Qle_bool w 0)) eqn:Hargs; [discriminate|].
  assert (Hcc : cc = 0 \/ (cc <= 512 /\ (0 < w)%Q)).
  { destruct (Z.eqb_spec cc 0); [now left|right]. cbn_ctx in Hargs.
    apply orb_false_iff in Hargs as [H1 H2]. apply Qle_bool_false in H2.
    split; [|assumption]. destruct (Z.ltb_spec 512 cc); [discriminate|lia]. }
  cbv zeta. unfold RFC_wl_init. cbn_ctx.
  unfold init_residue_cap.
  destruct (Nat.leb_spec (Z.to_nat (2 * cc)) NUMEL_internal_residue) as [Hcap|Hcap].
  - cbn_ctx.
    destruct (cc =? 0) eqn:E0; cbn_ctx.
    + rewrite Nat.max_r by exact Hcap. intros [= <-]. cbn_ctx. repeat split; auto.
    + destruct (negb (Z.land _ RFC_FLAGS_COUNT_RFM =? 0)) eqn:Ef.
      * destruct (match mem_alloc c0 with Some f => f | None => RFC_mem_alloc end _ _ _);
          cbn_ctx; [|discriminate].
        rewrite Nat.max_r by exact Hcap. intros [= <-]. cbn_ctx. repeat split; auto.
      * cbn_ctx. intros [= <-]. cbn. rewrite Nat.max_r by exact Hcap.
        repeat split; auto.
  - destruct (match mem_alloc c0 with Some f => f | None => RFC_mem_alloc end
                (Z.to_nat (2 * cc)) _ RFC_MEM_AIM_RESIDUE);
      cbn_ctx.
    + destruct (cc =? 0) eqn:E0; cbn_ctx.
      * rewrite Nat.max_l by lia. intros [= <-]. cbn_ctx. repeat split; auto.
      * destruct (negb (Z.land _ RFC_FLAGS_COUNT_RFM =? 0)) eqn:Ef.
        -- destruct (match mem_alloc c0 with Some f => f | None => RFC_mem_alloc end _ _ _);
             cbn_ctx; [|discriminate].
           rewrite Nat.max_l by lia. intros [= <-]. cbn_ctx. repeat split; auto.
        -- cbn_ctx. rewrite Nat.max_l by lia. intros [= <-]. cbn_ctx. repeat split; auto.
    + destruct (cc =? 0) eqn:E0; cbn_ctx; [|discriminate].
      apply Z.eqb_eq in E0. subst cc. unfold NUMEL_internal_residue in Hcap.
      change (Z.to_nat (2 * 0)) with 0%nat in Hcap. lia.
Qed.

(** ** The damage accumulator *)

Lemma damage_calc_amplitude_nonneg c Sa : (0 <= RFC_damage_calc_amplitude c Sa)%R.
Proof.
  unfold RFC_damage_calc_amplitude.
  destruct (Rle_dec 0 Sa); [|Lra.lra].
  destruct (Req_dec_T Sa 0); [Lra.lra|]. left. apply exp_pos.
Qed.

Lemma damage_calc_nonneg c cf ct : (0 <= fst (RFC_damage_calc c cf ct))%R.
Proof.
  unfold RFC_damage_calc. destruct (negb (cf =? ct)); cbn [fst]; [|Lra.lra].
  apply damage_calc_amplitude_nonneg.
Qed.

Lemma parameters_increments c c' :
  parameters c' = parameters c -> full_inc c' = full_inc c /\ curr_inc c' = curr_inc c.
Proof. unfold parameters. now intros [= -> _ -> _]. Qed.

Lemma damage_grows_trans a b c : damage_grows a b -> damage_grows b c -> damage_grows a c.
Proof.
  intros [P1 D1] [P2 D2]. split; [congruence|]. intros Hi.
  apply Rle_trans with (pseudo_damage b); [now apply D1|]. apply D2.
  destruct (parameters_increments _ _ P1) as [E1 E2]. unfold increments_ok. now rewrite E1, E2.
Qed.

Lemma damage_grows_frame c c' :
  parameters c' = parameters c -> sinks c' = sinks c -> damage_grows c c'.
Proof.
  intros P S. split; [exact P|]. intros _. unfold sinks in S. injection S as _ ->.
  apply Rle_refl.
Qed.

Lemma damage_grows_counts c from to next flags :
  damage_grows c (RFC_cycle_process_counts c from to next flags).
Proof.
  split; [apply parameters_process_counts|]. intros [Hf Hc].
  unfold RFC_cycle_process_counts.
  set (cf := if class_count c <=? QUANTIZE c (value from) then _ else _).
  set (ct := if class_count c <=? QUANTIZE c (value to) then _ else _).
  destruct (negb (cf =? ct)); [|apply Rle_refl].
  assert (Hstep : (pseudo_damage c <=
                   pseudo_damage c + fst (RFC_damage_calc c cf ct)
                                     / IZR (full_inc c) * IZR (curr_inc c))%R).
  { pose proof (damage_calc_nonneg c cf ct) as Hd.
    assert (0 < IZR (full_inc c))%R by now apply IZR_lt.
    assert (0 <= IZR (curr_inc c))%R by now apply IZR_le.
    assert (0 <= fst (RFC_damage_calc c cf ct) / IZR (full_inc c))%R.
    { apply Rmult_le_pos; [assumption|]. left. now apply Rinv_0_lt_compat. }
    assert (0 <= fst (RFC_damage_calc c cf ct) / IZR (full_inc c) * IZR (curr_inc c))%R
      by now apply Rmult_le_pos.
    Lra.lra. }
  destruct (negb (Z.land flags RFC_FLAGS_COUNT_DAMAGE =? 0)); cbn_ctx;
    destruct (rfm c); try destruct (negb (Z.land flags RFC_FLAGS_COUNT_RFM =? 0));
    cbn_ctx; try exact Hstep; apply Rle_refl.
Qed.

Lemma damage_grows_call c call : damage_grows c (run_call c call).
Proof.
  destruct call as [data n|m]; cbn [run_call].
  - apply (lift_feed damage_grows damage_grows_trans damage_grows_frame
             damage_grows_counts).
  - apply (lift_finalize damage_grows damage_grows_trans damage_grows_frame
             damage_grows_counts).
Qed.

Lemma damage_grows_calls calls : forall c, damage_grows c (run_calls c calls).
Proof.
  induction calls as [|call calls IH]; intros c; cbn [run_calls fold_left].
  - now apply damage_grows_frame.
  - eapply damage_grows_trans; [apply damage_grows_call|apply IH].
Qed.

Lemma run_calls_app c calls1 calls2 :
  run_calls c (calls1 ++ calls2) = run_calls (run_calls c calls1) calls2.
Proof. apply fold_left_app. Qed.

(** C9.  The pseudo damage of an initialized context is never negative and
    never decreases: it is 0 after [RFC_init], and whatever feed and finalize
    calls have been made, every further feed or finalize call leaves it at
    least as large as it was. *)
Theorem pseudo_damage_monotone c0 cc w o h flags c :
  RFC_init c0 cc w o h flags = (true, c) ->
  pseudo_damage c = 0%R
  /\ forall calls call,
       (0 <= pseudo_damage (run_calls c calls))%R
       /\ (pseudo_damage (run_calls c calls)
           <= pseudo_damage (run_call (run_calls c calls) call))%R.
Proof.
  intros Hinit. destruct (init_success _ _ _ _ _ _ _ Hinit) as (_ & _ & Hp & _ & [Hpd _] & _).
  split; [exact Hpd|]. intros calls call.
  assert (Hinc : increments_ok c).
  { unfold parameters in Hp. injection Hp as E1 _ E2 _. unfold increments_ok.
    rewrite E1, E2. split; [reflexivity|discriminate]. }
  destruct (damage_grows_calls calls c) as [P1 D1].
  destruct (damage_grows_call (run_calls c calls) call) as [P2 D2].
  split.
  - rewrite <- Hpd. now apply D1.
  - apply D2. destruct (parameters_increments _ _ P1) as [E1 E2].
    unfold increments_ok. now rewrite E1, E2.
Qed.

Lemma pseudo_damage_monotone_witness :
  RFC_init ctx_zero 4 1%Q (1 # 2)%Q (99 # 100)%Q RFC_FLAGS_DEFAULT
  = (true, ctx_4_classes RFC_FLAGS_DEFAULT)
  /\ (0 <= pseudo_damage
            (run_calls (ctx_4_classes RFC_FLAGS_DEFAULT)
               [call_feed (Some data_up) 4]))%R
  /\ (pseudo_damage
        (run_calls (ctx_4_classes RFC_FLAGS_DEFAULT)
           [call_feed (Some data_up) 4])
      <= pseudo_damage
           (run_call
              (run_calls (ctx_4_classes RFC_FLAGS_DEFAULT)
                 [call_feed (Some data_up) 4])
              (call_finalize RFC_RES_NONE)))%R.
Proof.
  assert (Hinit : RFC_init ctx_zero 4 1%Q (1 # 2)%Q (99 # 100)%Q RFC_FLAGS_DEFAULT
                  = (true, ctx_4_classes RFC_FLAGS_DEFAULT)).
  { unfold ctx_4_classes.
    assert (Hok : fst (RFC_init ctx_zero 4 1%Q (1 # 2)%Q (99 # 100)%Q RFC_FLAGS_DEFAULT)
                  = true) by (vm_compute; reflexivity).
    destruct (RFC_init ctx_zero 4 1%Q (1 # 2)%Q (99 # 100)%Q RFC_FLAGS_DEFAULT).
    cbn [fst snd] in *. now subst. }
  split; [exact Hinit|].
  exact (proj2 (pseudo_damage_monotone _ _ _ _ _ _ _ Hinit)
           [call_feed (Some data_up) 4] (call_finalize RFC_RES_NONE)).
Defined.

(** [RFC_init] with invalid class parameters. *)
Lemma init_invalid c0 cc w o h flags :
  version_ok c0 = true -> state c0 = RFC_STATE_INIT0 ->
  cc <> 0 -> 512 < cc \/ (w <= 0)%Q ->
  fst (RFC_init c0 cc w o h flags) = false
  /\ error (snd (RFC_init c0 cc w o h flags)) = RFC_ERROR_INVARG
  /\ state (snd (RFC_init c0 cc w o h flags)) = RFC_STATE_INIT0.
Proof.
  intros Hv Hs Hcc Hbad. unfold RFC_init. rewrite Hv, Hs.
  cbn [negb state_eqb state_rank Z.eqb].
  destruct (Z.eqb_spec cc 0) as [|_]; [contradiction|]. cbn [negb andb].
  assert (E : (512 <? cc) || Qle_bool w 0 = true).
  { apply orb_true_iff. destruct Hbad as [H|H]; [left|right].
    - now apply Z.ltb_lt.
    - now apply Qle_bool_iff. }
  rewrite E. cbn_ctx. auto.
Qed.

(** [RFC_init] with valid class parameters and an allocator that delivers. *)
Lemma init_valid c0 cc w o h flags :
  version_ok c0 = true -> state c0 = RFC_STATE_INIT0 ->
  cc <= 512 -> cc = 0 \/ (0 < w)%Q ->
  allocations_succeed c0 cc flags ->
  fst (RFC_init c0 cc w o h flags) = true.
Proof.
  intros Hv Hs Hcc Hw [Hres Hrfm]. unfold allocator, init_flags in *.
  unfold RFC_init, RFC_wl_init. rewrite Hv, Hs.
  cbn [negb state_eqb state_rank Z.eqb].
  assert (E : negb (cc =? 0) && ((512 <? cc) || Qle_bool w 0) = false).
  { destruct (Z.eqb_spec cc 0); [reflexivity|]. cbn [negb andb].
    apply orb_false_iff. split; [apply Z.ltb_ge; lia|].
    apply Qle_bool_false. destruct Hw; [contradiction|assumption]. }
  rewrite E. cbn_ctx.
  destruct (Nat.leb_spec (Z.to_nat (2 * cc)) NUMEL_internal_residue) as [Hcap|Hcap]; cbn_ctx.
  - destruct (Z.eqb_spec cc 0) as [|Hne]; cbn_ctx; [reflexivity|].
    destruct (Z.eqb_spec (Z.land (if flags =? RFC_FLAGS_DEFAULT
                                  then Z.lor RFC_FLAGS_COUNT_RFM RFC_FLAGS_COUNT_DAMAGE
                                  else flags) RFC_FLAGS_COUNT_RFM) 0) as [|Hf];
      cbn_ctx; [reflexivity|].
    rewrite (Hrfm Hne Hf). reflexivity.
  - rewrite (Hres Hcap). cbn_ctx.
    destruct (Z.eqb_spec cc 0) as [|Hne]; cbn_ctx; [reflexivity|].
    destruct (Z.eqb_spec (Z.land (if flags =? RFC_FLAGS_DEFAULT
                                  then Z.lor RFC_FLAGS_COUNT_RFM RFC_FLAGS_COUNT_DAMAGE
                                  else flags) RFC_FLAGS_COUNT_RFM) 0) as [|Hf];
      cbn_ctx; [reflexivity|].
    rewrite (Hrfm Hne Hf). reflexivity.
Qed.

(** C8, as amended.  [RFC_init] on a fresh context (state INIT0) fails,
    returning false with the error INVARG and the state still INIT0, whenever
    [class_count > 512], or [class_count > 0] and [class_width <= 0].  The
    hysteresis is not validated: for every hysteresis, negative ones
    included, valid class parameters and an allocator that delivers make
    [RFC_init] return true, store the arguments, set up the residue with the
    capacity [max(2 * class_count, 3)] (allocated and zeroed when beyond the
    embedded three slots) and, when the RFM flag is set and
    [class_count > 0], a zeroed matrix of [class_count * class_count]
    counters, and leave the context in state INIT. *)
Theorem init_validates c0 cc w o h flags :
  version_ok c0 = true -> state c0 = RFC_STATE_INIT0 -> 0 <= cc ->
  (512 < cc \/ (0 < cc /\ (w <= 0)%Q) ->
   fst (RFC_init c0 cc w o h flags) = false
   /\ error (snd (RFC_init c0 cc w o h flags)) = RFC_ERROR_INVARG
   /\ state (snd (RFC_init c0 cc w o h flags)) = RFC_STATE_INIT0)
  /\ (cc <= 512 -> cc = 0 \/ (0 < w)%Q -> allocations_succeed c0 cc flags ->
      let c := snd (RFC_init c0 cc w o h flags) in
      fst (RFC_init c0 cc w o h flags) = true
      /\ state c = RFC_STATE_INIT
      /\ (class_count c, class_width c, class_offset c, hysteresis c) = (cc, w, o, h)
      /\ residue_cnt c = 0%nat
      /\ residue_cap c = Nat.max (Z.to_nat (2 * cc)) 3
      /\ residue c = Some (if (Z.to_nat (2 * cc) <=? 3)%nat
                           then Internal.residue (internal c0)
                           else repeat nil (Z.to_nat (2 * cc)))
      /\ rfm c = if negb (cc =? 0) && negb (Z.land (init_flags flags) RFC_FLAGS_COUNT_RFM =? 0)
                 then Some (repeat 0 (Z.to_nat (cc * cc)))
                 else rfm c0).
Proof.
  intros Hv Hs Hcc0. split.
  - intros [H|[H1 H2]]; apply init_invalid; auto; lia.
  - intros Hcc Hw Halloc. cbv zeta.
    pose proof (init_valid c0 cc w o h flags Hv Hs Hcc Hw Halloc) as Hok.
    destruct (RFC_init c0 cc w o h flags) as [ok c] eqn:Hinit. cbn [fst snd] in *. subst ok.
    destruct (init_success _ _ _ _ _ _ _ Hinit)
      as (_ & (_ & Hst & _) & Hp & (Hcnt & Hcap & Hres) & (_ & Hrfm) & _).
    pose proof (f_equal (fun p => snd (fst (fst p))) Hp) as Hclass.
    cbn [fst snd parameters] in Hclass.
    repeat split; try assumption.
    + rewrite Hrfm. unfold init_flags.
      rewrite Z.mod_small by (change (2 ^ 32) with 4294967296; nia). reflexivity.
Qed.

Lemma init_validates_witness :
  version_ok ctx_zero = true /\ state ctx_zero = RFC_STATE_INIT0 /\ 0 <= 4
  /\ 4 <= 512 /\ (4 = 0 \/ (0 < 1)%Q) /\ allocations_succeed ctx_zero 4 RFC_FLAGS_DEFAULT
  /\ fst (RFC_init ctx_zero 4 1%Q (1 # 2)%Q (99 # 100)%Q RFC_FLAGS_DEFAULT) = true
  /\ state (ctx_4_classes RFC_FLAGS_DEFAULT) = RFC_STATE_INIT
  /\ residue_cap (ctx_4_classes RFC_FLAGS_DEFAULT) = 8%nat.
Proof.
  assert (H1 : version_ok ctx_zero = true) by reflexivity.
  assert (H2 : state ctx_zero = RFC_STATE_INIT0) by reflexivity.
  assert (H3 : 0 <= 4) by lia.
  assert (H4 : 4 <= 512) by lia.
  assert (H5 : 4 = 0 \/ (0 < 1)%Q) by (right; reflexivity).
  assert (H6 : allocations_succeed ctx_zero 4 RFC_FLAGS_DEFAULT)
    by (split; intros; reflexivity).
  destruct (init_validates ctx_zero 4 1%Q (1 # 2)%Q (99 # 100)%Q RFC_FLAGS_DEFAULT H1 H2 H3)
    as [_ Hvalid].
  destruct (Hvalid H4 H5 H6) as (Hok & Hst & _ & _ & Hcap & _).
  exact (conj H1 (conj H2 (conj H3 (conj H4 (conj H5 (conj H6
           (conj Hok (conj Hst Hcap)))))))).
Defined.

(** The hysteresis -1 is accepted. *)
Lemma init_accepts_negative_hysteresis :
  fst (RFC_init ctx_zero 4 1%Q (1 # 2)%Q (-1)%Q RFC_FLAGS_DEFAULT) = true
  /\ state (snd (RFC_init ctx_zero 4 1%Q (1 # 2)%Q (-1)%Q RFC_FLAGS_DEFAULT)) = RFC_STATE_INIT
  /\ error (snd (RFC_init ctx_zero 4 1%Q (1 # 2)%Q (-1)%Q RFC_FLAGS_DEFAULT))
     = RFC_ERROR_NOERROR
  /\ hysteresis (snd (RFC_init ctx_zero 4 1%Q (1 # 2)%Q (-1)%Q RFC_FLAGS_DEFAULT)) = (-1)%Q.
Proof. repeat split; vm_compute; reflexivity. Qed.

(** ** Finalize *)

Lemma feed_finalize_is_promote c :
  feeding_state (state c) = true ->
  RFC_feed_finalize c = (true, set_state (promote_interim_spec c) RFC_STATE_FINALIZE).
Proof.
  unfold RFC_feed_finalize, promote_interim_spec.
  destruct (state c) eqn:Es; cbn [feeding_state]; try discriminate; intros _;
    cbn [state_lt state_eqb state_rank Z.ltb Z.eqb Z.compare Pos.eqb Pos.compare
         Pos.compare_cont];
    reflexivity.
Qed.

Lemma feeding_state_accepted s : feeding_state s = true -> state_accepted s = true.
Proof. now destruct s. Qed.

Lemma feed_rejected c data data_count :
  state_accepted (state c) = false -> version_ok c = true ->
  RFC_feed c data data_count = (false, c).
Proof.
  intros Hs Hv. unfold RFC_feed. unfold state_accepted in Hs.
  apply negb_false_iff in Hs. rewrite Hv, Hs. cbn [negb].
  now destruct (_ && _).
Qed.

(** C7, as amended.  [RFC_finalize] with the residual method NONE or IGNORE
    on a context in a feeding state returns true and leaves the state
    FINISHED, after which every feed call is rejected and changes nothing.
    With classes ([class_count > 0]): in BUSY_INTERIM the interim point is
    promoted to a confirmed turning point (the residue count grows by 1) and
    the four-point detector runs once more; apart from what that pass
    closes, nothing but the state changes.  Without classes
    ([class_count = 0]) the residue count is reset to 0. *)
Theorem finalize_ignore c residual_method :
  version_ok c = true -> feeding_state (state c) = true ->
  ignores_residue residual_method = true ->
  let c' := snd (RFC_finalize c residual_method) in
  fst (RFC_finalize c residual_method) = true
  /\ state c' = RFC_STATE_FINISHED
  /\ (class_count c <> 0 -> c' = set_state (promote_interim_spec c) RFC_STATE_FINISHED)
  /\ (class_count c = 0 -> residue_cnt c' = 0%nat)
  /\ (forall data data_count, RFC_feed c' data data_count = (false, c')).
Proof.
  intros Hv Hs Hm. cbv zeta.
  assert (Hfin : RFC_finalize c residual_method =
                 (true, set_state
                          (if class_count c =? 0
                           then set_residue_cnt (promote_interim_spec c) 0
                           else promote_interim_spec c)
                          RFC_STATE_FINISHED)).
  { unfold RFC_finalize, RFC_finalize_res_ignore. rewrite Hv.
    pose proof (feeding_state_accepted _ Hs) as Ha. unfold state_accepted in Ha.
    apply negb_true_iff in Ha. rewrite Ha. cbn [negb].
    rewrite (feed_finalize_is_promote c Hs).
    assert (Hcc : class_count (set_state (promote_interim_spec c) RFC_STATE_FINALIZE)
                  = class_count c).
    { unfold promote_interim_spec. destruct (state_eqb _ _); [|reflexivity].
      cbn_ctx. fold (RFC_cycle_find (set_state (set_residue_cnt c (S (residue_cnt c)))
                                      RFC_STATE_BUSY) (Internal.flags (internal c))).
      pose proof (untouched_cycle_find (set_state (set_residue_cnt c (S (residue_cnt c)))
                    RFC_STATE_BUSY) (Internal.flags (internal c))) as Hu.
      apply untouched_configuration, configuration_parameters, parameters_class_count in Hu.
      exact Hu. }
    destruct residual_method; try discriminate; rewrite Hcc;
      destruct (class_count c =? 0); reflexivity. }
  rewrite Hfin. cbn [fst snd]. repeat split.
  - intros Hcc. destruct (Z.eqb_spec (class_count c) 0); [contradiction|reflexivity].
  - intros ->. reflexivity.
  - intros data n. apply feed_rejected; [reflexivity|].
    cbn_ctx. destruct (class_count c =? 0); cbn_ctx.
    all: unfold promote_interim_spec; destruct (state_eqb _ _); cbn_ctx; try assumption.
    all: fold (RFC_cycle_find (set_state (set_residue_cnt c (S (residue_cnt c)))
                                      RFC_STATE_BUSY) (Internal.flags (internal c))).
    all: pose proof (untouched_cycle_find (set_state (set_residue_cnt c (S (residue_cnt c)))
                    RFC_STATE_BUSY) (Internal.flags (internal c))) as Hu.
    all: apply untouched_state in Hu as (_ & -> & _); exact Hv.
Qed.

Lemma finalize_ignore_witness :
  version_ok ctx_before_closing = true
  /\ feeding_state (state ctx_before_closing) = true
  /\ ignores_residue RFC_RES_IGNORE = true
  /\ class_count ctx_before_closing <> 0
  /\ fst (RFC_finalize ctx_before_closing RFC_RES_IGNORE) = true
  /\ snd (RFC_finalize ctx_before_closing RFC_RES_IGNORE)
     = set_state (promote_interim_spec ctx_before_closing) RFC_STATE_FINISHED.
Proof.
  assert (H1 : version_ok ctx_before_closing = true) by (vm_compute; reflexivity).
  assert (H2 : feeding_state (state ctx_before_closing) = true) by (vm_compute; reflexivity).
  assert (H3 : ignores_residue RFC_RES_IGNORE = true) by reflexivity.
  assert (H4 : class_count ctx_before_closing <> 0) by (vm_compute; discriminate).
  destruct (finalize_ignore ctx_before_closing RFC_RES_IGNORE H1 H2 H3)
    as (Hok & _ & Hcls & _).
  exact (conj H1 (conj H2 (conj H3 (conj H4 (conj Hok (Hcls H4)))))).
Defined.

(** Without classes the interim point is not kept: the count 1 becomes 0,
    not 2. *)
Lemma finalize_resets_residue_without_classes :
  state ctx_no_classes_fed = RFC_STATE_BUSY_INTERIM
  /\ class_count ctx_no_classes_fed = 0
  /\ residue_cnt ctx_no_classes_fed = 1%nat
  /\ fst (RFC_finalize ctx_no_classes_fed RFC_RES_NONE) = true
  /\ state (snd (RFC_finalize ctx_no_classes_fed RFC_RES_NONE)) = RFC_STATE_FINISHED
  /\ residue_cnt (snd (RFC_finalize ctx_no_classes_fed RFC_RES_NONE)) = 0%nat.
Proof. repeat split; vm_compute; reflexivity. Qed.

(** ** Errors *)

Lemma feed_failure c data data_count :
  fst (RFC_feed c data data_count) = false ->
  snd (RFC_feed c data data_count) = c
  \/ (version_ok c = false
      /\ snd (RFC_feed c data data_count) = set_error c RFC_ERROR_INVARG).
Proof.
  unfold RFC_feed. destruct (_ && _); [now left|].
  destruct (version_ok c); cbn [negb]; [|now right].
  destruct (_ || _); [now left|].
  intros H. now rewrite (proj1 (feed_loop_facts _ _)) in H.
Qed.

Lemma finalize_failure c residual_method :
  fst (RFC_finalize c residual_method) = false ->
  snd (RFC_finalize c residual_method) = c
  \/ (version_ok c = false
      /\ snd (RFC_finalize c residual_method) = set_error c RFC_ERROR_INVARG)
  \/ (ignores_residue residual_method = false
      /\ error (snd (RFC_finalize c residual_method)) = RFC_ERROR_INVARG
      /\ state (snd (RFC_finalize c residual_method)) = RFC_STATE_ERROR).
Proof.
  unfold RFC_finalize, RFC_finalize_res_ignore.
  destruct (version_ok c); cbn [negb]; [|now (right; left)].
  destruct (_ || _); [now left|].
  destruct residual_method as [| |code].
  1, 2: unfold RFC_feed_finalize; repeat break_if; cbn [fst snd]; discriminate.
  intros _. right; right. cbn_ctx. destruct (class_count c =? 0); cbn_ctx; auto.
Qed.

Lemma init_failure c0 cc w o h flags :
  fst (RFC_init c0 cc w o h flags) = false ->
  snd (RFC_init c0 cc w o h flags) = c0
  \/ (error (snd (RFC_init c0 cc w o h flags)) = RFC_ERROR_INVARG
      /\ state (snd (RFC_init c0 cc w o h flags)) = state c0).
Proof.
  unfold RFC_init, RFC_wl_init, RFC_deinit.
  destruct (version_ok c0) eqn:Hv; cbn [negb]; [|right; cbn_ctx; auto].
  destruct (state c0) eqn:Hs; cbn [state_eqb state_rank Z.eqb negb]; try now left.
  destruct (negb (cc =? 0) && _); [right; cbn_ctx; auto|].
  cbn_ctx.
  repeat break_if; cbn_ctx; try discriminate; intros _; right; cbn_ctx;
    rewrite ?Hv, ?Hs; cbn [state_lt state_rank Z.ltb Z.compare]; cbn_ctx;
    rewrite ?Hs; auto.
Qed.

Lemma deinit_failure c :
  fst (RFC_deinit c) = false ->
  snd (RFC_deinit c) = c
  \/ (version_ok c = false /\ snd (RFC_deinit c) = set_error c RFC_ERROR_INVARG).
Proof.
  unfold RFC_deinit. destruct (version_ok c); cbn [negb]; [|now right].
  destruct (state_lt _ _); [now left|discriminate].
Qed.

(** No feed that is let through fails: there is no overflow check that could
    stop it. *)
Lemma accepted_feed_succeeds c data data_count :
  version_ok c = true -> state_accepted (state c) = true ->
  (data = None -> data_count = 0%nat) ->
  fst (RFC_feed c data data_count) = true
  /\ error (snd (RFC_feed c data data_count)) = error c
  /\ state_accepted (state (snd (RFC_feed c data data_count))) = true.
Proof.
  intros Hv Hs Hd. unfold RFC_feed. rewrite Hv.
  unfold state_accepted in Hs. apply negb_true_iff in Hs. rewrite Hs. cbn [negb].
  assert (E : negb (data_count =? 0)%nat
              && match data with None => true | Some _ => false end = false).
  { destruct data; [apply andb_false_r|]. now rewrite Hd. }
  rewrite E.
  destruct (feed_loop_facts
              (firstn data_count match data with Some buf => buf | None => [] end) c)
    as (H1 & H2 & H3).
  repeat split; [exact H1| |].
  - unfold configuration in H2. now injection H2.
  - apply H3. unfold state_accepted. now rewrite Hs.
Qed.

(** C6, as amended.  Every public entry point returns a success boolean.  A
    failing call stores an error code only where the code says so, and the
    code it stores is INVARG: for a context of the wrong version, for
    invalid arguments or a failed allocation at init (the state stays as it
    was, INIT0), and for a residual method out of scope at finalize (the one
    failure that moves the state to ERROR).  A call rejected because of the
    state of the context, or a feed with a null buffer and a nonzero count,
    returns false and leaves the context as it is, error code included.  A
    feed that is let through always returns true, stores no error and stays
    in a state that accepts calls: the counter limit is an assertion, not an
    error path. *)
Theorem failures_and_errors :
  (forall c data data_count,
      fst (RFC_feed c data data_count) = false ->
      snd (RFC_feed c data data_count) = c
      \/ (version_ok c = false
          /\ snd (RFC_feed c data data_count) = set_error c RFC_ERROR_INVARG))
  /\ (forall c residual_method,
        fst (RFC_finalize c residual_method) = false ->
        snd (RFC_finalize c residual_method) = c
        \/ (version_ok c = false
            /\ snd (RFC_finalize c residual_method) = set_error c RFC_ERROR_INVARG)
        \/ (ignores_residue residual_method = false
            /\ error (snd (RFC_finalize c residual_method)) = RFC_ERROR_INVARG
            /\ state (snd (RFC_finalize c residual_method)) = RFC_STATE_ERROR))
  /\ (forall c0 cc w o h flags,
        fst (RFC_init c0 cc w o h flags) = false ->
        snd (RFC_init c0 cc w o h flags) = c0
        \/ (error (snd (RFC_init c0 cc w o h flags)) = RFC_ERROR_INVARG
            /\ state (snd (RFC_init c0 cc w o h flags)) = state c0))
  /\ (forall c,
        fst (RFC_deinit c) = false ->
        snd (RFC_deinit c) = c
        \/ (version_ok c = false /\ snd (RFC_deinit c) = set_error c RFC_ERROR_INVARG))
  /\ (forall c data data_count,
        version_ok c = true -> state_accepted (state c) = true ->
        (data = None -> data_count = 0%nat) ->
        fst (RFC_feed c data data_count) = true
        /\ error (snd (RFC_feed c data data_count)) = error c
        /\ state_accepted (state (snd (RFC_feed c data data_count))) = true).
Proof.
  repeat split;
    auto using feed_failure, finalize_failure, init_failure, deinit_failure;
    intros; now apply accepted_feed_succeeds.
Qed.

Lemma failures_and_errors_witness :
  fst (RFC_feed ctx_finished (Some data_up) 4) = false
  /\ (snd (RFC_feed ctx_finished (Some data_up) 4) = ctx_finished
      \/ (version_ok ctx_finished = false
          /\ snd (RFC_feed ctx_finished (Some data_up) 4)
             = set_error ctx_finished RFC_ERROR_INVARG)).
Proof.
  assert (H : fst (RFC_feed ctx_finished (Some data_up) 4) = false)
    by (vm_compute; reflexivity).
  exact (conj H (proj1 failures_and_errors ctx_finished (Some data_up) 4%nat H)).
Defined.

(** A feed after finalize fails and stores no error code; an allocation that
    fails at init stores INVARG and leaves the state INIT0, not ERROR. *)
Lemma failures_without_error_code :
  (state ctx_finished = RFC_STATE_FINISHED
   /\ fst (RFC_feed ctx_finished (Some data_up) 4) = false
   /\ error (snd (RFC_feed ctx_finished (Some data_up) 4)) = RFC_ERROR_NOERROR
   /\ fst (RFC_feed (ctx_4_classes RFC_FLAGS_DEFAULT) None 4) = false
   /\ error (snd (RFC_feed (ctx_4_classes RFC_FLAGS_DEFAULT) None 4)) = RFC_ERROR_NOERROR)
  /\ (fst (RFC_init ctx_zero_no_memory 4 1%Q (1 # 2)%Q (99 # 100)%Q RFC_FLAGS_DEFAULT)
      = false
      /\ error (snd (RFC_init ctx_zero_no_memory 4 1%Q (1 # 2)%Q (99 # 100)%Q
                       RFC_FLAGS_DEFAULT)) = RFC_ERROR_INVARG
      /\ state (snd (RFC_init ctx_zero_no_memory 4 1%Q (1 # 2)%Q (99 # 100)%Q
                       RFC_FLAGS_DEFAULT)) = RFC_STATE_INIT0).
Proof. repeat split; vm_compute; reflexivity. Qed.

(** ** The residue stress test *)

(** The residue stress test on spare memory.  With its ninth sample the run
    writes slot 8 of the 8 slots of the residue; what the program computes
    after that write depends on what lies behind the buffer.  Where
    that memory is spare, as the buffers of this development have it (a slot
    written beyond the capacity is kept, and no other buffer is touched),
    feeding the 25 samples and finalizing with the residual method NONE
    yields the numbers the test expects: the matrix sum 9 (in units of
    [full_inc]) with the counts (1,3) = 2, (3,2) = 5, (4,1) = 2 for classes
    numbered from 1, a residue of length 7 with the values
    2, 3, 1, 4, 1, 3, 1.9, and [residue[3].pos = 20], the position of the
    third 4 of the input. *)
Lemma stress_test_on_spare_memory :
  fst (feed (ctx_4_classes RFC_FLAGS_DEFAULT) data_stress) = true
  /\ fst (RFC_finalize (ctx_stress 25) RFC_RES_NONE) = true
  /\ state ctx_stress_finalized = RFC_STATE_FINISHED
  /\ rfm_sum ctx_stress_finalized = 9 * full_inc ctx_stress_finalized
  /\ rfm_count_base1 ctx_stress_finalized 1 3 = 2 * full_inc ctx_stress_finalized
  /\ rfm_count_base1 ctx_stress_finalized 3 2 = 5 * full_inc ctx_stress_finalized
  /\ rfm_count_base1 ctx_stress_finalized 4 1 = 2 * full_inc ctx_stress_finalized
  /\ residue_cnt ctx_stress_finalized = 7%nat
  /\ map value (residue_points ctx_stress_finalized)
     = [2; 3; 1; 4; 1; 3; 19 # 10]%Q
  /\ map pos (residue_points ctx_stress_finalized) = [1; 2; 3; 20; 21; 24; 25]
  /\ pos (residue_at ctx_stress_finalized 3) = 20
  /\ sample_at data_stress 4 = Some 4%Q
  /\ ~ In 4%Q (firstn 3 data_stress)
  /\ Forall (fun tp => sample_at data_stress (pos tp) = Some (value tp))
            (residue_points ctx_stress_finalized).
Proof.
  repeat split; try (vm_compute; reflexivity).
  - vm_compute. intros [H|[H|[H|[]]]]; discriminate.
  - vm_compute. repeat constructor.
Qed.

(** On spare memory again: the turning point with the value 4 and the
    position 20 is the interim point after the sample 20 and is confirmed by
    the sample 21: its position is not the confirming sample's, 21, but its
    own. *)
Lemma residue_pos_is_own_position :
  (state (ctx_stress 20) = RFC_STATE_BUSY_INTERIM
   /\ residue_cnt (ctx_stress 20) = 5%nat
   /\ residue_at (ctx_stress 20) 5 = {| value := 4%Q; cls := 3; pos := 20 |})
  /\ (nth_error data_stress 20 = Some 1%Q
      /\ pos (next_tuple (ctx_stress 20) 1%Q) = 21
      /\ residue_cnt (after_filter (ctx_stress 20) 1%Q) = 6%nat
      /\ residue_at (after_filter (ctx_stress 20) 1%Q) 5
         = {| value := 4%Q; cls := 3; pos := 20 |})
  /\ residue_at ctx_stress_finalized 3 = {| value := 4%Q; cls := 3; pos := 20 |}.
Proof. repeat split; vm_compute; reflexivity. Qed.

(** C5, the code at the failing inputs.  In the stress test the residue
    buffer has 8 slots; after 8 samples 7 points are confirmed and the
    interim point sits in the last slot, so the assertion
    [residue_cnt < residue_cap] holds, and the filter then writes the ninth
    sample as the new interim point into slot 8, one beyond the buffer.
    With two classes and samples that stay inside the class window while
    their swings widen, the count reaches the capacity 4 itself, and the
    next append finds the assertion false and writes slot 5. *)
Theorem residue_overflow :
  (residue_cap (ctx_stress 8) = 8%nat
   /\ residue_buffer_length (ctx_stress 8) = 8%nat
   /\ state (ctx_stress 8) = RFC_STATE_BUSY_INTERIM
   /\ residue_cnt (ctx_stress 8) = 7%nat
   /\ snd (RFC_feed_filter_pt
             (with_internal (ctx_stress 8)
                (fun i => Internal.set_pos i (Internal.pos i + 1)))
             (next_tuple (ctx_stress 8) 2%Q)) = Some 7%nat
   /\ residue_cnt (after_filter (ctx_stress 8) 2%Q) = 8%nat
   /\ residue_at (after_filter (ctx_stress 8) 2%Q) 8 = {| value := 2%Q; cls := 1; pos := 9 |}
   /\ residue_buffer_length (after_filter (ctx_stress 8) 2%Q) = 9%nat)
  /\ (Forall (fun v => 0 <= v /\ v < 2)%Q data_widening
      /\ residue_cap (snd (feed ctx_2_classes (firstn 5 data_widening))) = 4%nat
      /\ residue_cnt (snd (feed ctx_2_classes (firstn 5 data_widening))) = 4%nat
      /\ residue_cnt (snd (feed ctx_2_classes data_widening)) = 5%nat
      /\ residue_buffer_length (snd (feed ctx_2_classes data_widening)) = 6%nat).
Proof.
  repeat split; try (vm_compute; reflexivity).
  repeat constructor; vm_compute; try reflexivity; discriminate.
Qed.

(** ** The residue invariant *)

Section Chains.

Variables (h : RFC_value_type) (R R' : nat -> rfc_value_tuple_s).

Hypothesis h_nonneg : (0 <= h)%Q.


Ltac index_cases :=
  repeat match goal with
         | H : forall j, (j < _)%nat -> R' j = R _ |- context [R' ?k] =>
             rewrite (H k) by lia
         end.

Lemma chain_weaken s b b' m :
  b <= b' -> (forall j, (j < m)%nat -> R' j = R j) ->
  chain h s b m R -> chain h s b' m R'.
Proof.
  intros Hb Heq (T & Sw & P & B). repeat split.
  - intros i Hi. index_cases. now apply T.
  - intros Hm. index_cases. now apply Sw.
  - intros i Hi. index_cases. now apply P.
  - intros i Hi. index_cases. specialize (B i Hi). lia.
Qed.









End Chains.






(** The detector's removal leaves everything but the residue and the
    counters alone. *)
Lemma untouched_close_cycle c fl :
  untouched_by_counting (close_cycle_spec c fl) = untouched_by_counting c.
Proof.
  unfold close_cycle_spec. cbv zeta.
  change (untouched_by_counting (set_residue_cnt ?x _)) with (untouched_by_counting x).
  destruct (state_eqb _ _); rewrite !untouched_residue_put;
    apply untouched_process_counts.
Qed.

Lemma untouched_hysteresis c c' :
  untouched_by_counting c' = untouched_by_counting c -> hysteresis c' = hysteresis c.
Proof. unfold untouched_by_counting. now intros [= _ _ _ _ _ _ _ _ _ _ -> _ _ _ _ _]. Qed.

Lemma residue_some_residue_put c i v : residue c <> None -> residue (residue_put c i v) <> None.
Proof. rewrite residue_residue_put. now destruct (residue c). Qed.

Lemma residue_some_close_cycle c fl :
  residue c <> None -> residue (close_cycle_spec c fl) <> None.
Proof.
  intros Hres. unfold close_cycle_spec. cbv zeta.
  change (residue (set_residue_cnt ?x _)) with (residue x).
  set (c1 := RFC_cycle_process_counts c _ _ _ fl).
  assert (residue c1 <> None) as H1.
  { pose proof (residue_part_process_counts c (residue_at c (residue_cnt c - 3))
      (residue_at c (residue_cnt c - 2)) (residue_at c (residue_cnt c - 1)) fl) as HR.
    fold c1 in HR. unfold residue_part in HR. injection HR as HR1 _. now rewrite HR1. }
  destruct (state_eqb _ _); auto using residue_some_residue_put.
Qed.

(** What the residue holds after a removal. *)
Lemma residue_at_close_cycle c fl j :
  residue c <> None ->
  residue_at (close_cycle_spec c fl) j =
  if state_eqb (state c) RFC_STATE_BUSY_INTERIM && (j =? residue_cnt c - 2)%nat
  then residue_at c (residue_cnt c)
  else if (j =? residue_cnt c - 3)%nat then residue_at c (residue_cnt c - 1)
       else residue_at c j.
Proof.
  intros Hres. unfold close_cycle_spec. cbv zeta.
  change (residue_at (set_residue_cnt ?x _) j) with (residue_at x j).
  set (c1 := RFC_cycle_process_counts c _ _ _ fl).
  pose proof (residue_part_process_counts c (residue_at c (residue_cnt c - 3))
      (residue_at c (residue_cnt c - 2)) (residue_at c (residue_cnt c - 1)) fl) as HR.
  fold c1 in HR. unfold residue_part in HR. injection HR as HR1 _.
  pose proof (untouched_process_counts c (residue_at c (residue_cnt c - 3))
      (residue_at c (residue_cnt c - 2)) (residue_at c (residue_cnt c - 1)) fl) as HU.
  fold c1 in HU.
  assert (residue c1 <> None) as H1 by now rewrite HR1.
  destruct (untouched_state _ _ (untouched_residue_put c1 (residue_cnt c - 3)
              (residue_at c (residue_cnt c - 1)))) as (-> & _).
  destruct (untouched_state _ _ HU) as (-> & _).
  destruct (state_eqb (state c) RFC_STATE_BUSY_INTERIM); cbn [andb].
  - rewrite residue_at_residue_put by now apply residue_some_residue_put.
    destruct (j =? residue_cnt c - 2)%nat; [reflexivity|].
    rewrite residue_at_residue_put by assumption.
    destruct (j =? residue_cnt c - 3)%nat; [reflexivity|].
    now apply residue_at_ext.
  - rewrite residue_at_residue_put by assumption.
    destruct (j =? residue_cnt c - 3)%nat; [reflexivity|].
    now apply residue_at_ext.
Qed.






(** The shift of [RFC_residue_remove_item] for one point at the head. *)
Lemma shift_down m : forall c,
  residue c <> None ->
  let c' := fold_left (fun c k => residue_put c k (residue_at c (S k))) (seq 0 m) c in
  residue c' <> None /\ residue_cnt c' = residue_cnt c
  /\ forall j, residue_at c' j = if (j <? m)%nat then residue_at c (S j) else residue_at c j.
Proof.
  induction m as [|m IH]; intros c Hres; cbv zeta.
  - cbn [seq fold_left]. split; [assumption|]. split; [reflexivity|]. intros j. reflexivity.
  - rewrite seq_S, fold_left_app. cbn [fold_left Nat.add].
    destruct (IH c Hres) as (H1 & H0 & H2).
    set (c1 := fold_left _ (seq 0 m) c) in *.
    split; [now apply residue_some_residue_put|].
    split; [now rewrite residue_cnt_residue_put|].
    intros j. rewrite residue_at_residue_put by assumption. rewrite !H2.
    destruct (Nat.eqb_spec j m) as [->|Hj].
    + destruct (Nat.ltb_spec (S m) m); [lia|].
      destruct (Nat.ltb_spec m (S m)); [reflexivity|lia].
    + destruct (Nat.ltb_spec j m), (Nat.ltb_spec j (S m)); try reflexivity; lia.
Qed.


Lemma pos_filter c pt :
  Internal.pos (internal (fst (RFC_feed_filter_pt c pt))) = Internal.pos (internal c).
Proof.
  rewrite filter_unfold. cbv zeta.
  repeat break_if; cbn [fst];
    unfold filter_append, filter_emit_first, filter_first;
    rewrite ?residue_put_eq; reflexivity.
Qed.


Lemma pos_feed_once c pt fl :
  Internal.pos (internal (snd (RFC_feed_once c pt fl))) = Internal.pos (internal c).
Proof.
  destruct (untouched_state _ _ (untouched_feed_once c pt fl)) as (_ & _ & ->).
  apply pos_filter.
Qed.






Lemma chain_len_confirmed c : (residue_cnt c <= chain_len c)%nat.
Proof. unfold chain_len. destruct (state_eqb _ _); lia. Qed.








(** ** Calls that change nothing *)

(** X1.  A feed of no samples, whatever the data pointer (NULL included), succeeds
    on an initialized context that is not finished and changes nothing. *)
Theorem feed_nothing c data :
  version_ok c = true -> state_accepted (state c) = true ->
  RFC_feed c data 0 = (true, c).
Proof.
  intros Hv Hs. unfold RFC_feed. rewrite Hv. cbn [Nat.eqb negb andb firstn].
  unfold state_accepted in Hs. apply negb_true_iff in Hs. rewrite Hs. reflexivity.
Qed.

Lemma feed_nothing_witness :
  RFC_feed (ctx_4_classes RFC_FLAGS_DEFAULT) None 0
  = (true, ctx_4_classes RFC_FLAGS_DEFAULT).
Proof.
  apply feed_nothing; vm_compute; reflexivity.
Defined.

Lemma finalize_rejected c residual_method :
  state_accepted (state c) = false -> version_ok c = true ->
  RFC_finalize c residual_method = (false, c).
Proof.
  intros Hs Hv. unfold RFC_finalize. rewrite Hv. cbn [negb].
  unfold state_accepted in Hs. apply negb_false_iff in Hs. now rewrite Hs.
Qed.

Lemma counting_over_rejected s : counting_over s = true -> state_accepted s = false.
Proof.
  unfold counting_over, state_accepted. intros ->. now rewrite orb_true_r.
Qed.

(** X2.  Once the counting is over (state FINISHED or ERROR) every feed and every
    finalize fails, and no sequence of such calls changes the context: the
    results stay as they are until deinit. *)
Theorem finished_is_final c calls call :
  version_ok c = true -> counting_over (state c) = true ->
  run_calls c calls = c /\ call_succeeds (run_calls c calls) call = false.
Proof.
  intros Hv Hs. apply counting_over_rejected in Hs.
  assert (Hstay : run_calls c calls = c).
  { unfold run_calls. induction calls as [|a calls IH]; cbn [fold_left]; [reflexivity|].
    destruct a as [data n|m]; cbn [run_call].
    - rewrite (feed_rejected c data n Hs Hv). exact IH.
    - rewrite (finalize_rejected c m Hs Hv). exact IH. }
  split; [exact Hstay|]. rewrite Hstay.
  destruct call as [data n|m]; cbn [call_succeeds].
  - now rewrite (feed_rejected c data n Hs Hv).
  - now rewrite (finalize_rejected c m Hs Hv).
Qed.

Lemma finished_is_final_witness :
  run_calls ctx_finished [call_feed (Some data_up) 4; call_finalize RFC_RES_NONE]
  = ctx_finished
  /\ call_succeeds
       (run_calls ctx_finished [call_feed (Some data_up) 4; call_finalize RFC_RES_NONE])
       (call_feed (Some data_up) 4) = false.
Proof.
  apply finished_is_final; vm_compute; reflexivity.
Defined.

(** ** De-initialization *)

(** X3.  [RFC_deinit] on an initialized context (any state from INIT on, ERROR
    included) succeeds: the context is back in INIT0 with the residue and the
    matrix released, the counters of the residue and the position counter
    reset; the counting parameters, the pseudo damage and the error code stay.
    A second deinit is rejected and changes nothing, and a new [RFC_init] with
    valid parameters succeeds on the released context when its allocations
    do. *)
Theorem deinit_releases c :
  version_ok c = true -> state_lt (state c) RFC_STATE_INIT = false ->
  let c' := snd (RFC_deinit c) in
  fst (RFC_deinit c) = true
  /\ state c' = RFC_STATE_INIT0
  /\ (residue c' = None /\ rfm c' = None /\ residue_cnt c' = 0%nat
      /\ residue_cap c' = 0%nat)
  /\ (Internal.pos (internal c') = 0 /\ Internal.slope (internal c') = 0
      /\ Internal.extrema0 (internal c') = nil /\ Internal.extrema1 (internal c') = nil)
  /\ (parameters c' = parameters c /\ pseudo_damage c' = pseudo_damage c
      /\ error c' = error c /\ mem_alloc c' = mem_alloc c)
  /\ RFC_deinit c' = (false, c')
  /\ (forall cc w o h flags,
        cc <= 512 -> cc = 0 \/ (0 < w)%Q -> allocations_succeed c cc flags ->
        fst (RFC_init c' cc w o h flags) = true).
Proof.
  intros Hv Hs. cbv zeta. unfold RFC_deinit. rewrite Hv, Hs. cbn [negb fst snd].
  repeat split; try reflexivity.
  - cbn_ctx. rewrite Hv. reflexivity.
  - intros cc w o h flags Hcc Hw Ha. apply init_valid; auto.
Qed.

Lemma deinit_releases_witness :
  fst (RFC_deinit ctx_finished) = true
  /\ state (snd (RFC_deinit ctx_finished)) = RFC_STATE_INIT0
  /\ fst (RFC_init (snd (RFC_deinit ctx_finished)) 4 1%Q (1 # 2)%Q (99 # 100)%Q
            RFC_FLAGS_DEFAULT) = true.
Proof.
  assert (Hv : version_ok ctx_finished = true) by (vm_compute; reflexivity).
  assert (Hs : state_lt (state ctx_finished) RFC_STATE_INIT = false)
    by (vm_compute; reflexivity).
  pose proof (deinit_releases ctx_finished Hv Hs) as (H1 & H2 & _ & _ & _ & _ & H7).
  refine (conj H1 (conj H2 (H7 4 1%Q (1 # 2)%Q (99 # 100)%Q RFC_FLAGS_DEFAULT _ _ _))).
  - vm_compute. discriminate.
  - right. reflexivity.
  - split; intros; vm_compute; reflexivity.
Defined.

(** ** A run without samples *)

(** X4.  The run of the test [RFC_empty] for any parameters init accepts: init, a
    feed of no samples and finalize (NONE or IGNORE) all succeed and leave
    the context FINISHED with an empty residue, no damage and the matrix as
    init made it, all zeros where it was allocated. *)
Theorem empty_run c0 cc w o h flags c data m :
  RFC_init c0 cc w o h flags = (true, c) -> ignores_residue m = true ->
  let c1 := snd (RFC_feed c data 0) in
  let c2 := snd (RFC_finalize c1 m) in
  fst (RFC_feed c data 0) = true /\ fst (RFC_finalize c1 m) = true
  /\ state c2 = RFC_STATE_FINISHED /\ residue_cnt c2 = 0%nat
  /\ pseudo_damage c2 = 0%R /\ rfm c2 = rfm c
  /\ (cc <> 0 -> Z.land (init_flags flags) RFC_FLAGS_COUNT_RFM <> 0 -> rfm_is_zero c2).
Proof.
  intros Hinit Hm. cbv zeta.
  destruct (init_success _ _ _ _ _ _ _ Hinit)
    as (_ & (Hv & Hs & _) & _ & (Hcnt & _) & (Hpd & Hrfm) & _).
  assert (Hfeed : RFC_feed c data 0 = (true, c)).
  { unfold RFC_feed. rewrite Hv, Hs. reflexivity. }
  rewrite Hfeed.
  cbn [fst snd]. unfold RFC_finalize. rewrite Hv, Hs.
  cbn [negb state_lt state_ge state_rank Z.ltb Z.leb Z.compare Pos.compare Pos.compare_cont orb].
  cbv zeta. unfold RFC_finalize_res_ignore, RFC_feed_finalize. rewrite Hs.
  cbn [state_lt state_eqb state_rank Z.ltb Z.eqb Z.compare Pos.compare Pos.compare_cont Pos.eqb].
  assert ((let '(ok, rfc_ctx) :=
             match m with
             | RFC_RES_OTHER _ => (false, set_error c RFC_ERROR_INVARG)
             | _ => (true, set_state c RFC_STATE_FINALIZE)
             end in
           (ok, set_state
                  (if class_count rfc_ctx =? 0 then set_residue_cnt rfc_ctx 0%nat else rfc_ctx)
                  (if ok then RFC_STATE_FINISHED else RFC_STATE_ERROR)))
          = (true, set_state
                     (if class_count c =? 0
                      then set_residue_cnt (set_state c RFC_STATE_FINALIZE) 0%nat
                      else set_state c RFC_STATE_FINALIZE)
                     RFC_STATE_FINISHED)) as ->.
  { destruct m; try discriminate; reflexivity. }
  cbn [fst snd].
  destruct (class_count c =? 0); cbn_ctx; repeat split; auto.
  all: intros Hcc Hfl i; unfold rfm_at; cbn_ctx; rewrite Hrfm.
  all: unfold init_flags in Hfl.
  all: destruct (Z.eqb_spec cc 0) as [|_]; [contradiction|].
  all: destruct (Z.eqb_spec (Z.land (if flags =? RFC_FLAGS_DEFAULT
                   then Z.lor RFC_FLAGS_COUNT_RFM RFC_FLAGS_COUNT_DAMAGE else flags)
                   RFC_FLAGS_COUNT_RFM) 0) as [|_]; [contradiction|].
  all: cbn [negb andb]; unfold peek.
  all: destruct (Nat.lt_ge_cases (Z.to_nat i) (Z.to_nat ((cc * cc) mod 2 ^ 32)));
    [apply nth_repeat_lt; assumption | apply nth_overflow; now rewrite repeat_length].
Qed.

Lemma empty_run_witness :
  RFC_init ctx_zero 4 1%Q (1 # 2)%Q (99 # 100)%Q RFC_FLAGS_DEFAULT
  = (true, ctx_4_classes RFC_FLAGS_DEFAULT)
  /\ state (snd (RFC_finalize (snd (RFC_feed (ctx_4_classes RFC_FLAGS_DEFAULT) None 0))
                   RFC_RES_NONE)) = RFC_STATE_FINISHED
  /\ rfm_is_zero (snd (RFC_finalize (snd (RFC_feed (ctx_4_classes RFC_FLAGS_DEFAULT) None 0))
                         RFC_RES_NONE)).
Proof.
  assert (Hinit : RFC_init ctx_zero 4 1%Q (1 # 2)%Q (99 # 100)%Q RFC_FLAGS_DEFAULT
                  = (true, ctx_4_classes RFC_FLAGS_DEFAULT)).
  { unfold ctx_4_classes.
    assert (Hok : fst (RFC_init ctx_zero 4 1%Q (1 # 2)%Q (99 # 100)%Q RFC_FLAGS_DEFAULT)
                  = true) by (vm_compute; reflexivity).
    destruct (RFC_init ctx_zero 4 1%Q (1 # 2)%Q (99 # 100)%Q RFC_FLAGS_DEFAULT).
    cbn [fst snd] in *. now subst. }
  pose proof (empty_run _ _ _ _ _ _ _ None RFC_RES_NONE Hinit eq_refl)
    as (_ & _ & H3 & _ & _ & _ & H7).
  refine (conj Hinit (conj H3 (H7 _ _))); vm_compute; discriminate.
Defined.

(** ** Differences and classes *)

(** X5.  [value_delta] splits a difference into magnitude and sign: the
    magnitude is not negative, the sign is -1 exactly when the value falls
    (and 1 otherwise, also for equal values), sign times magnitude is the
    difference, and the magnitude is the same in both directions. *)
Theorem value_delta_splits from_val to_val :
  let d := fst (value_delta from_val to_val) in
  let s := snd (value_delta from_val to_val) in
  (0 <= d)%Q
  /\ (s = -1 <-> (to_val < from_val)%Q)
  /\ (s = 1 <-> (from_val <= to_val)%Q)
  /\ (inject_Z s * d == to_val - from_val)%Q
  /\ (fst (value_delta to_val from_val) == d)%Q
  /\ (d == 0 <-> from_val == to_val)%Q.
Proof.
  cbv zeta. unfold value_delta. cbn [fst snd].
  destruct (Qlt_bool (to_val - from_val) 0) eqn:E.
  - apply Qlt_bool_iff in E.
    rewrite (Qabs_neg (to_val - from_val)) by lra.
    rewrite (Qabs_pos (from_val - to_val)) by lra.
    repeat split; intros; try discriminate; try lra.
    change (inject_Z (-1)) with (- (1))%Q. lra.
  - apply Qlt_bool_false in E.
    rewrite (Qabs_pos (to_val - from_val)) by lra.
    rewrite (Qabs_neg (from_val - to_val)) by lra.
    repeat split; intros; try discriminate; try lra.
    change (inject_Z 1) with 1%Q. lra.
Qed.

Lemma to_unsigned_floor x :
  (0 <= x)%Q -> (x < inject_Z (2 ^ 32))%Q -> to_unsigned x = Qfloor x.
Proof.
  intros H0 H1. unfold to_unsigned.
  assert (Z.quot (Qnum x) (Z.pos (Qden x)) = Qfloor x) as ->.
  { destruct x as [n d]. cbn [Qnum Qden Qfloor]. apply Z.quot_div_nonneg; [|lia].
    unfold Qle in H0. cbn in H0. lia. }
  apply Z.mod_small. split.
  - rewrite <- (Qfloor_Z 0). now apply Qfloor_resp_le.
  - rewrite Zlt_Qlt. eapply Qle_lt_trans; [apply Qfloor_le|exact H1].
Qed.

Lemma Qdiv_bounds x w k :
  (0 < w)%Q -> (inject_Z k <= x / w)%Q -> (x / w < inject_Z (k + 1))%Q ->
  (inject_Z k * w <= x)%Q /\ (x < inject_Z (k + 1) * w)%Q.
Proof.
  intros Hw H1 H2.
  assert (x == x / w * w)%Q as E by (field; lra).
  split.
  - rewrite E. apply Qmult_le_compat_r; [exact H1|lra].
  - rewrite E. apply Qmult_lt_compat_r; [exact Hw|exact H2].
Qed.

(** X6.  Over the rationals (the quotient of [QUANTIZE] taken exactly, where
    the code rounds it to a double), [QUANTIZE] sorts a value into its class:
    for a positive class width and a value not below the class offset (and
    not beyond the range of [unsigned]) the class [k] it returns is the one
    whose interval [offset + k * width <= v < offset + (k + 1) * width] holds
    the value; a larger value never gets a smaller class. *)
Theorem quantize_sorts c v v' :
  (0 < class_width c)%Q -> (class_offset c <= v)%Q -> (v <= v')%Q ->
  ((v' - class_offset c) / class_width c < inject_Z (2 ^ 32))%Q ->
  0 <= QUANTIZE c v
  /\ (class_edge c (QUANTIZE c v) <= v)%Q
  /\ (v < class_edge c (QUANTIZE c v + 1))%Q
  /\ QUANTIZE c v <= QUANTIZE c v'.
Proof.
  intros Hw Hv Hvv Hmax. unfold QUANTIZE, class_edge.
  assert (0 <= (v - class_offset c) / class_width c)%Q as H0.
  { apply Qle_shift_div_l; [exact Hw|lra]. }
  assert ((v - class_offset c) / class_width c <= (v' - class_offset c) / class_width c)%Q
    as Hmono.
  { apply Qle_shift_div_l; [exact Hw|].
    assert ((v - class_offset c) / class_width c * class_width c == v - class_offset c)%Q
      as -> by (field; lra). lra. }
  rewrite !to_unsigned_floor by lra.
  pose proof (Qfloor_le ((v - class_offset c) / class_width c)) as F1.
  pose proof (Qlt_floor ((v - class_offset c) / class_width c)) as F2.
  destruct (Qdiv_bounds _ _ _ Hw F1 F2) as [B1 B2].
  repeat split.
  - rewrite <- (Qfloor_Z 0). now apply Qfloor_resp_le.
  - lra.
  - lra.
  - now apply Qfloor_resp_le.
Qed.

Lemma quantize_sorts_witness :
  0 <= QUANTIZE (ctx_4_classes RFC_FLAGS_DEFAULT) (19 # 10)%Q
  /\ (class_edge (ctx_4_classes RFC_FLAGS_DEFAULT)
        (QUANTIZE (ctx_4_classes RFC_FLAGS_DEFAULT) (19 # 10)%Q) <= 19 # 10)%Q
  /\ (19 # 10 < class_edge (ctx_4_classes RFC_FLAGS_DEFAULT)
                  (QUANTIZE (ctx_4_classes RFC_FLAGS_DEFAULT) (19 # 10)%Q + 1))%Q
  /\ QUANTIZE (ctx_4_classes RFC_FLAGS_DEFAULT) (19 # 10)%Q
     <= QUANTIZE (ctx_4_classes RFC_FLAGS_DEFAULT) 3%Q.
Proof.
  apply quantize_sorts; vm_compute; first [reflexivity | discriminate].
Defined.

(** ** The Woehler curve *)

(** X7.  The damage of one cycle along the Woehler curve: an amplitude equal to
    [SD] costs [1 / ND]; no amplitude costs a negative damage, the amplitude
    0 costs none; a larger amplitude never costs less; the damage of a cycle
    between two classes is the same in both directions and 0 within one
    class; and [RFC_wl_init] stores the slope as [-|k|], so that the sign of
    the slope given makes no difference. *)
Theorem woehler_curve c :
  (0 < wl_sd c)%R -> (0 < wl_nd c)%R ->
  RFC_damage_calc_amplitude c (wl_sd c) = (/ wl_nd c)%R
  /\ RFC_damage_calc_amplitude c 0 = 0%R
  /\ (forall Sa Sa', (0 <= Sa <= Sa')%R ->
        (0 <= RFC_damage_calc_amplitude c Sa <= RFC_damage_calc_amplitude c Sa')%R)
  /\ (forall cf ct, fst (RFC_damage_calc c cf ct) = fst (RFC_damage_calc c ct cf))
  /\ (forall cf, fst (RFC_damage_calc c cf cf) = 0%R)
  /\ (forall sd nd k,
        RFC_wl_init c sd nd (- k) = RFC_wl_init c sd nd k
        /\ (wl_k (RFC_wl_init c sd nd k) <= 0)%R).
Proof.
  intros Hsd Hnd. split; [|split; [|split; [|split; [|split]]]].
  - unfold RFC_damage_calc_amplitude.
    destruct (Rle_dec 0 (wl_sd c)) as [H|H]; [|exfalso; apply H; Lra.lra].
    destruct (Req_dec_T (wl_sd c) 0) as [E|E]; [exfalso; Lra.lra|].
    replace (Rabs (wl_k c) * (ln (wl_sd c) - ln (wl_sd c)) - ln (wl_nd c))%R
      with (- ln (wl_nd c))%R by ring.
    rewrite exp_Ropp, exp_ln by assumption. reflexivity.
  - unfold RFC_damage_calc_amplitude.
    destruct (Rle_dec 0 0) as [H|H]; [|reflexivity].
    destruct (Req_dec_T 0 0) as [E|E]; [reflexivity|]. now contradiction E.
  - intros Sa Sa' [H0 H1]. split; [apply damage_calc_amplitude_nonneg|].
    unfold RFC_damage_calc_amplitude.
    destruct (Rle_dec 0 Sa) as [_|N]; [|contradiction].
    destruct (Rle_dec 0 Sa') as [_|N]; [|exfalso; apply N; Lra.lra].
    destruct (Req_dec_T Sa 0) as [E|E].
    + destruct (Req_dec_T Sa' 0); [Lra.lra|]. left. apply exp_pos.
    + destruct (Req_dec_T Sa' 0) as [E'|E']; [exfalso; Lra.lra|].
      assert (ln Sa <= ln Sa')%R as Hln.
      { destruct H1 as [H1|H1]; [left; apply ln_increasing; Lra.lra|subst; Lra.lra]. }
      pose proof (Rabs_pos (wl_k c)) as Hk.
      assert (Rabs (wl_k c) * (ln Sa - ln (wl_sd c)) - ln (wl_nd c)
              <= Rabs (wl_k c) * (ln Sa' - ln (wl_sd c)) - ln (wl_nd c))%R as Hle.
      { apply Rplus_le_compat_r, Rmult_le_compat_l; [exact Hk|Lra.lra]. }
      destruct Hle as [Hlt|Heq]; [left; now apply exp_increasing|right; now rewrite Heq].
  - intros cf ct. unfold RFC_damage_calc. rewrite (Z.eqb_sym ct cf).
    destruct (cf =? ct); cbn [negb fst]; [reflexivity|].
    replace (to_int cf - to_int ct) with (- (to_int ct - to_int cf)) by ring.
    now rewrite Z.abs_opp.
  - intros cf. unfold RFC_damage_calc. now rewrite Z.eqb_refl.
  - intros sd nd k. split.
    + unfold RFC_wl_init. now rewrite Rabs_Ropp.
    + unfold RFC_wl_init. cbn_ctx. pose proof (Rabs_pos k). Lra.lra.
Qed.

Lemma woehler_curve_witness :
  RFC_damage_calc_amplitude (ctx_4_classes RFC_FLAGS_DEFAULT)
    (wl_sd (ctx_4_classes RFC_FLAGS_DEFAULT))
  = (/ wl_nd (ctx_4_classes RFC_FLAGS_DEFAULT))%R.
Proof.
  apply woehler_curve.
  - change (wl_sd (ctx_4_classes RFC_FLAGS_DEFAULT)) with 1000%R. Lra.lra.
  - change (wl_nd (ctx_4_classes RFC_FLAGS_DEFAULT)) with 10000000%R. Lra.lra.
Defined.

(** ** Removal of points from the residue *)

Lemma shift_fold index count m : forall c,
  residue c <> None ->
  let c' := fold_left (fun c k => residue_put c (index + k)
                                    (residue_at c (index + count + k))) (seq 0 m) c in
  residue c' <> None /\ residue_cnt c' = residue_cnt c
  /\ forall j, residue_at c' j =
               if (index <=? j)%nat && (j <? index + m)%nat
               then residue_at c (j + count) else residue_at c j.
Proof.
  induction m as [|m IH]; intros c Hres; cbv zeta.
  - cbn [seq fold_left]. split; [assumption|]. split; [reflexivity|]. intros j.
    destruct (Nat.leb_spec index j), (Nat.ltb_spec j (index + 0)); cbn [andb];
      try reflexivity; lia.
  - rewrite seq_S, fold_left_app. cbn [fold_left Nat.add].
    destruct (IH c Hres) as (H1 & H0 & H2).
    set (c1 := fold_left _ (seq 0 m) c) in *.
    split; [now apply residue_some_residue_put|].
    split; [now rewrite residue_cnt_residue_put|].
    intros j. rewrite residue_at_residue_put by assumption. rewrite !H2.
    destruct (Nat.eqb_spec j (index + m)) as [->|Hj].
    + destruct (Nat.leb_spec index (index + count + m)),
               (Nat.ltb_spec (index + count + m) (index + m)),
               (Nat.leb_spec index (index + m)),
               (Nat.ltb_spec (index + m) (index + S m)); cbn [andb]; try lia.
      all: f_equal; lia.
    + destruct (Nat.leb_spec index j), (Nat.ltb_spec j (index + m)),
               (Nat.ltb_spec j (index + S m)); cbn [andb]; try reflexivity; lia.
Qed.

(** X8.  [RFC_residue_remove_item] deletes [count] points of the residue from
    [index] on: the points before [index] stay, the points behind the
    deleted ones (the interim point of BUSY_INTERIM with them) move down by
    [count], the count of the residue decreases by [count], and nothing but
    the residue changes.  With [count = 0] nothing changes at all in the
    residue. *)
Theorem remove_item_deletes c index count :
  residue c <> None -> (index + count <= residue_cnt c)%nat ->
  let c' := RFC_residue_remove_item c index count in
  residue_cnt c' = (residue_cnt c - count)%nat
  /\ chain_len c' = (chain_len c - count)%nat
  /\ (forall j, (j < index)%nat -> residue_at c' j = residue_at c j)
  /\ (forall j, (index <= j < chain_len c')%nat ->
        residue_at c' j = residue_at c (j + count))
  /\ (forall j, (chain_len c' <= j)%nat -> residue_at c' j = residue_at c j)
  /\ untouched_by_counting c' = untouched_by_counting c
  /\ sinks c' = sinks c.
Proof.
  intros Hres Hn. cbv zeta.
  pose proof (untouched_remove_item c index count) as HU.
  destruct (untouched_state _ _ HU) as (Es & _).
  destruct (remove_item_frame c index count) as [_ Hsinks].
  assert (Hcnt : residue_cnt (RFC_residue_remove_item c index count)
                 = (residue_cnt c - count)%nat
          /\ forall j, residue_at (RFC_residue_remove_item c index count) j =
                if (index <=? j)%nat && (j <? index + (chain_len c - (index + count)))%nat
                then residue_at c (j + count) else residue_at c j).
  { unfold RFC_residue_remove_item. cbv zeta.
    change (residue_cnt (set_residue_cnt ?x ?n)) with n.
    change (residue_at (set_residue_cnt ?x ?n)) with (residue_at x).
    fold (chain_len c).
    destruct (shift_fold index count (chain_len c - (index + count)) c Hres)
      as (_ & H0 & H2).
    rewrite H0. split; [reflexivity|exact H2]. }
  destruct Hcnt as [Hcnt Hat].
  assert (Hlen : chain_len (RFC_residue_remove_item c index count)
                 = (chain_len c - count)%nat).
  { unfold chain_len. rewrite Es, Hcnt. destruct (state_eqb _ _); lia. }
  assert (residue_cnt c <= chain_len c)%nat as Hle by apply chain_len_confirmed.
  split; [exact Hcnt|]. split; [exact Hlen|]. rewrite Hlen.
  split; [|split; [|split; [|split; [exact HU|exact Hsinks]]]].
  - intros j Hj. rewrite Hat. destruct (Nat.leb_spec index j); [lia|reflexivity].
  - intros j Hj. rewrite Hat.
    destruct (Nat.leb_spec index j), (Nat.ltb_spec j (index + (chain_len c - (index + count))));
      cbn [andb]; try reflexivity; lia.
  - intros j Hj. rewrite Hat.
    destruct (Nat.leb_spec index j), (Nat.ltb_spec j (index + (chain_len c - (index + count))));
      cbn [andb]; try reflexivity; lia.
Qed.

Lemma remove_item_deletes_witness :
  residue_cnt (RFC_residue_remove_item ctx_before_closing 1 2) = 2%nat
  /\ residue_at (RFC_residue_remove_item ctx_before_closing 1 2) 0
     = residue_at ctx_before_closing 0.
Proof.
  assert (Hres : residue ctx_before_closing <> None) by (vm_compute; discriminate).
  assert (Hn : (1 + 2 <= residue_cnt ctx_before_closing)%nat) by (vm_compute; lia).
  pose proof (remove_item_deletes ctx_before_closing 1 2 Hres Hn) as (H1 & _ & H3 & _).
  split; [exact H1|]. apply H3. lia.
Defined.

(** ** What the four-point detector leaves *)

Lemma cut_from_refl c : cut_from c c.
Proof.
  split; [exists 0%nat; lia|]. repeat split; auto.
Qed.

Lemma cut_from_close_cycle c fl :
  residue c <> None -> (4 <= residue_cnt c)%nat -> cut_from c (close_cycle_spec c fl).
Proof.
  intros Hres Hn. unfold cut_from. rewrite residue_cnt_close_cycle.
  split; [exists 1%nat; lia|].
  split; [|split; [|split]].
  - intros j Hj. rewrite residue_at_close_cycle by assumption.
    destruct (Nat.eqb_spec j (residue_cnt c - 2)); [lia|]. rewrite andb_false_r.
    destruct (Nat.eqb_spec j (residue_cnt c - 3)); [lia|reflexivity].
  - rewrite residue_at_close_cycle by assumption.
    destruct (Nat.eqb_spec (residue_cnt c - 2 - 1) (residue_cnt c - 2)); [lia|].
    rewrite andb_false_r.
    destruct (Nat.eqb_spec (residue_cnt c - 2 - 1) (residue_cnt c - 3)); [reflexivity|lia].
  - intros Es. rewrite residue_at_close_cycle, Es by assumption.
    cbn [state_eqb state_rank Z.eqb Pos.eqb andb]. now rewrite Nat.eqb_refl.
  - intros H. lia.
Qed.

Lemma cut_from_trans a b c :
  state b = state a -> (4 <= residue_cnt a)%nat ->
  cut_from a b -> cut_from b c -> cut_from a c.
Proof.
  intros Es Hn ([k Hk] & P1 & T1 & I1 & _) ([k' Hk'] & P2 & T2 & I2 & S2).
  destruct (Nat.lt_ge_cases (residue_cnt b) 4) as [Hb|Hb].
  { rewrite (S2 Hb). repeat split; auto. exists k; lia. lia. }
  split; [exists (k + k')%nat; lia|]. split; [|split; [|split]].
  - intros j Hj. rewrite P2 by assumption. apply P1. lia.
  - now rewrite T2.
  - intros E. rewrite I2 by now rewrite Es. now apply I1.
  - lia.
Qed.

Lemma detector_loop_result fl fuel : forall c,
  residue c <> None ->
  cut_from c (cycle_find_4ptm_loop fuel c fl)
  /\ ((residue_cnt c <= fuel)%nat -> detector_exhausted (cycle_find_4ptm_loop fuel c fl)).
Proof.
  induction fuel as [|fuel IH]; intros c Hres; cbn [cycle_find_4ptm_loop].
  - split; [apply cut_from_refl|]. intros H. left. lia.
  - destruct (Nat.leb_spec 4 (residue_cnt c)) as [Hn|Hn].
    + rewrite (body_is_close_cycle c fl Hn). cbv zeta.
      destruct (closed_cycle _ _ _ _) eqn:E.
      * destruct (IH (close_cycle_spec c fl) (residue_some_close_cycle c fl Hres))
          as [H1 H2].
        split.
        -- apply cut_from_trans with (b := close_cycle_spec c fl); auto.
           ++ apply (untouched_state _ _ (untouched_close_cycle c fl)).
           ++ now apply cut_from_close_cycle.
        -- intros Hf. apply H2. rewrite residue_cnt_close_cycle. lia.
      * split; [apply cut_from_refl|]. intros _. now right.
    + split; [apply cut_from_refl|]. intros _. now left.
Qed.

(** X9.  [RFC_cycle_find_4ptm] goes on until no cycle can be closed at the end of
    the confirmed residue, and only cuts cycles out below the last confirmed
    point: an even number of points is gone, the points below the last one
    left are the first points of the old residue in their places, the last
    confirmed point and the interim point are the old ones; with fewer than
    four confirmed points the context stays as it is.  The state, the
    configuration and the internals are untouched. *)
Theorem detector_result c fl :
  residue c <> None ->
  let c' := RFC_cycle_find_4ptm c fl in
  detector_exhausted c' /\ cut_from c c'
  /\ (residue_cnt c' <= residue_cnt c)%nat
  /\ untouched_by_counting c' = untouched_by_counting c.
Proof.
  intros Hres. cbv zeta. unfold RFC_cycle_find_4ptm.
  destruct (detector_loop_result fl (residue_cnt c) c Hres) as [H1 H2].
  split; [now apply H2|]. split; [exact H1|].
  split; [destruct H1 as ([k Hk] & _); lia|].
  apply (untouched_cycle_find c fl).
Qed.

Lemma detector_result_witness :
  detector_exhausted (RFC_cycle_find_4ptm ctx_before_closing RFC_FLAGS_DEFAULT)
  /\ (residue_cnt (RFC_cycle_find_4ptm ctx_before_closing RFC_FLAGS_DEFAULT)
      <= residue_cnt ctx_before_closing)%nat.
Proof.
  assert (Hres : residue ctx_before_closing <> None) by (vm_compute; discriminate).
  pose proof (detector_result ctx_before_closing RFC_FLAGS_DEFAULT Hres) as (H1 & _ & H3 & _).
  exact (conj H1 H3).
Defined.

(** ** Where the points of the residue come from *)

Ltac read_tuples Eres :=
  unfold filter_append, filter_emit_first, filter_first, residue_put, residue_at;
  repeat (cbn_ctx; rewrite ?Eres); rewrite ?peek_poke.

Lemma filter_keeps_tuples (P : rfc_value_tuple_s -> Prop) c pt :
  P pt -> tuples_hold P c -> tuples_hold P (fst (RFC_feed_filter_pt c pt)).
Proof.
  intros Hpt (Hres & Hall & Hst). rewrite filter_unfold. cbv zeta.
  unfold chain_len in Hall.
  destruct (residue c) as [buf|] eqn:Eres; [clear Hres|contradiction].
  assert (Hread : forall i, residue_at c i = peek nil buf i).
  { intros i. unfold residue_at. now rewrite Eres. }
  destruct (state c) eqn:Es; try contradiction;
    cbn [state_lt state_eqb state_rank Z.ltb Z.eqb Z.compare Pos.compare Pos.compare_cont
         Pos.eqb fst] in *.
  - (* INIT *)
    unfold tuples_hold, chain_len, filter_first. cbn_ctx. rewrite Eres.
    cbn [state_eqb state_rank Z.eqb Pos.eqb]. rewrite Hst.
    split; [discriminate|]. split; [intros i Hi; lia|auto].
  - (* BUSY *)
    destruct Hst as (Hcnt & P0 & P1).
    destruct (Qlt_bool (value pt) _).
    + destruct (Qlt_bool (hysteresis c) _); cbn [fst].
      * unfold tuples_hold, chain_len. read_tuples Eres. rewrite Hcnt.
        cbn [state_eqb state_rank Z.eqb Pos.eqb].
        split; [discriminate|]. split; [|exact I].
        intros i Hi. unfold residue_at. cbn_ctx. rewrite !peek_poke.
        destruct i as [|[|i]]; cbn [Nat.eqb Internal.extrema Z.eqb]; [exact P1|exact Hpt|lia].
      * unfold tuples_hold, chain_len. cbn_ctx. rewrite Es, Eres, Hcnt.
        cbn [state_eqb state_rank Z.eqb Pos.eqb].
        split; [discriminate|]. split; [intros i Hi; lia|auto].
    + destruct (Qlt_bool (value (Internal.extrema1 (internal c))) (value pt)).
      * destruct (Qlt_bool (hysteresis c) _); cbn [fst].
        -- unfold tuples_hold, chain_len. read_tuples Eres. rewrite Hcnt.
           cbn [state_eqb state_rank Z.eqb Pos.eqb].
           split; [discriminate|]. split; [|exact I].
           intros i Hi. unfold residue_at. cbn_ctx. rewrite !peek_poke.
           destruct i as [|[|i]]; cbn [Nat.eqb Internal.extrema Z.eqb]; [exact P0|exact Hpt|lia].
        -- unfold tuples_hold, chain_len. cbn_ctx. rewrite Es, Eres, Hcnt.
           cbn [state_eqb state_rank Z.eqb Pos.eqb].
           split; [discriminate|]. split; [intros i Hi; lia|auto].
      * cbn [fst]. unfold tuples_hold, chain_len. rewrite Es, Eres, Hcnt.
        cbn [state_eqb state_rank Z.eqb Pos.eqb].
        split; [discriminate|]. split; [intros i Hi; lia|auto].
  - (* BUSY_INTERIM *)
    assert (Hsame : tuples_hold P c).
    { unfold tuples_hold, chain_len. rewrite Es, Eres.
      cbn [state_eqb state_rank Z.eqb Pos.eqb].
      split; [discriminate|]. split; [exact Hall|exact I]. }
    destruct (_ =? Internal.slope (internal c)).
    + destruct (negb _); cbn [fst]; [|exact Hsame].
      unfold tuples_hold, chain_len. read_tuples Eres. rewrite Es.
      cbn [state_eqb state_rank Z.eqb Pos.eqb].
      split; [discriminate|]. split; [|exact I].
      intros i Hi. rewrite ?peek_poke.
      destruct (Nat.eqb_spec i (residue_cnt c)); [exact Hpt|].
      rewrite <- Hread. apply Hall. lia.
    + destruct (Qlt_bool (hysteresis c) _); cbn [fst]; [|exact Hsame].
      unfold tuples_hold, chain_len. read_tuples Eres. rewrite Es.
      cbn [state_eqb state_rank Z.eqb Pos.eqb].
      split; [discriminate|]. split; [|exact I].
      intros i Hi. rewrite ?peek_poke.
      destruct (Nat.eqb_spec i (S (residue_cnt c))); [exact Hpt|].
      rewrite <- Hread. apply Hall. lia.
Qed.

Lemma cut_keeps_points (P : rfc_value_tuple_s -> Prop) c c' :
  cut_from c c' -> state c' = state c ->
  (forall i, (i < chain_len c)%nat -> P (residue_at c i)) ->
  forall i, (i < chain_len c')%nat -> P (residue_at c' i).
Proof.
  intros ([k Hk] & Hpre & Htop & Hint & _) Es Hall i Hi.
  pose proof (chain_len_confirmed c) as Hle.
  unfold chain_len in Hi. rewrite Es in Hi.
  destruct (Nat.lt_ge_cases (i + 1) (residue_cnt c')) as [H1|H1].
  { rewrite Hpre by assumption. apply Hall. lia. }
  destruct (Nat.eq_dec (i + 1) (residue_cnt c')) as [H2|H2].
  { replace i with (residue_cnt c' - 1)%nat by lia. rewrite Htop. apply Hall. lia. }
  destruct (state c) eqn:E; cbn [state_eqb state_rank Z.eqb Pos.eqb] in Hi; try lia.
  replace i with (residue_cnt c') by lia. rewrite Hint by reflexivity.
  apply Hall. unfold chain_len. rewrite E. cbn [state_eqb state_rank Z.eqb Pos.eqb]. lia.
Qed.

Lemma residue_some_loop fl fuel : forall c,
  residue c <> None -> residue (cycle_find_4ptm_loop fuel c fl) <> None.
Proof.
  induction fuel as [|fuel IH]; intros c H; cbn [cycle_find_4ptm_loop]; [assumption|].
  destruct (Nat.leb_spec 4 (residue_cnt c)) as [Hn|]; [|assumption].
  rewrite (body_is_close_cycle c fl Hn). cbv zeta.
  destruct (closed_cycle _ _ _ _); [|assumption].
  now apply IH, residue_some_close_cycle.
Qed.

Lemma detector_keeps_points (P : rfc_value_tuple_s -> Prop) c fl :
  residue c <> None ->
  (forall i, (i < chain_len c)%nat -> P (residue_at c i)) ->
  forall i, (i < chain_len (RFC_cycle_find c fl))%nat ->
            P (residue_at (RFC_cycle_find c fl) i).
Proof.
  intros Hres Hall.
  apply cut_keeps_points with (c := c); [| |exact Hall].
  - apply (detector_loop_result fl (residue_cnt c) c Hres).
  - apply (untouched_state _ _ (untouched_cycle_find c fl)).
Qed.

Lemma detector_keeps_tuples (P : rfc_value_tuple_s -> Prop) c fl :
  tuples_hold P c -> tuples_hold P (RFC_cycle_find c fl).
Proof.
  intros (Hres & Hall & Hst).
  destruct (untouched_state _ _ (untouched_cycle_find c fl)) as (Es & _ & Ei).
  split; [now apply residue_some_loop|]. split; [now apply detector_keeps_points|].
  rewrite Es, Ei.
  assert (residue_cnt c = 0%nat -> residue_cnt (RFC_cycle_find c fl) = 0%nat) as H0.
  { intros H. unfold RFC_cycle_find, RFC_cycle_find_4ptm. now rewrite H. }
  destruct (state c); auto. destruct Hst as (? & ? & ?). auto.
Qed.

Lemma remove_keeps_tuples (P : rfc_value_tuple_s -> Prop) c :
  tuples_hold P c -> (1 < residue_cnt c)%nat ->
  tuples_hold P (RFC_residue_remove_item c 0 1).
Proof.
  intros (Hres & Hall & Hst) Hn.
  destruct (untouched_state _ _ (untouched_remove_item c 0 1)) as (Es & _ & Ei).
  unfold tuples_hold, chain_len in *. rewrite Es, Ei.
  unfold RFC_residue_remove_item. cbv zeta. cbn [Nat.add].
  change (residue_cnt (set_residue_cnt ?x ?n)) with n.
  change (residue (set_residue_cnt ?x ?n)) with (residue x).
  change (residue_at (set_residue_cnt ?x ?n)) with (residue_at x).
  set (m := ((if state_eqb (state c) RFC_STATE_BUSY_INTERIM
              then S (residue_cnt c) else residue_cnt c) - 1)%nat) in *.
  destruct (shift_down m c Hres) as (H1 & Ecnt & H2).
  set (c1 := fold_left _ _ c) in *.
  split; [exact H1|]. rewrite Ecnt. split.
  - intros i Hi. rewrite H2. subst m.
    destruct (state_eqb (state c) RFC_STATE_BUSY_INTERIM);
      destruct (Nat.ltb_spec i (S (residue_cnt c) - 1)),
               (Nat.ltb_spec i (residue_cnt c - 1)); apply Hall; lia.
  - destruct (state c); auto; lia.
Qed.

Lemma feed_once_keeps_tuples (P : rfc_value_tuple_s -> Prop) c pt fl :
  P pt -> tuples_hold P c -> tuples_hold P (snd (RFC_feed_once c pt fl)).
Proof.
  intros Hpt H. pose proof (filter_keeps_tuples P c pt Hpt H) as H1.
  unfold RFC_feed_once.
  destruct (RFC_feed_filter_pt c pt) as [c' [i|]]; cbn [fst snd] in *; [|assumption].
  destruct (negb _); cbn [snd]; [now apply detector_keeps_tuples|].
  destruct (Nat.ltb_spec 1 (residue_cnt c')); cbn [snd];
    [now apply remove_keeps_tuples|assumption].
Qed.

Lemma tuples_hold_weaken (P Q : rfc_value_tuple_s -> Prop) c :
  (forall t, P t -> Q t) -> tuples_hold P c -> tuples_hold Q c.
Proof.
  intros HPQ (Hres & Hall & Hst). split; [exact Hres|]. split; [auto|].
  destruct (state c); auto. destruct Hst as (? & ? & ?). auto.
Qed.

Lemma quantize_configuration c c' v :
  configuration c' = configuration c -> QUANTIZE c' v = QUANTIZE c v.
Proof.
  unfold configuration, QUANTIZE. intros [= _ _ _ _ _ _ _ -> -> _ _ _ _ _ _]. reflexivity.
Qed.

Lemma sample_of_more c p0 stream more t :
  sample_of c p0 stream t -> sample_of c p0 (stream ++ more) t.
Proof.
  intros (Hp & Hs & Hc). split; [|split; [|exact Hc]].
  - rewrite length_app, Nat2Z.inj_add. lia.
  - unfold sample_at in *. rewrite nth_error_app1; [exact Hs|].
    apply nth_error_Some. now rewrite Hs.
Qed.

Lemma feed_loop_keeps_stream c0 p0 data : forall stream c,
  stream_inv c0 p0 stream c ->
  stream_inv c0 p0 (stream ++ data) (snd (RFC_feed_loop c data)).
Proof.
  induction data as [|v data IH]; intros stream c H; cbn [RFC_feed_loop snd].
  - now rewrite app_nil_r.
  - destruct H as (Ht & Hp & Hc).
    set (c1 := with_internal c _).
    set (tp := {| value := v; cls := _; pos := _ |}).
    pose proof (fst_feed_once c1 tp (Internal.flags (internal c1))) as Hok.
    pose proof (feed_once_keeps_tuples (sample_of c0 p0 (stream ++ [v])) c1 tp
                  (Internal.flags (internal c1))) as Hinv.
    pose proof (pos_feed_once c1 tp (Internal.flags (internal c1))) as Hpos.
    pose proof (configuration_feed_once c1 tp (Internal.flags (internal c1))) as Hcfg.
    destruct (RFC_feed_once c1 tp (Internal.flags (internal c1))) as [ok c2].
    cbn [fst snd] in *. subst ok.
    replace (stream ++ v :: data) with ((stream ++ [v]) ++ data)
      by (rewrite <- app_assoc; reflexivity).
    apply IH. split; [|split].
    + apply Hinv.
      * subst tp c1. unfold sample_of. cbn_ctx. rewrite Hp, length_app, Nat2Z.inj_add.
        cbn [length Z.of_nat Pos.of_succ_nat]. split; [lia|]. split.
        -- unfold sample_at.
           replace (Z.to_nat (p0 + Z.of_nat (length stream) + 1 - p0 - 1)) with (length stream)
             by lia.
           rewrite nth_error_app2 by lia. rewrite Nat.sub_diag. reflexivity.
        -- apply quantize_configuration. rewrite <- Hc. reflexivity.
      * apply tuples_hold_weaken with (P := sample_of c0 p0 stream);
          [intros t; apply sample_of_more|exact Ht].
    + rewrite Hpos. subst c1. cbn_ctx. rewrite Hp, length_app, Nat2Z.inj_add.
      cbn [length Z.of_nat Pos.of_succ_nat]. lia.
    + rewrite Hcfg. subst c1. rewrite <- Hc. reflexivity.
Qed.

Lemma tuples_hold_feeding P c : tuples_hold P c -> feeding_state (state c) = true.
Proof. intros (_ & _ & H). destruct (state c); try contradiction; reflexivity. Qed.

Lemma feed_keeps_stream c0 p0 stream c data :
  version_ok c0 = true -> stream_inv c0 p0 stream c ->
  stream_inv c0 p0 (stream ++ data) (snd (feed c data)).
Proof.
  intros Hv H. rewrite feed_unfold.
  destruct H as (Ht & Hp & Hc).
  rewrite (configuration_version_ok _ _ Hc), Hv.
  rewrite (feeding_state_accepted _ (tuples_hold_feeding _ _ Ht)). cbn [negb].
  apply feed_loop_keeps_stream. now split.
Qed.

Lemma feed_chunks_keep_stream c0 p0 chunks : forall stream c,
  version_ok c0 = true -> stream_inv c0 p0 stream c ->
  stream_inv c0 p0 (stream ++ concat chunks) (feed_chunks c chunks).
Proof.
  unfold feed_chunks.
  induction chunks as [|a chunks IH]; intros stream c Hv H; cbn [fold_left concat].
  - now rewrite app_nil_r.
  - rewrite app_assoc. apply IH; [exact Hv|]. now apply feed_keeps_stream.
Qed.

(** [RFC_finalize] with NONE or IGNORE on a context that takes samples. *)
Lemma finalize_ignore_unfold c m :
  version_ok c = true -> feeding_state (state c) = true -> ignores_residue m = true ->
  RFC_finalize c m =
  (true, set_state
           (if class_count (promote_interim_spec c) =? 0
            then set_residue_cnt (set_state (promote_interim_spec c) RFC_STATE_FINALIZE) 0%nat
            else set_state (promote_interim_spec c) RFC_STATE_FINALIZE)
           RFC_STATE_FINISHED).
Proof.
  intros Hv Hs Hm. unfold RFC_finalize. rewrite Hv. cbn [negb].
  pose proof (feeding_state_accepted _ Hs) as Ha. unfold state_accepted in Ha.
  apply negb_true_iff in Ha. rewrite Ha. cbv zeta.
  assert (RFC_finalize_res_ignore c (Internal.flags (internal c))
          = (true, set_state (promote_interim_spec c) RFC_STATE_FINALIZE)) as ->.
  { unfold RFC_finalize_res_ignore. now apply feed_finalize_is_promote. }
  destruct m; try discriminate; reflexivity.
Qed.

Lemma finalize_keeps_points (P : rfc_value_tuple_s -> Prop) c m :
  tuples_hold P c -> ignores_residue m = true ->
  forall i, (i < residue_cnt (snd (RFC_finalize c m)))%nat ->
            P (residue_at (snd (RFC_finalize c m)) i).
Proof.
  intros Ht Hm.
  pose proof (tuples_hold_feeding _ _ Ht) as Hs.
  destruct Ht as (Hres & Hall & _).
  pose proof (chain_len_confirmed c) as Hle.
  destruct (version_ok c) eqn:Hv.
  2:{ unfold RFC_finalize. rewrite Hv. cbn [negb snd]. intros i Hi. apply Hall.
      cbn_ctx in Hi. lia. }
  rewrite (finalize_ignore_unfold c m Hv Hs Hm). cbn [snd].
  destruct (class_count (promote_interim_spec c) =? 0).
  { intros i Hi. cbn_ctx in Hi. lia. }
  change (forall i, (i < residue_cnt (promote_interim_spec c))%nat ->
                    P (residue_at (promote_interim_spec c) i)).
  unfold promote_interim_spec.
  destruct (state_eqb (state c) RFC_STATE_BUSY_INTERIM) eqn:E.
  2:{ intros i Hi. apply Hall. lia. }
  set (c' := set_state (set_residue_cnt c (S (residue_cnt c))) RFC_STATE_BUSY).
  intros i Hi.
  apply (detector_keeps_points P c' (Internal.flags (internal c))).
  - exact Hres.
  - intros j Hj. apply (Hall j). unfold chain_len in *. rewrite E.
    subst c'. cbn_ctx in Hj. cbn [state_eqb state_rank Z.eqb Pos.eqb] in Hj. exact Hj.
  - pose proof (chain_len_confirmed (RFC_cycle_find c' (Internal.flags (internal c)))).
    unfold RFC_cycle_find in *. lia.
Qed.

(** X10.  Every point of the residue is a sample of the stream: after a successful
    init and any sequence of [RFC_feed] calls the position counter has
    advanced by the number of samples fed, and every point of the residue
    (the interim point included) carries the value of the sample fed at its
    own position [pos], counted from the position counter at init on (from 1
    for a zeroed context), and the class [QUANTIZE] gives that value.  The
    same holds for the residue finalize with NONE or IGNORE leaves. *)
Theorem residue_holds_samples c0 cc w o h flags c chunks :
  RFC_init c0 cc w o h flags = (true, c) ->
  let p0 := Internal.pos (internal c) in
  let stream := concat chunks in
  let c1 := feed_chunks c chunks in
  Internal.pos (internal c1) = p0 + Z.of_nat (length stream)
  /\ (forall i, (i < chain_len c1)%nat -> sample_of c p0 stream (residue_at c1 i))
  /\ (forall m i, ignores_residue m = true ->
        (i < residue_cnt (snd (RFC_finalize c1 m)))%nat ->
        sample_of c p0 stream (residue_at (snd (RFC_finalize c1 m)) i)).
Proof.
  intros Hinit. cbv zeta.
  destruct (init_success _ _ _ _ _ _ _ Hinit)
    as (_ & (Hv & Hs & _) & _ & (Hcnt & _ & Hres) & _).
  assert (H0 : stream_inv c (Internal.pos (internal c)) [] c).
  { split; [|split; [cbn; lia|reflexivity]].
    split; [rewrite Hres; discriminate|]. rewrite Hs. split; [|exact Hcnt].
    intros i Hi. unfold chain_len in Hi. rewrite Hs, Hcnt in Hi.
    cbn [state_eqb state_rank Z.eqb Pos.eqb] in Hi. lia. }
  pose proof (feed_chunks_keep_stream c (Internal.pos (internal c)) chunks [] c Hv H0)
    as (Ht & Hp & _).
  cbn [app] in *. split; [exact Hp|]. split.
  - apply Ht.
  - intros m i Hm. now apply finalize_keeps_points.
Qed.

Lemma residue_holds_samples_witness :
  RFC_init ctx_zero 4 1%Q (1 # 2)%Q (99 # 100)%Q RFC_FLAGS_DEFAULT
  = (true, ctx_4_classes RFC_FLAGS_DEFAULT)
  /\ sample_of (ctx_4_classes RFC_FLAGS_DEFAULT)
       (Internal.pos (internal (ctx_4_classes RFC_FLAGS_DEFAULT))) (concat [data_up])
       (residue_at (feed_chunks (ctx_4_classes RFC_FLAGS_DEFAULT) [data_up]) 0).
Proof.
  assert (Hinit : RFC_init ctx_zero 4 1%Q (1 # 2)%Q (99 # 100)%Q RFC_FLAGS_DEFAULT
                  = (true, ctx_4_classes RFC_FLAGS_DEFAULT)).
  { unfold ctx_4_classes.
    assert (Hok : fst (RFC_init ctx_zero 4 1%Q (1 # 2)%Q (99 # 100)%Q RFC_FLAGS_DEFAULT)
                  = true) by (vm_compute; reflexivity).
    destruct (RFC_init ctx_zero 4 1%Q (1 # 2)%Q (99 # 100)%Q RFC_FLAGS_DEFAULT).
    cbn [fst snd] in *. now subst. }
  split; [exact Hinit|].
  pose proof (proj1 (proj2 (residue_holds_samples _ _ _ _ _ _ _ [data_up] Hinit)) 0%nat) as H.
  apply H. vm_compute. lia.
Defined.

(** ** Counting without classes *)

Lemma buffer_length_residue_put c i v :
  (i < residue_buffer_length c)%nat ->
  residue_buffer_length (residue_put c i v) = residue_buffer_length c.
Proof.
  unfold residue_buffer_length. rewrite residue_residue_put.
  destruct (residue c) as [buf|]; cbn [option_map]; [|reflexivity].
  intros H. rewrite length_poke. lia.
Qed.

Lemma shift_down_length m : forall c,
  (m <= residue_buffer_length c)%nat ->
  residue_buffer_length
    (fold_left (fun c k => residue_put c k (residue_at c (S k))) (seq 0 m) c)
  = residue_buffer_length c.
Proof.
  induction m as [|m IH]; intros c H; [reflexivity|].
  rewrite seq_S, fold_left_app. cbn [fold_left Nat.add].
  rewrite buffer_length_residue_put; rewrite IH; lia.
Qed.

Lemma filter_no_classes s0 c pt :
  no_classes_inv s0 c ->
  let c' := fst (RFC_feed_filter_pt c pt) in
  class_count c' = 0 /\ residue_buffer_length c' = NUMEL_internal_residue
  /\ sinks c' = s0
  /\ match snd (RFC_feed_filter_pt c pt) with
     | None => no_classes_inv s0 c'
     | Some _ => state c' = RFC_STATE_BUSY_INTERIM
                 /\ (residue_cnt c' = 1%nat \/ residue_cnt c' = 2%nat)
     end.
Proof.
  intros (Hcc & Hlen & Hsinks & Hst). cbv zeta.
  pose proof (configuration_filter c pt) as Hcfg.
  pose proof (sinks_filter c pt) as Hs.
  assert (class_count (fst (RFC_feed_filter_pt c pt)) = 0) as Hcc'.
  { rewrite <- Hcc. apply parameters_class_count, configuration_parameters, Hcfg. }
  split; [exact Hcc'|]. rewrite Hs. clear Hcfg Hs.
  revert Hcc'. rewrite filter_unfold. cbv zeta. intros Hcc'.
  unfold NUMEL_internal_residue in *.
  destruct (state c) eqn:Es; try contradiction;
    cbn [state_lt state_eqb state_rank Z.ltb Z.eqb Z.compare Pos.compare Pos.compare_cont
         Pos.eqb fst snd] in *.
  - (* INIT *)
    repeat split; auto.
  - (* BUSY *)
    assert (Hemit : forall c1 k,
      residue_buffer_length c1 = 3%nat -> residue_cnt c1 = 0%nat ->
      residue_buffer_length (filter_append (filter_emit_first c1 k) pt) = 3%nat
      /\ state (filter_append (filter_emit_first c1 k) pt) = RFC_STATE_BUSY_INTERIM
      /\ residue_cnt (filter_append (filter_emit_first c1 k) pt) = 1%nat).
    { intros c1 k Hl Hc. unfold filter_append, filter_emit_first.
      rewrite !residue_put_eq. cbn_ctx. rewrite Hc. split; [|split; reflexivity].
      unfold residue_buffer_length in *. cbn_ctx.
      destruct (residue c1) as [buf|]; cbn [option_map] in *; [|discriminate].
      rewrite !length_poke. lia. }
    destruct (Qlt_bool (value pt) _).
    + destruct (Qlt_bool (hysteresis c) _); cbn [fst snd].
      * destruct (Hemit (with_internal c (fun i => Internal.set_extrema0 i pt)) 1 Hlen Hst)
          as (? & ? & ?). auto.
      * repeat split; auto. cbn_ctx. now rewrite Es.
    + destruct (Qlt_bool (value (Internal.extrema1 (internal c))) (value pt)).
      * destruct (Qlt_bool (hysteresis c) _); cbn [fst snd].
        -- destruct (Hemit (with_internal c (fun i => Internal.set_extrema1 i pt)) 0 Hlen Hst)
             as (? & ? & ?). auto.
        -- repeat split; auto. cbn_ctx. now rewrite Es.
      * cbn [fst snd]. repeat split; auto. now rewrite Es.
  - (* BUSY_INTERIM *)
    assert (Hsame : no_classes_inv s0 c).
    { repeat split; auto. now rewrite Es. }
    destruct (_ =? Internal.slope (internal c)).
    + destruct (negb _); cbn [fst snd];
        [|split; [exact Hlen|split; [exact Hsinks|exact Hsame]]].
      split; [rewrite buffer_length_residue_put; lia|]. split; [exact Hsinks|].
      unfold no_classes_inv, NUMEL_internal_residue.
      split; [exact Hcc'|]. split; [rewrite buffer_length_residue_put; lia|].
      split; [rewrite residue_put_eq; exact Hsinks|].
      destruct (untouched_state _ _ (untouched_residue_put c (residue_cnt c) pt)) as (-> & _).
      rewrite Es, residue_cnt_residue_put. exact Hst.
    + destruct (Qlt_bool (hysteresis c) _); cbn [fst snd];
        [|split; [exact Hlen|split; [exact Hsinks|exact Hsame]]].
      unfold filter_append. rewrite residue_put_eq. cbn_ctx. rewrite Hst.
      unfold residue_buffer_length in *. cbn_ctx.
      destruct (residue c) as [buf|]; cbn [option_map] in *; [|discriminate].
      rewrite length_poke. repeat split; auto. lia.
Qed.

Lemma feed_once_no_classes s0 c pt fl :
  no_classes_inv s0 c -> no_classes_inv s0 (snd (RFC_feed_once c pt fl)).
Proof.
  intros H. pose proof (filter_no_classes s0 c pt H) as H1. cbv zeta in H1.
  unfold RFC_feed_once.
  destruct (RFC_feed_filter_pt c pt) as [c' [i|]]; cbn [fst snd] in *.
  2:{ now destruct H1 as (_ & _ & _ & ?). }
  destruct H1 as (Hcc & Hlen & Hsinks & Hs & Hcnt).
  rewrite Hcc. cbn [Z.eqb negb].
  destruct (Nat.ltb_spec 1 (residue_cnt c')) as [Hn|Hn]; cbn [snd].
  - assert (residue_cnt c' = 2%nat) as E by lia.
    pose proof (untouched_remove_item c' 0 1) as HU.
    destruct (untouched_state _ _ HU) as (Es & _).
    destruct (remove_item_frame c' 0 1) as [Hcfg Hsk].
    split; [|split; [|split]].
    + rewrite <- Hcc. apply parameters_class_count, configuration_parameters, Hcfg.
    + unfold RFC_residue_remove_item. cbv zeta. cbn [Nat.add]. rewrite Hs, E.
      cbn [state_eqb state_rank Z.eqb Pos.eqb Nat.sub].
      change (residue_buffer_length (set_residue_cnt ?x ?n)) with (residue_buffer_length x).
      rewrite shift_down_length; [exact Hlen|]. rewrite Hlen. unfold NUMEL_internal_residue. lia.
    + now rewrite Hsk.
    + rewrite Es, Hs. unfold RFC_residue_remove_item. cbv zeta. cbn [Nat.add].
      change (residue_cnt (set_residue_cnt ?x ?n)) with n. fold (chain_len c').
      destruct (shift_down (chain_len c' - 1) c') as (_ & -> & _).
      * intros N. unfold residue_buffer_length in Hlen. rewrite N in Hlen. discriminate.
      * lia.
  - repeat split; auto. rewrite Hs. lia.
Qed.

Lemma feed_loop_no_classes s0 data : forall c,
  no_classes_inv s0 c -> no_classes_inv s0 (snd (RFC_feed_loop c data)).
Proof.
  induction data as [|v data IH]; intros c H; cbn [RFC_feed_loop snd]; [assumption|].
  set (c1 := with_internal c _).
  set (tp := {| value := v; cls := _; pos := _ |}).
  pose proof (fst_feed_once c1 tp (Internal.flags (internal c1))) as Hok.
  pose proof (feed_once_no_classes s0 c1 tp (Internal.flags (internal c1)) H) as Hinv.
  destruct (RFC_feed_once c1 tp (Internal.flags (internal c1))) as [ok c2].
  cbn [fst snd] in *. subst ok. now apply IH.
Qed.

Lemma feed_chunks_no_classes s0 chunks : forall c,
  no_classes_inv s0 c -> no_classes_inv s0 (feed_chunks c chunks).
Proof.
  unfold feed_chunks.
  induction chunks as [|a chunks IH]; intros c H; cbn [fold_left]; [assumption|].
  apply IH. rewrite feed_unfold.
  destruct (negb (version_ok c)).
  { destruct H as (? & ? & ? & ?). repeat split; auto. }
  destruct (negb (state_accepted (state c))); [exact H|].
  now apply feed_loop_no_classes.
Qed.

(** X11.  Without classes ([class_count = 0]) nothing is counted and the memory
    stays bounded: after any sequence of [RFC_feed] calls the residue holds
    one confirmed point at most (the older ones are dropped), every write
    stayed inside the three embedded slots, and the matrix and the pseudo
    damage are as init left them. *)
Theorem no_classes_bounded c0 w o h flags c chunks :
  RFC_init c0 0 w o h flags = (true, c) ->
  length (Internal.residue (internal c0)) = NUMEL_internal_residue ->
  let c1 := feed_chunks c chunks in
  (residue_cnt c1 <= 1)%nat
  /\ residue_buffer_length c1 = NUMEL_internal_residue
  /\ residue_cap c = NUMEL_internal_residue
  /\ rfm c1 = rfm c /\ pseudo_damage c1 = 0%R.
Proof.
  intros Hinit Hlen. cbv zeta.
  destruct (init_success _ _ _ _ _ _ _ Hinit)
    as (_ & (_ & Hs & _) & Hp & (Hcnt & Hcap & Hres) & (Hpd & _) & _).
  assert (H0 : no_classes_inv (sinks c) c).
  { split; [|split; [|split; [reflexivity|]]].
    - apply (f_equal (fun p => fst (fst (fst (snd (fst (fst p))))))) in Hp. exact Hp.
    - unfold residue_buffer_length. rewrite Hres. exact Hlen.
    - rewrite Hs. exact Hcnt. }
  destruct (feed_chunks_no_classes (sinks c) chunks c H0) as (_ & Hl & Hsk & Hst).
  split; [destruct (state (feed_chunks c chunks)); try contradiction; lia|].
  split; [exact Hl|]. split; [exact Hcap|].
  unfold sinks in Hsk. injection Hsk as -> ->. split; [reflexivity|exact Hpd].
Qed.

Lemma no_classes_bounded_witness :
  (residue_cnt (feed_chunks (snd (RFC_init ctx_zero 0 1%Q 0%Q (99 # 100)%Q RFC_FLAGS_DEFAULT))
                  [data_stress]) <= 1)%nat
  /\ residue_buffer_length
       (feed_chunks (snd (RFC_init ctx_zero 0 1%Q 0%Q (99 # 100)%Q RFC_FLAGS_DEFAULT))
          [data_stress]) = NUMEL_internal_residue.
Proof.
  assert (Hinit : RFC_init ctx_zero 0 1%Q 0%Q (99 # 100)%Q RFC_FLAGS_DEFAULT
                  = (true, snd (RFC_init ctx_zero 0 1%Q 0%Q (99 # 100)%Q RFC_FLAGS_DEFAULT))).
  { assert (Hok : fst (RFC_init ctx_zero 0 1%Q 0%Q (99 # 100)%Q RFC_FLAGS_DEFAULT)
                  = true) by (vm_compute; reflexivity).
    destruct (RFC_init ctx_zero 0 1%Q 0%Q (99 # 100)%Q RFC_FLAGS_DEFAULT).
    cbn [fst snd] in *. now subst. }
  pose proof (no_classes_bounded _ _ _ _ _ _ [data_stress] Hinit eq_refl) as (H1 & H2 & _).
  exact (conj H1 H2).
Defined.

(** ** The counters of the matrix *)

Lemma counters_grow_trans a b c :
  counters_grow a b -> counters_grow b c -> counters_grow a c.
Proof.
  intros [P1 D1] [P2 D2]. split; [congruence|]. intros Hcc Hinc i Hi.
  destruct (parameters_increments _ _ P1) as [_ E2].
  pose proof (parameters_class_count _ _ P1) as E3.
  destruct (D1 Hcc Hinc i Hi) as (k1 & Hk1 & F1).
  destruct (D2 ltac:(now rewrite E3) ltac:(now rewrite E2) i Hi) as (k2 & Hk2 & F2).
  exists (k1 + k2). rewrite F2, F1, E2. split; [lia|ring].
Qed.

Lemma counters_grow_frame c c' :
  parameters c' = parameters c -> sinks c' = sinks c -> counters_grow c c'.
Proof.
  intros P S. split; [exact P|]. intros _ _ i Hi. exists 0.
  unfold sinks in S. injection S as Em _. unfold rfm_at. rewrite Em. split; [lia|ring].
Qed.

Lemma counters_grow_counts c from to next flags :
  counters_grow c (RFC_cycle_process_counts c from to next flags).
Proof.
  split; [apply parameters_process_counts|]. intros Hcc Hinc i Hi.
  rewrite (rfm_process_counts c from to next flags Hcc i Hi).
  destruct (_ && _); [exists 1|exists 0]; split; try lia; ring.
Qed.

Lemma counters_grow_calls calls : forall c, counters_grow c (run_calls c calls).
Proof.
  induction calls as [|call calls IH]; intros c; cbn [run_calls fold_left].
  - now apply counters_grow_frame.
  - eapply counters_grow_trans; [|apply IH].
    destruct call as [data n|m]; cbn [run_call].
    + apply (lift_feed counters_grow counters_grow_trans counters_grow_frame
               counters_grow_counts).
    + apply (lift_finalize counters_grow counters_grow_trans counters_grow_frame
               counters_grow_counts).
Qed.

Lemma rfm_at_zeros n i : peek 0 (repeat 0 n) i = 0.
Proof.
  unfold peek. destruct (Nat.lt_ge_cases i n);
    [now apply nth_repeat_lt | apply nth_overflow; now rewrite repeat_length].
Qed.

(** X12.  The counters of the rainflow matrix only grow, by whole full-cycle
    increments: after a successful init with classes and any sequence of
    feed and finalize calls that ends with the residue in bounds (no write
    went beyond the capacity of the residue, see [in_bounds_all_along]) every
    counter is its value at init plus a whole number of
    [RFC_FULL_CYCLE_INCREMENT]; where init allocated the matrix (flag
    RFC_FLAGS_COUNT_RFM) every counter is such a multiple, so [full_inc]
    divides the counts cleanly. *)
Theorem rfm_counts_whole_cycles c0 cc w o h flags c calls i :
  RFC_init c0 cc w o h flags = (true, c) -> 0 < cc -> 0 <= i ->
  residue_in_bounds (run_calls c calls) ->
  exists k, 0 <= k
    /\ rfm_at (run_calls c calls) i = rfm_at c i + k * RFC_FULL_CYCLE_INCREMENT
    /\ (Z.land (init_flags flags) RFC_FLAGS_COUNT_RFM <> 0 ->
        rfm_at (run_calls c calls) i = k * RFC_FULL_CYCLE_INCREMENT).
Proof.
  intros Hinit Hcc Hi _.
  destruct (init_success _ _ _ _ _ _ _ Hinit)
    as ((_ & _ & Hvalid) & _ & Hp & _ & (_ & Hrfm) & _).
  pose proof (f_equal (fun p => snd (fst (fst (fst p)))) Hp) as Hcurr.
  pose proof (f_equal (fun p => fst (fst (fst (snd (fst (fst p)))))) Hp) as Hcls.
  unfold parameters in Hcurr, Hcls. cbn [fst snd] in Hcurr, Hcls.
  destruct (counters_grow_calls calls c) as [_ H].
  destruct (H ltac:(rewrite Hcls; lia) ltac:(rewrite Hcurr; discriminate) i Hi)
    as (k & Hk & E).
  rewrite Hcurr in E. exists k. split; [exact Hk|]. split; [exact E|].
  intros Hfl. rewrite E. unfold rfm_at at 1. rewrite Hrfm.
  unfold init_flags in Hfl.
  destruct (Z.eqb_spec cc 0) as [|_]; [lia|].
  destruct (Z.eqb_spec (Z.land (if flags =? RFC_FLAGS_DEFAULT
               then Z.lor RFC_FLAGS_COUNT_RFM RFC_FLAGS_COUNT_DAMAGE else flags)
               RFC_FLAGS_COUNT_RFM) 0) as [|_]; [contradiction|].
  cbn [negb andb]. rewrite rfm_at_zeros. ring.
Qed.

Lemma rfm_counts_whole_cycles_witness :
  residue_in_bounds (run_calls (ctx_4_classes RFC_FLAGS_DEFAULT)
                       [call_feed (Some data_up) 4; call_finalize RFC_RES_NONE])
  /\ exists k, 0 <= k
    /\ rfm_at (run_calls (ctx_4_classes RFC_FLAGS_DEFAULT)
                 [call_feed (Some data_up) 4; call_finalize RFC_RES_NONE]) 9
       = rfm_at (ctx_4_classes RFC_FLAGS_DEFAULT) 9 + k * RFC_FULL_CYCLE_INCREMENT.
Proof.
  assert (Hinit : RFC_init ctx_zero 4 1%Q (1 # 2)%Q (99 # 100)%Q RFC_FLAGS_DEFAULT
                  = (true, ctx_4_classes RFC_FLAGS_DEFAULT)).
  { unfold ctx_4_classes.
    assert (Hok : fst (RFC_init ctx_zero 4 1%Q (1 # 2)%Q (99 # 100)%Q RFC_FLAGS_DEFAULT)
                  = true) by (vm_compute; reflexivity).
    destruct (RFC_init ctx_zero 4 1%Q (1 # 2)%Q (99 # 100)%Q RFC_FLAGS_DEFAULT).
    cbn [fst snd] in *. now subst. }
  assert (Hin : residue_in_bounds
                  (run_calls (ctx_4_classes RFC_FLAGS_DEFAULT)
                     [call_feed (Some data_up) 4; call_finalize RFC_RES_NONE]))
    by (vm_compute; lia).
  split; [exact Hin|].
  destruct (rfm_counts_whole_cycles _ _ _ _ _ _ _
              [call_feed (Some data_up) 4; call_finalize RFC_RES_NONE] 9
              Hinit ltac:(lia) ltac:(lia) Hin) as (k & Hk & E & _).
  exists k. exact (conj Hk E).
Defined.

(** ** The pseudo damage and the matrix *)

Section LiftingOwnFlags.

Variable R : rfc_ctx_s -> rfc_ctx_s -> Prop.

Hypothesis R_trans : forall a b c, R a b -> R b c -> R a c.

Hypothesis R_frame :
  forall c c', parameters c' = parameters c -> sinks c' = sinks c -> R c c'.

Hypothesis R_counts :
  forall c from to next,
    R c (RFC_cycle_process_counts c from to next (Internal.flags (internal c))).

Lemma own_close_cycle c : R c (close_cycle_spec c (Internal.flags (internal c))).
Proof.
  unfold close_cycle_spec. cbv zeta.
  eapply R_trans; [apply R_counts|].
  apply R_frame; rewrite !residue_put_eq; cbn [state set_residue];
    destruct (state_eqb _ _); rewrite ?residue_put_eq; reflexivity.
Qed.

Lemma own_loop fuel : forall c,
  R c (cycle_find_4ptm_loop fuel c (Internal.flags (internal c))).
Proof.
  induction fuel as [|fuel IH]; intros c; cbn [cycle_find_4ptm_loop];
    [now apply R_frame|].
  destruct (Nat.leb_spec 4 (residue_cnt c)) as [Hn|]; [|now apply R_frame].
  rewrite (body_is_close_cycle c _ Hn). cbv zeta.
  destruct (closed_cycle _ _ _ _); [|now apply R_frame].
  eapply R_trans; [apply own_close_cycle|].
  pose proof (IH (close_cycle_spec c (Internal.flags (internal c)))) as H.
  destruct (untouched_state _ _ (untouched_close_cycle c (Internal.flags (internal c))))
    as (_ & _ & Ei).
  rewrite Ei in H. exact H.
Qed.

Lemma own_cycle_find c : R c (RFC_cycle_find c (Internal.flags (internal c))).
Proof. apply own_loop. Qed.

Lemma flags_filter c pt :
  Internal.flags (internal (fst (RFC_feed_filter_pt c pt))) = Internal.flags (internal c).
Proof.
  pose proof (configuration_filter c pt) as H. unfold configuration in H.
  now injection H.
Qed.

Lemma own_feed_once c pt : R c (snd (RFC_feed_once c pt (Internal.flags (internal c)))).
Proof.
  assert (Hf : R c (fst (RFC_feed_filter_pt c pt))).
  { apply R_frame; [apply configuration_parameters, configuration_filter|apply sinks_filter]. }
  destruct (feed_once_cases c pt (Internal.flags (internal c))) as [-> | [-> | ->]];
    [exact Hf| |].
  - eapply R_trans; [exact Hf|]. rewrite <- (flags_filter c pt). apply own_cycle_find.
  - eapply R_trans; [exact Hf|].
    destruct (remove_item_frame (fst (RFC_feed_filter_pt c pt)) 0 1).
    apply R_frame; [now apply configuration_parameters|assumption].
Qed.

Lemma own_feed_loop data : forall c, R c (snd (RFC_feed_loop c data)).
Proof.
  induction data as [|v data IH]; intros c; cbn [RFC_feed_loop]; [now apply R_frame|].
  set (c1 := with_internal c _).
  set (tp := {| value := v; cls := _; pos := _ |}).
  pose proof (fst_feed_once c1 tp (Internal.flags (internal c1))) as Hok.
  pose proof (own_feed_once c1 tp) as Hstep.
  destruct (RFC_feed_once c1 tp (Internal.flags (internal c1))) as [ok c2].
  cbn [fst snd] in *. subst ok.
  eapply R_trans; [|apply IH].
  eapply R_trans; [|exact Hstep].
  now apply R_frame.
Qed.

Lemma own_feed c data data_count : R c (snd (RFC_feed c data data_count)).
Proof.
  unfold RFC_feed. repeat break_if; try now apply R_frame.
  apply own_feed_loop.
Qed.

Lemma own_finalize c residual_method : R c (snd (RFC_finalize c residual_method)).
Proof.
  unfold RFC_finalize. repeat break_if; try now apply R_frame.
  assert (Hfin : R c (snd (RFC_feed_finalize c))).
  { unfold RFC_feed_finalize. repeat break_if; cbn [snd]; try now apply R_frame.
    eapply (R_trans _ (RFC_cycle_find _ _)); [|now apply R_frame].
    eapply R_trans; [|apply own_cycle_find].
    now apply R_frame. }
  destruct residual_method as [| |code]; unfold RFC_finalize_res_ignore.
  1, 2: destruct (RFC_feed_finalize c) as [ok c1]; cbn [snd] in *;
        (eapply R_trans; [exact Hfin|]);
        destruct (class_count c1 =? 0); now apply R_frame.
  cbn [snd]. destruct (class_count _ =? 0); now apply R_frame.
Qed.

Lemma own_calls calls : forall c, R c (run_calls c calls).
Proof.
  induction calls as [|call calls IH]; intros c; cbn [run_calls fold_left].
  - now apply R_frame.
  - eapply R_trans; [|apply IH].
    destruct call as [data n|m]; cbn [run_call]; [apply own_feed|apply own_finalize].
Qed.

End LiftingOwnFlags.

Lemma weighted_sum_ext w w' m : forall i,
  (forall j, w' j = w j) -> weighted_sum w' m i = weighted_sum w m i.
Proof.
  induction m as [|x m IH]; intros i H; cbn [weighted_sum]; [reflexivity|].
  now rewrite H, IH.
Qed.

Lemma weighted_sum_zeros w n : forall i, weighted_sum w (repeat 0 n) i = 0%R.
Proof.
  induction n as [|n IH]; intros i; cbn [repeat weighted_sum]; [reflexivity|].
  rewrite IH. Lra.lra.
Qed.

Lemma weighted_sum_poke w m : forall idx i d,
  (idx < length m)%nat ->
  weighted_sum w (poke 0 m idx (peek 0 m idx + d)) i
  = (weighted_sum w m i + IZR d * w (i + idx)%nat)%R.
Proof.
  induction m as [|x m IH]; intros idx i d H; cbn [length] in H; [lia|].
  destruct idx as [|idx].
  - cbn [poke peek nth weighted_sum]. rewrite plus_IZR, Nat.add_0_r. Lra.lra.
  - cbn [poke weighted_sum]. unfold peek in *. cbn [nth].
    rewrite IH by lia. replace (S i + idx)%nat with (i + S idx)%nat by lia. Lra.lra.
Qed.

Lemma cell_weight_parameters c c' i :
  parameters c' = parameters c -> cell_weight c' i = cell_weight c i.
Proof.
  unfold parameters, cell_weight, RFC_damage_calc, RFC_damage_calc_amplitude.
  intros [= -> _ _ -> -> _ _ -> -> -> _]. reflexivity.
Qed.

Lemma matrix_damage_frame c c' :
  parameters c' = parameters c -> rfm c' = rfm c -> matrix_damage c' = matrix_damage c.
Proof.
  intros P E. unfold matrix_damage. rewrite E. destruct (rfm c); [|reflexivity].
  apply weighted_sum_ext. intros j. now apply cell_weight_parameters.
Qed.

Lemma counts_both_parameters c c' :
  parameters c' = parameters c -> counts_both c -> counts_both c'.
Proof.
  unfold parameters, counts_both. intros [= _ _ _ _ _ _ _ _ _ _ ->]. auto.
Qed.

Lemma damage_follows_trans a b c :
  damage_follows a b -> damage_follows b c -> damage_follows a c.
Proof.
  intros [P1 D1] [P2 D2]. split; [congruence|]. intros Hcc Hfi Hb Hm.
  apply D2; [now rewrite (parameters_class_count _ _ P1)| | |now apply D1].
  - now rewrite (proj1 (parameters_increments _ _ P1)).
  - now apply (counts_both_parameters a).
Qed.

Lemma damage_follows_frame c c' :
  parameters c' = parameters c -> sinks c' = sinks c -> damage_follows c c'.
Proof.
  intros P S. split; [exact P|]. intros _ _ _ ((m & Em & Hlen) & Hpd).
  unfold sinks in S. injection S as Er Ep. split.
  - exists m. rewrite Er, (parameters_class_count _ _ P). auto.
  - rewrite Ep, Hpd. symmetry. now apply matrix_damage_frame.
Qed.

Lemma cell_of_cycle c cf ct :
  0 < class_count c <= 512 -> 0 <= cf < class_count c -> 0 <= ct < class_count c ->
  cf <> ct ->
  cell_weight c (Z.to_nat (class_count c * cf + ct))
  = (RFC_damage_calc_amplitude c (cycle_amplitude c cf ct) / IZR (full_inc c))%R.
Proof.
  intros Hcc Hf Ht Hne. unfold cell_weight.
  rewrite Z2Nat.id by nia.
  assert ((class_count c * cf + ct) / class_count c = cf) as ->.
  { rewrite Z.mul_comm, Z.div_add_l by lia. rewrite Z.div_small by lia. lia. }
  assert ((class_count c * cf + ct) mod class_count c = ct) as ->.
  { rewrite Z.add_comm, Z.mul_comm, Z.mod_add by lia. apply Z.mod_small. lia. }
  unfold RFC_damage_calc. destruct (Z.eqb_spec cf ct) as [|_]; [contradiction|].
  cbn [negb fst]. rewrite !to_int_small by (change (2 ^ 31) with 2147483648; lia).
  reflexivity.
Qed.

Lemma damage_follows_counts c from to next :
  damage_follows c
    (RFC_cycle_process_counts c from to next (Internal.flags (internal c))).
Proof.
  split; [apply parameters_process_counts|].
  intros Hcc Hfi [Hr Hd] ((m & Em & Hlen) & Hpd).
  rewrite (process_counts_effect c from to next _ Hcc). cbv zeta.
  pose proof (counted_class_range c (value from) ltac:(lia)) as Hf.
  pose proof (counted_class_range c (value to) ltac:(lia)) as Ht.
  set (cf := counted_class c (value from)) in *.
  set (ct := counted_class c (value to)) in *.
  destruct (Z.eqb_spec cf ct) as [|Hne]; [split; [exists m; auto|exact Hpd]|].
  unfold damage_sink_enabled. rewrite Em.
  destruct (Z.eqb_spec (Z.land (Internal.flags (internal c)) RFC_FLAGS_COUNT_DAMAGE) 0)
    as [|_]; [contradiction|].
  destruct (Z.eqb_spec (Z.land (Internal.flags (internal c)) RFC_FLAGS_COUNT_RFM) 0)
    as [|_]; [contradiction|].
  cbn [negb].
  assert (Hidx : (Z.to_nat (class_count c * cf + ct) < length m)%nat).
  { rewrite Hlen. apply Z2Nat.inj_lt; nia. }
  split.
  - eexists. split; [reflexivity|]. cbn_ctx. rewrite length_poke. lia.
  - unfold matrix_damage. cbn_ctx.
    rewrite (weighted_sum_ext (cell_weight c)) by (intros j; reflexivity).
    rewrite weighted_sum_poke by exact Hidx. cbn [Nat.add].
    rewrite (cell_of_cycle c cf ct Hcc Hf Ht Hne).
    unfold matrix_damage in Hpd. rewrite Em in Hpd. rewrite Hpd. field.
    apply not_0_IZR. lia.
Qed.

(** X13.  The pseudo damage is the damage of the cycles in the matrix: after a
    successful init with classes and both sinks enabled, and any sequence of
    feed and finalize calls that ends with the residue in bounds (no write
    went beyond the capacity of the residue, see [in_bounds_all_along]), the
    matrix has its [class_count * class_count] cells and the pseudo damage
    equals the sum over all cells of the counter, in units of [full_inc],
    times the damage [RFC_damage_calc] gives one cycle from the cell's
    from-class to its to-class.  Reals model the doubles. *)
Theorem damage_is_matrix_damage c0 cc w o h flags c calls :
  RFC_init c0 cc w o h flags = (true, c) -> 0 < cc ->
  Z.land (init_flags flags) RFC_FLAGS_COUNT_RFM <> 0 ->
  Z.land (init_flags flags) RFC_FLAGS_COUNT_DAMAGE <> 0 ->
  residue_in_bounds (run_calls c calls) ->
  damage_matches (run_calls c calls).
Proof.
  intros Hinit Hcc Hr Hd _.
  destruct (init_success _ _ _ _ _ _ _ Hinit)
    as ((_ & _ & Hvalid) & _ & Hp & _ & (Hpd & Hrfm) & _).
  pose proof (f_equal (fun p => fst (fst (fst (fst (fst p))))) Hp) as Hfull.
  pose proof (f_equal (fun p => fst (fst (fst (snd (fst (fst p)))))) Hp) as Hcls.
  pose proof (f_equal snd Hp) as Hfl.
  unfold parameters in Hfull, Hcls, Hfl. cbn [fst snd] in Hfull, Hcls, Hfl.
  fold (init_flags flags) in Hfl, Hrfm.
  assert (Hle : cc <= 512) by (destruct Hvalid as [|[? _]]; lia).
  destruct (own_calls damage_follows damage_follows_trans damage_follows_frame
              damage_follows_counts calls c) as [_ H].
  apply H.
  - rewrite Hcls. lia.
  - rewrite Hfull. reflexivity.
  - split; rewrite Hfl; assumption.
  - destruct (Z.eqb_spec cc 0) as [|_]; [lia|].
    destruct (Z.eqb_spec (Z.land (init_flags flags) RFC_FLAGS_COUNT_RFM) 0) as [|_];
      [contradiction|].
    cbn [negb andb] in Hrfm. split.
    + eexists. split; [exact Hrfm|]. rewrite repeat_length, Hcls.
      rewrite Z.mod_small; [reflexivity|]. change (2 ^ 32) with 4294967296. nia.
    + unfold matrix_damage. rewrite Hpd, Hrfm, weighted_sum_zeros. reflexivity.
Qed.

Lemma damage_is_matrix_damage_witness :
  residue_in_bounds (run_calls (ctx_4_classes RFC_FLAGS_DEFAULT)
                       [call_feed (Some data_up) 4; call_finalize RFC_RES_NONE])
  /\ damage_matches
       (run_calls (ctx_4_classes RFC_FLAGS_DEFAULT)
          [call_feed (Some data_up) 4; call_finalize RFC_RES_NONE]).
Proof.
  assert (Hinit : RFC_init ctx_zero 4 1%Q (1 # 2)%Q (99 # 100)%Q RFC_FLAGS_DEFAULT
                  = (true, ctx_4_classes RFC_FLAGS_DEFAULT)).
  { unfold ctx_4_classes.
    assert (Hok : fst (RFC_init ctx_zero 4 1%Q (1 # 2)%Q (99 # 100)%Q RFC_FLAGS_DEFAULT)
                  = true) by (vm_compute; reflexivity).
    destruct (RFC_init ctx_zero 4 1%Q (1 # 2)%Q (99 # 100)%Q RFC_FLAGS_DEFAULT).
    cbn [fst snd] in *. now subst. }
  assert (Hin : residue_in_bounds
                  (run_calls (ctx_4_classes RFC_FLAGS_DEFAULT)
                     [call_feed (Some data_up) 4; call_finalize RFC_RES_NONE]))
    by (vm_compute; lia).
  split; [exact Hin|].
  apply (damage_is_matrix_damage _ _ _ _ _ _ _ _ Hinit); try exact Hin;
    vm_compute; congruence.
Defined.

(** ** A sample that repeats the one before *)








Lemma version_ok_feed c data : version_ok (snd (feed c data)) = version_ok c.
Proof.
  rewrite feed_unfold.
  destruct (negb (version_ok c)); [reflexivity|].
  destruct (negb (state_accepted (state c))); [reflexivity|].
  apply configuration_version_ok. apply (feed_loop_facts data c).
Qed.





(** ** The helpers of the test suite (rfc_test.c) *)

Lemma calc_extema_loop_spec data : forall x_min x_max,
  (x_min <= x_max)%Q ->
  let r := calc_extema_loop data x_min x_max in
  (snd r <= x_min)%Q /\ (x_max <= fst r)%Q
  /\ (forall x, In x data -> (snd r <= x <= fst r)%Q)
  /\ (fst r = x_max \/ In (fst r) data)
  /\ (snd r = x_min \/ In (snd r) data).
Proof.
  induction data as [|x data IH]; intros x_min x_max Hle; cbv zeta;
    cbn [calc_extema_loop].
  - cbn [fst snd]. repeat split; auto; try apply Qle_refl; contradiction.
  - destruct (Qlt_bool x_max x) eqn:E1; [|destruct (Qlt_bool x x_min) eqn:E2].
    + apply Qlt_bool_iff in E1.
      destruct (IH x_min x ltac:(lra)) as (H1 & H2 & H3 & H4 & H5).
      split; [exact H1|]. split; [lra|]. split; [|split].
      * intros y [<-|Hy]; [split; lra|now apply H3].
      * right. destruct H4 as [->|H4]; [now left|now right].
      * destruct H5 as [H5|H5]; [now left|right; now right].
    + apply Qlt_bool_iff in E2.
      destruct (IH x x_max ltac:(lra)) as (H1 & H2 & H3 & H4 & H5).
      split; [lra|]. split; [exact H2|]. split; [|split].
      * intros y [<-|Hy]; [split; lra|now apply H3].
      * destruct H4 as [H4|H4]; [now left|right; now right].
      * right. destruct H5 as [->|H5]; [now left|now right].
    + apply Qlt_bool_false in E1. apply Qlt_bool_false in E2.
      destruct (IH x_min x_max Hle) as (H1 & H2 & H3 & H4 & H5).
      split; [exact H1|]. split; [exact H2|]. split; [|split].
      * intros y [<-|Hy]; [split; lra|now apply H3].
      * destruct H4 as [H4|H4]; [now left|right; now right].
      * destruct H5 as [H5|H5]; [now left|right; now right].
Qed.

(** X15.  [calc_extema] finds the largest and the smallest of the first
    [data_len] samples: both are among these samples and all of them lie
    between the two.  Without data ([data = NULL] or [data_len = 0]) it
    writes nothing. *)
Theorem calc_extema_bounds buf data_len :
  (0 < data_len <= length buf)%nat ->
  exists x_max x_min,
    calc_extema (Some buf) data_len = Some (x_max, x_min)
    /\ In x_max (firstn data_len buf) /\ In x_min (firstn data_len buf)
    /\ (forall x, In x (firstn data_len buf) -> (x_min <= x <= x_max)%Q)
    /\ calc_extema None data_len = None /\ calc_extema (Some buf) 0 = None.
Proof.
  intros [H0 Hlen]. unfold calc_extema.
  destruct (Nat.eqb_spec data_len 0) as [|_]; [lia|].
  destruct buf as [|x0 buf]; [cbn in Hlen; lia|].
  destruct data_len as [|n]; [lia|].
  cbn [peek nth skipn firstn Nat.sub]. rewrite Nat.sub_0_r.
  pose proof (calc_extema_loop_spec (firstn n buf) x0 x0 (Qle_refl x0)) as H.
  cbv zeta in H. destruct (calc_extema_loop (firstn n buf) x0 x0) as [mx mn].
  cbn [fst snd] in H. destruct H as (H1 & H2 & H3 & H4 & H5).
  exists mx, mn. split; [reflexivity|]. split; [|split; [|split; [|split; reflexivity]]].
  - destruct H4 as [->|H4]; [now left|now right].
  - destruct H5 as [->|H5]; [now left|now right].
  - intros x [<-|Hx]; [split; assumption|now apply H3].
Qed.

Lemma calc_extema_bounds_witness :
  exists x_max x_min,
    calc_extema (Some data_stress) 25 = Some (x_max, x_min)
    /\ In x_max (firstn 25 data_stress) /\ In x_min (firstn 25 data_stress).
Proof.
  destruct (calc_extema_bounds data_stress 25) as (mx & mn & H1 & H2 & H3 & _).
  - vm_compute. lia.
  - exists mx, mn. exact (conj H1 (conj H2 H3)).
Defined.

Lemma quantize_in_window c v cc :
  (0 < class_width c)%Q -> 0 < cc < 2 ^ 32 ->
  (class_offset c <= v)%Q -> (v < class_offset c + inject_Z cc * class_width c)%Q ->
  QUANTIZE c v = Qfloor ((v - class_offset c) / class_width c)
  /\ 0 <= QUANTIZE c v < cc.
Proof.
  intros Hw Hcc H0 H1.
  assert (0 <= (v - class_offset c) / class_width c)%Q as Hq0.
  { apply Qle_shift_div_l; [exact Hw|lra]. }
  assert ((v - class_offset c) / class_width c < inject_Z cc)%Q as Hq1.
  { apply Qlt_shift_div_r; [exact Hw|lra]. }
  assert (QUANTIZE c v = Qfloor ((v - class_offset c) / class_width c)) as E.
  { unfold QUANTIZE. apply to_unsigned_floor; [exact Hq0|].
    eapply Qlt_le_trans; [exact Hq1|]. rewrite <- Zle_Qle. lia. }
  split; [exact E|]. rewrite E. split.
  - rewrite <- (Qfloor_Z 0). now apply Qfloor_resp_le.
  - rewrite Zlt_Qlt. eapply Qle_lt_trans; [apply Qfloor_le|exact Hq1].
Qed.

(** X16.  The class parameters of the test suite cover the data: for at least two
    classes and [data_min < data_max], [calc_class_param] writes a class
    width of at least 0.01 (which [RFC_init] accepts) and an offset such
    that [QUANTIZE] puts every value between [data_min] and [data_max] into
    one of the classes [0 .. class_count - 1], and [data_min] into class 0.
    With [data_max < data_min] it aborts, without classes it writes width 1
    and offset 0.  The rationals stand for the doubles. *)
Theorem calc_class_param_covers data_max data_min cc :
  (data_min < data_max)%Q -> 2 <= cc < 2 ^ 32 ->
  exists w o,
    calc_class_param data_max data_min cc = calc_params w o
    /\ (1 # 100 <= w)%Q
    /\ (forall c v, class_width c = w -> class_offset c = o ->
          (data_min <= v <= data_max)%Q -> 0 <= QUANTIZE c v < cc)
    /\ (forall c, class_width c = w -> class_offset c = o -> QUANTIZE c data_min = 0)
    /\ calc_class_param data_min data_max cc = calc_abort
    /\ calc_class_param data_max data_min 0 = calc_params 1%Q 0%Q.
Proof.
  intros Hlt Hcc. unfold calc_class_param.
  assert (Qlt_bool data_max data_min = false) as -> by (apply Qlt_bool_false; lra).
  assert (Qlt_bool data_min data_max = true) as -> by (now apply Qlt_bool_iff).
  destruct (Z.ltb_spec cc 1) as [|_]; [lia|].
  destruct (Z.eqb_spec (cc - 1) 0) as [|_]; [lia|]. cbv zeta.
  set (K := inject_Z (cc - 1)).
  assert (HK : (1 <= K)%Q) by (unfold K; rewrite <- (Zle_Qle 1); lia).
  set (r := ((data_max - data_min) / K)%Q).
  assert (Hr : (r * K == data_max - data_min)%Q) by (unfold r; field; lra).
  assert (Hr0 : (0 < r)%Q).
  { unfold r. apply Qlt_shift_div_l; lra. }
  set (w := (inject_Z (Qceiling (r * 100)) / 100)%Q).
  assert (Hw100 : (w * 100 == inject_Z (Qceiling (r * 100)))%Q) by (unfold w; field).
  pose proof (Qle_ceiling (r * 100)) as Hceil.
  assert (Hc1 : (1 <= inject_Z (Qceiling (r * 100)))%Q).
  { rewrite <- (Zle_Qle 1).
    assert (0 < Qceiling (r * 100)); [|lia].
    rewrite Zlt_Qlt. eapply Qlt_le_trans; [|exact Hceil].
    change (inject_Z 0) with 0%Q. lra. }
  assert (Hw : (1 # 100 <= w)%Q) by lra.
  assert (Hwr : (r <= w)%Q) by lra.
  assert (HwK : (data_max - data_min <= w * K)%Q).
  { rewrite <- Hr. apply Qmult_le_compat_r; lra. }
  set (y := (data_min - w / 2)%Q).
  set (o := (inject_Z (Qfloor (y * 1000)) / 1000)%Q).
  assert (Ho1000 : (o * 1000 == inject_Z (Qfloor (y * 1000)))%Q) by (unfold o; field).
  pose proof (Qfloor_le (y * 1000)) as Hfl.
  pose proof (Qlt_floor (y * 1000)) as Hfl'.
  rewrite inject_Z_plus in Hfl'. change (inject_Z 1) with 1%Q in Hfl'.
  assert (Ho1 : (o <= y)%Q) by lra.
  assert (Ho2 : (y - (1 # 1000) < o)%Q) by lra.
  assert (Hcc1 : (inject_Z cc == K + 1)%Q).
  { unfold K. change 1%Q with (inject_Z 1). rewrite <- inject_Z_plus.
    replace (cc - 1 + 1) with cc by lia. reflexivity. }
  assert (Hccw : (inject_Z cc * w == w * K + w)%Q) by (rewrite Hcc1; ring).
  assert (Hy : (y == data_min - w * (1 # 2))%Q) by (unfold y; field).
  exists w, o. split; [reflexivity|]. split; [exact Hw|].
  split; [|split; [|split; reflexivity]]; clear Hfl Hfl' Hceil Hw100 Ho1000; clearbody o y w r K.
  - intros c v Ew Eo [Hv0 Hv1].
    apply (quantize_in_window c v cc); rewrite ?Ew, ?Eo; try lia;
      clear Hc1; set (C := inject_Z cc) in *; clearbody C; lra.
  - intros c Ew Eo.
    destruct (quantize_in_window c data_min 1) as [_ H]; rewrite ?Ew, ?Eo; try lia;
      change (inject_Z 1) with 1%Q; clear Hc1 Hcc1 Hccw; lra.
Qed.

Lemma calc_class_param_covers_witness :
  exists w o,
    calc_class_param 4%Q 1%Q 4 = calc_params w o /\ (1 # 100 <= w)%Q.
Proof.
  destruct (calc_class_param_covers 4%Q 1%Q 4) as (w & o & H1 & H2 & _).
  - reflexivity.
  - lia.
  - exists w, o. exact (conj H1 H2).
Defined.

Lemma trunc_floor x :
  (0 <= x)%Q -> Z.quot (Qnum x) (Z.pos (Qden x)) = Qfloor x.
Proof.
  intros H0. destruct x as [n d]. cbn [Qnum Qden Qfloor]. apply Z.quot_div_nonneg; [|lia].
  unfold Qle in H0. cbn in H0. lia.
Qed.

Lemma rfm_peek_cell c vf vt :
  0 < class_count c <= 512 -> (0 < class_width c)%Q ->
  in_window c (inject_Z vf) -> in_window c (inject_Z vt) ->
  rfm_peek c vf vt
  = rfm_at c (QUANTIZE c (inject_Z vf) * class_count c + QUANTIZE c (inject_Z vt)).
Proof.
  intros Hcc Hw [Hf0 Hf1] [Ht0 Ht1].
  assert (Hcc' : 0 < class_count c < 2 ^ 32) by (change (2 ^ 32) with 4294967296; lia).
  destruct (quantize_in_window c (inject_Z vf) (class_count c) Hw Hcc' Hf0 Hf1) as [Ef Rf].
  destruct (quantize_in_window c (inject_Z vt) (class_count c) Hw Hcc' Ht0 Ht1) as [Et Rt].
  unfold rfm_peek. cbv zeta.
  rewrite !trunc_floor by (apply Qle_shift_div_l; [exact Hw|lra]).
  rewrite <- Ef, <- Et. f_equal. apply Z.mod_small.
  change (2 ^ 32) with 4294967296. nia.
Qed.

Lemma quantize_parameters c c' v :
  parameters c' = parameters c -> QUANTIZE c' v = QUANTIZE c v.
Proof.
  unfold parameters, QUANTIZE. intros [= _ _ _ _ -> -> _ _ _ _ _]. reflexivity.
Qed.

Lemma class_width_parameters c c' :
  parameters c' = parameters c -> class_width c' = class_width c.
Proof. unfold parameters. now intros [= _ _ _ _ -> _ _ _ _ _ _]. Qed.

Lemma in_window_parameters c c' v :
  parameters c' = parameters c -> in_window c v -> in_window c' v.
Proof.
  unfold parameters, in_window. intros [= _ _ _ -> -> -> _ _ _ _ _]. auto.
Qed.

(** X17.  Counting a cycle and looking it up: after [RFC_cycle_process_counts] has
    counted a cycle between two values inside the class window, [rfm_peek]
    at two values [vf], [vt] inside the window reads the old counter plus
    [curr_inc] when the cycle was counted in the matrix (different classes,
    matrix present and flag set) and [vf], [vt] lie in the classes of the
    cycle's from- and to-value, and the old counter in every other case. *)
Theorem count_then_peek c from to next flags vf vt :
  0 < class_count c <= 512 -> (0 < class_width c)%Q ->
  in_window c (value from) -> in_window c (value to) ->
  in_window c (inject_Z vf) -> in_window c (inject_Z vt) ->
  let cf := QUANTIZE c (value from) in
  let ct := QUANTIZE c (value to) in
  rfm_peek (RFC_cycle_process_counts c from to next flags) vf vt
  = rfm_peek c vf vt
    + (if negb (cf =? ct) && rfm_sink_enabled c flags
          && (QUANTIZE c (inject_Z vf) =? cf) && (QUANTIZE c (inject_Z vt) =? ct)
       then curr_inc c else 0).
Proof.
  intros Hcc Hw Wf Wt Wvf Wvt. cbv zeta.
  pose proof (parameters_process_counts c from to next flags) as P.
  assert (Hcc' : 0 < class_count c < 2 ^ 32) by (change (2 ^ 32) with 4294967296; lia).
  destruct (quantize_in_window c (value from) _ Hw Hcc' (proj1 Wf) (proj2 Wf)) as [_ Rf].
  destruct (quantize_in_window c (value to) _ Hw Hcc' (proj1 Wt) (proj2 Wt)) as [_ Rt].
  destruct (quantize_in_window c (inject_Z vf) _ Hw Hcc' (proj1 Wvf) (proj2 Wvf)) as [_ Rvf].
  destruct (quantize_in_window c (inject_Z vt) _ Hw Hcc' (proj1 Wvt) (proj2 Wvt)) as [_ Rvt].
  rewrite (rfm_peek_cell c vf vt Hcc Hw Wvf Wvt).
  rewrite rfm_peek_cell.
  2:{ now rewrite (parameters_class_count _ _ P). }
  2:{ now rewrite (class_width_parameters _ _ P). }
  2, 3: now apply (in_window_parameters c).
  rewrite !(quantize_parameters _ _ _ P), (parameters_class_count _ _ P).
  rewrite (rfm_process_counts c from to next flags Hcc) by nia.
  unfold counted_class. rewrite !Z.min_l by lia.
  set (cf := QUANTIZE c (value from)) in *. set (ct := QUANTIZE c (value to)) in *.
  set (qf := QUANTIZE c (inject_Z vf)) in *. set (qt := QUANTIZE c (inject_Z vt)) in *.
  destruct (negb (cf =? ct) && rfm_sink_enabled c flags); cbn [andb]; [|ring].
  destruct (Z.eqb_spec qf cf) as [->|Hf]; cbn [andb].
  - destruct (Z.eqb_spec qt ct) as [->|Ht].
    + now rewrite Z.eqb_refl.
    + destruct (Z.eqb_spec (cf * class_count c + qt) (cf * class_count c + ct)); [lia|ring].
  - destruct (Z.eqb_spec (qf * class_count c + qt) (cf * class_count c + ct)); [|ring].
    exfalso. apply Hf. nia.
Qed.

Lemma count_then_peek_witness :
  rfm_peek (RFC_cycle_process_counts (ctx_4_classes RFC_FLAGS_DEFAULT)
              (tp_of 3 2 2) (tp_of 2 1 3) (tp_of 4 3 4) RFC_FLAGS_DEFAULT) 3 2
  = rfm_peek (ctx_4_classes RFC_FLAGS_DEFAULT) 3 2 + 2.
Proof.
  apply (count_then_peek (ctx_4_classes RFC_FLAGS_DEFAULT)
           (tp_of 3 2 2) (tp_of 2 1 3) (tp_of 4 3 4) RFC_FLAGS_DEFAULT 3 2).
  - vm_compute. split; [reflexivity|discriminate].
  - reflexivity.
  - vm_compute. split; [discriminate|reflexivity].
  - vm_compute. split; [discriminate|reflexivity].
  - vm_compute. split; [discriminate|reflexivity].
  - vm_compute. split; [discriminate|reflexivity].
Defined.

(** ** Before the first turning point *)

Lemma Qabs_le_pos h x : (0 <= x)%Q -> Qlt_bool h (Qabs x) = false -> (x <= h)%Q.
Proof. intros Hx H. apply Qlt_bool_false in H. now rewrite Qabs_pos in H. Qed.

Lemma filter_keeps_seeking stream c pt :
  (0 <= hysteresis c)%Q -> seeking stream c ->
  seeking (stream ++ [value pt]) (fst (RFC_feed_filter_pt c pt)).
Proof.
  intros Hh H. rewrite filter_unfold. cbv zeta. unfold seeking in H.
  assert (Hne : stream ++ [value pt] <> []) by (destruct stream; discriminate).
  destruct (state c) eqn:Es; try contradiction;
    cbn [state_lt state_eqb state_rank Z.ltb Z.eqb Z.compare Pos.compare Pos.compare_cont
         Pos.eqb fst].
  - (* INIT *)
    subst stream. unfold seeking, filter_first. cbn_ctx. cbv zeta. cbn [app].
    split; [now left|]. split; [now left|]. split; [|lra].
    intros x [<-|[]]. split; apply Qle_refl.
  - (* BUSY *)
    cbv zeta in H. destruct H as (H0 & H1 & Hall & Hd).
    pose proof (Hall _ H0) as [_ Hlohi].
    assert (Hemit : forall c1 k,
              seeking (stream ++ [value pt]) (filter_append (filter_emit_first c1 k) pt)).
    { intros c1 k. unfold seeking, filter_append, filter_emit_first.
      rewrite !residue_put_eq. cbn_ctx. exact Hne. }
    destruct (Qlt_bool (value pt) _) eqn:Emin.
    + apply Qlt_bool_iff in Emin.
      destruct (Qlt_bool (hysteresis c) _) eqn:Eh; cbn [fst]; [apply Hemit|].
      apply Qabs_le_pos in Eh; [|lra].
      unfold seeking. cbn_ctx. rewrite Es. cbv zeta. cbn_ctx.
      split; [apply in_or_app; right; now left|].
      split; [apply in_or_app; now left|]. split; [|exact Eh].
      intros x Hx. apply in_app_or in Hx as [Hx|[<-|[]]].
      * destruct (Hall x Hx). split; lra.
      * split; lra.
    + apply Qlt_bool_false in Emin.
      destruct (Qlt_bool (value (Internal.extrema1 (internal c))) (value pt)) eqn:Emax.
      * apply Qlt_bool_iff in Emax.
        destruct (Qlt_bool (hysteresis c) _) eqn:Eh; cbn [fst]; [apply Hemit|].
        apply Qabs_le_pos in Eh; [|lra].
        unfold seeking. cbn_ctx. rewrite Es. cbv zeta. cbn_ctx.
        split; [apply in_or_app; now left|].
        split; [apply in_or_app; right; now left|]. split; [|exact Eh].
        intros x Hx. apply in_app_or in Hx as [Hx|[<-|[]]].
        -- destruct (Hall x Hx). split; lra.
        -- split; lra.
      * apply Qlt_bool_false in Emax. cbn [fst]. unfold seeking. rewrite Es. cbv zeta.
        split; [apply in_or_app; now left|].
        split; [apply in_or_app; now left|]. split; [|exact Hd].
        intros x Hx. apply in_app_or in Hx as [Hx|[<-|[]]]; [now apply Hall|split; lra].
  - (* BUSY_INTERIM *)
    assert (Hsame : seeking (stream ++ [value pt]) c).
    { unfold seeking. now rewrite Es. }
    destruct (_ =? Internal.slope (internal c)).
    + destruct (negb _); cbn [fst]; [|exact Hsame].
      unfold seeking. rewrite residue_put_eq. cbn_ctx. now rewrite Es.
    + destruct (Qlt_bool (hysteresis c) _); cbn [fst]; [|exact Hsame].
      unfold seeking, filter_append. rewrite residue_put_eq. cbn_ctx. now rewrite Es.
Qed.

Lemma seeking_untouched stream c c' :
  untouched_by_counting c' = untouched_by_counting c -> seeking stream c -> seeking stream c'.
Proof.
  intros HU. destruct (untouched_state _ _ HU) as (Es & _ & Ei).
  pose proof (untouched_hysteresis _ _ HU) as Eh.
  unfold seeking. now rewrite Es, Ei, Eh.
Qed.

Lemma feed_loop_keeps_seeking data : forall stream c,
  (0 <= hysteresis c)%Q -> seeking stream c ->
  seeking (stream ++ data) (snd (RFC_feed_loop c data)).
Proof.
  induction data as [|v data IH]; intros stream c Hh H; cbn [RFC_feed_loop snd].
  - now rewrite app_nil_r.
  - set (c1 := with_internal c _).
    set (tp := {| value := v; cls := _; pos := _ |}).
    pose proof (fst_feed_once c1 tp (Internal.flags (internal c1))) as Hok.
    pose proof (untouched_feed_once c1 tp (Internal.flags (internal c1))) as HU.
    pose proof (configuration_feed_once c1 tp (Internal.flags (internal c1))) as Hcfg.
    pose proof (filter_keeps_seeking stream c1 tp Hh H) as Hf.
    destruct (RFC_feed_once c1 tp (Internal.flags (internal c1))) as [ok c2].
    cbn [fst snd] in *. subst ok.
    replace (stream ++ v :: data) with ((stream ++ [v]) ++ data)
      by (rewrite <- app_assoc; reflexivity).
    apply IH.
    + apply (f_equal (fun p => snd (snd (fst (fst (fst p))))) ) in Hcfg.
      unfold configuration in Hcfg. cbn [fst snd] in Hcfg. now rewrite Hcfg.
    + now apply (seeking_untouched _ _ _ HU).
Qed.

Lemma seeking_feeding stream c : seeking stream c -> feeding_state (state c) = true.
Proof. unfold seeking. destruct (state c); try contradiction; reflexivity. Qed.

Lemma hysteresis_configuration c c' :
  configuration c' = configuration c -> hysteresis c' = hysteresis c.
Proof. unfold configuration. now intros [= _ _ _ _ _ _ _ _ _ -> _ _ _ _ _]. Qed.

Lemma feed_chunks_keep_seeking chunks : forall stream c,
  version_ok c = true -> (0 <= hysteresis c)%Q -> seeking stream c ->
  seeking (stream ++ concat chunks) (feed_chunks c chunks).
Proof.
  unfold feed_chunks.
  induction chunks as [|a chunks IH]; intros stream c Hv Hh H; cbn [fold_left concat].
  - now rewrite app_nil_r.
  - rewrite app_assoc.
    assert (E : feed c a = RFC_feed_loop c a).
    { rewrite feed_unfold, Hv. now rewrite (feeding_state_accepted _ (seeking_feeding _ _ H)). }
    apply IH.
    + now rewrite version_ok_feed.
    + rewrite E. destruct (feed_loop_facts a c) as (_ & Hcfg & _).
      now rewrite (hysteresis_configuration _ _ Hcfg).
    + rewrite E. now apply feed_loop_keeps_seeking.
Qed.

(** X18.  Before the first turning point, over the rationals (the filter's
    difference of two samples taken exactly, where the code rounds it to a
    double): after a successful init with a hysteresis that is not negative
    and any sequence of feeds, the state is INIT exactly when no sample was
    fed; in the state BUSY the two extrema are the smallest and the largest
    sample fed so far and lie no further apart than the hysteresis; so as
    soon as two samples of the stream differ by more than the hysteresis the
    first turning point is in the residue (state BUSY_INTERIM). *)
Theorem first_turning_point c0 cc w o h flags c chunks :
  RFC_init c0 cc w o h flags = (true, c) -> (0 <= h)%Q ->
  let stream := concat chunks in
  let c1 := feed_chunks c chunks in
  let lo := value (Internal.extrema0 (internal c1)) in
  let hi := value (Internal.extrema1 (internal c1)) in
  feeding_state (state c1) = true
  /\ (state c1 = RFC_STATE_INIT <-> stream = [])
  /\ (state c1 = RFC_STATE_BUSY ->
      In lo stream /\ In hi stream /\ (hi - lo <= h)%Q
      /\ forall x, In x stream -> (lo <= x <= hi)%Q)
  /\ (forall x y, In x stream -> In y stream -> (h < x - y)%Q ->
      state c1 = RFC_STATE_BUSY_INTERIM).
Proof.
  intros Hinit Hh. cbv zeta.
  destruct (init_success _ _ _ _ _ _ _ Hinit) as (_ & (Hv & Hs & _) & Hp & _).
  assert (Eh : hysteresis c = h).
  { apply (f_equal (fun p => snd (snd (fst (fst p))))) in Hp. exact Hp. }
  assert (H0 : seeking [] c) by (unfold seeking; now rewrite Hs).
  pose proof (feed_chunks_keep_seeking chunks [] c Hv ltac:(now rewrite Eh) H0) as H.
  cbn [app] in H.
  assert (Eh1 : hysteresis (feed_chunks c chunks) = h).
  { rewrite <- Eh. clear. revert c. unfold feed_chunks.
    induction chunks as [|a chunks IH]; intros c; cbn [fold_left]; [reflexivity|].
    rewrite IH. rewrite feed_unfold.
    destruct (negb (version_ok c)); [reflexivity|].
    destruct (negb (state_accepted (state c))); [reflexivity|].
    apply hysteresis_configuration. apply (feed_loop_facts a c). }
  split; [now apply (seeking_feeding (concat chunks))|].
  unfold seeking in H. rewrite Eh1 in H.
  destruct (state (feed_chunks c chunks)); try contradiction.
  - split; [tauto|]. split; [discriminate|].
    intros x y Hx. rewrite H in Hx. contradiction.
  - cbv zeta in H. destruct H as (H1 & H2 & H3 & H4).
    split; [split; [discriminate|intros E; rewrite E in H1; contradiction]|].
    split; [auto|].
    intros x y Hx Hy Hd. destruct (H3 x Hx), (H3 y Hy). exfalso. lra.
  - split; [split; [discriminate|contradiction]|]. split; [discriminate|reflexivity].
Qed.

Lemma first_turning_point_witness :
  RFC_init ctx_zero 4 1%Q (1 # 2)%Q (99 # 100)%Q RFC_FLAGS_DEFAULT
  = (true, ctx_4_classes RFC_FLAGS_DEFAULT)
  /\ feeding_state (state (feed_chunks (ctx_4_classes RFC_FLAGS_DEFAULT) [data_up])) = true.
Proof.
  assert (Hinit : RFC_init ctx_zero 4 1%Q (1 # 2)%Q (99 # 100)%Q RFC_FLAGS_DEFAULT
                  = (true, ctx_4_classes RFC_FLAGS_DEFAULT)).
  { unfold ctx_4_classes.
    assert (Hok : fst (RFC_init ctx_zero 4 1%Q (1 # 2)%Q (99 # 100)%Q RFC_FLAGS_DEFAULT)
                  = true) by (vm_compute; reflexivity).
    destruct (RFC_init ctx_zero 4 1%Q (1 # 2)%Q (99 # 100)%Q RFC_FLAGS_DEFAULT).
    cbn [fst snd] in *. now subst. }
  assert (Hh : (0 <= 99 # 100)%Q) by (unfold Qle; cbn; lia).
  exact (conj Hinit (proj1 (first_turning_point _ _ _ _ _ _ _ [data_up] Hinit Hh))).
Defined.

(** ** Init on an initialized context *)

Lemma version_ok_feed_finalize c :
  version_ok (snd (RFC_feed_finalize c)) = version_ok c.
Proof.
  unfold RFC_feed_finalize.
  destruct (state_lt (state c) RFC_STATE_FINALIZE); [|reflexivity].
  destruct (state_eqb (state c) RFC_STATE_BUSY_INTERIM); cbn [snd]; [|reflexivity].
  cbn_ctx.
  now destruct (untouched_state _ _ (untouched_cycle_find
    (set_state (set_residue_cnt c (S (residue_cnt c))) RFC_STATE_BUSY)
    (Internal.flags (internal c)))) as (_ & -> & _).
Qed.

(** X19.  A context is initialized once: after a successful [RFC_init] every
    further [RFC_init], whatever its arguments, fails and changes nothing,
    at any time of the counting; only [RFC_deinit] makes room for a new
    init. *)
Theorem init_once c0 cc w o h flags c calls cc' w' o' h' flags' :
  RFC_init c0 cc w o h flags = (true, c) ->
  RFC_init (run_calls c calls) cc' w' o' h' flags' = (false, run_calls c calls).
Proof.
  intros Hinit.
  destruct (init_success _ _ _ _ _ _ _ Hinit) as (_ & (Hv & Hs & _) & _).
  assert (H : version_ok (run_calls c calls) = true
              /\ state_lt (state (run_calls c calls)) RFC_STATE_INIT = false).
  { assert (H0 : version_ok c = true /\ state_lt (state c) RFC_STATE_INIT = false)
      by (rewrite Hs; auto).
    clear Hinit Hv Hs. revert c H0. unfold run_calls.
    induction calls as [|call calls IH]; intros c [Hv Hs]; cbn [fold_left]; [auto|].
    apply IH. destruct call as [data n|m]; cbn [run_call].
    - unfold RFC_feed. rewrite Hv, Hs. cbn [negb orb].
      destruct (_ && _); [auto|].
      destruct (state_ge (state c) RFC_STATE_FINISHED) eqn:Ef; [auto|].
      destruct (feed_loop_facts (firstn n match data with Some buf => buf | None => [] end) c)
        as (_ & Hcfg & Hacc).
      split; [now rewrite (configuration_version_ok _ _ Hcfg)|].
      assert (state_accepted (state c) = true) as Ha
        by (unfold state_accepted; now rewrite Hs, Ef).
      specialize (Hacc Ha). unfold state_accepted in Hacc.
      apply negb_true_iff, orb_false_iff in Hacc. tauto.
    - unfold RFC_finalize. rewrite Hv, Hs. cbn [negb orb].
      destruct (state_ge (state c) RFC_STATE_FINISHED) eqn:Ef; [auto|]. cbv zeta.
      destruct (match m with
                | RFC_RES_OTHER _ => (false, set_error c RFC_ERROR_INVARG)
                | _ => RFC_finalize_res_ignore c (Internal.flags (internal c))
                end) as [ok c1] eqn:E.
      assert (version_ok c1 = true) as Hv1.
      { pose proof (version_ok_feed_finalize c) as Hf.
        destruct m; unfold RFC_finalize_res_ignore in E;
          try (rewrite E in Hf; cbn [snd] in Hf; now rewrite Hf).
        injection E as _ <-. exact Hv. }
      cbn [snd]. split.
      + destruct (class_count c1 =? 0); exact Hv1.
      + cbn_ctx. now destruct ok. }
  destruct H as [Hv' Hs']. unfold RFC_init. rewrite Hv'. cbn [negb].
  destruct (state (run_calls c calls)); try discriminate; reflexivity.
Qed.

Lemma init_once_witness :
  RFC_init (run_calls (ctx_4_classes RFC_FLAGS_DEFAULT) [call_feed (Some data_up) 4])
    4 1%Q (1 # 2)%Q (99 # 100)%Q RFC_FLAGS_DEFAULT
  = (false, run_calls (ctx_4_classes RFC_FLAGS_DEFAULT) [call_feed (Some data_up) 4]).
Proof.
  assert (Hinit : RFC_init ctx_zero 4 1%Q (1 # 2)%Q (99 # 100)%Q RFC_FLAGS_DEFAULT
                  = (true, ctx_4_classes RFC_FLAGS_DEFAULT)).
  { unfold ctx_4_classes.
    assert (Hok : fst (RFC_init ctx_zero 4 1%Q (1 # 2)%Q (99 # 100)%Q RFC_FLAGS_DEFAULT)
                  = true) by (vm_compute; reflexivity).
    destruct (RFC_init ctx_zero 4 1%Q (1 # 2)%Q (99 # 100)%Q RFC_FLAGS_DEFAULT).
    cbn [fst snd] in *. now subst. }
  exact (init_once _ _ _ _ _ _ _ [call_feed (Some data_up) 4]
           4 1%Q (1 # 2)%Q (99 # 100)%Q RFC_FLAGS_DEFAULT Hinit).
Defined.

(** ** Class means and class limits *)

(** X20.  Classes and their means, over the rationals (the products, sums and
    quotients of the three macros taken exactly, where the code rounds them
    to doubles): for a positive class width [QUANTIZE] gives the mean of the
    class [k] the class [k] back, the mean lies below the upper limit of its
    class, and a value not below the class offset lies below the upper limit
    of the class [QUANTIZE] gives it, which is the lower edge of the next
    class. *)
Theorem class_mean_round_trip c k v :
  (0 < class_width c)%Q -> 0 <= k < 2 ^ 32 - 1 ->
  (class_offset c <= v)%Q ->
  ((v - class_offset c) / class_width c < inject_Z (2 ^ 32))%Q ->
  QUANTIZE c (CLASS_MEAN c k) = k
  /\ (CLASS_MEAN c k < CLASS_UPPER c k)%Q
  /\ (v < CLASS_UPPER c (QUANTIZE c v))%Q
  /\ (CLASS_UPPER c k == class_edge c (k + 1))%Q.
Proof.
  intros Hw Hk Hv Hmax.
  assert (Hq : ((CLASS_MEAN c k - class_offset c) / class_width c == inject_Z k + (1 # 2))%Q).
  { unfold CLASS_MEAN. field. lra. }
  assert (Hk0 : (0 <= inject_Z k)%Q) by (rewrite <- (Zle_Qle 0); lia).
  assert (Hk1 : (inject_Z k + 1 <= inject_Z (2 ^ 32 - 1))%Q).
  { change 1%Q with (inject_Z 1). rewrite <- inject_Z_plus, <- Zle_Qle. lia. }
  assert (Hup : forall j, (CLASS_UPPER c j == class_edge c (j + 1))%Q).
  { intros j. unfold CLASS_UPPER, class_edge. rewrite inject_Z_plus.
    change (inject_Z 1) with 1%Q. ring. }
  split; [|split; [|split; [|apply Hup]]].
  - unfold QUANTIZE. rewrite to_unsigned_floor.
    + rewrite Hq.
      assert (Hf : Qfloor (inject_Z k + (1 # 2)) <= k).
      { assert (Qfloor (inject_Z k + (1 # 2)) < k + 1); [|lia].
        rewrite Zlt_Qlt, inject_Z_plus. change (inject_Z 1) with 1%Q.
        eapply Qle_lt_trans; [apply Qfloor_le|lra]. }
      assert (Hg : k <= Qfloor (inject_Z k + (1 # 2))).
      { rewrite <- (Qfloor_Z k) at 1. apply Qfloor_resp_le. lra. }
      lia.
    + rewrite Hq. lra.
    + rewrite Hq. eapply Qlt_le_trans with (inject_Z k + 1)%Q; [lra|].
      eapply Qle_trans; [exact Hk1|]. rewrite <- Zle_Qle. lia.
  - unfold CLASS_MEAN, CLASS_UPPER.
    assert (class_width c * ((1 # 2) + inject_Z k) < class_width c * (1 + inject_Z k))%Q;
      [|lra].
    rewrite !(Qmult_comm (class_width c)). apply Qmult_lt_compat_r; [exact Hw|lra].
  - rewrite Hup. unfold QUANTIZE. rewrite to_unsigned_floor.
    + pose proof (Qlt_floor ((v - class_offset c) / class_width c)) as F2.
      pose proof (Qfloor_le ((v - class_offset c) / class_width c)) as F1.
      destruct (Qdiv_bounds _ _ _ Hw F1 F2) as [_ B2]. unfold class_edge. lra.
    + apply Qle_shift_div_l; [exact Hw|lra].
    + exact Hmax.
Qed.

Lemma class_mean_round_trip_witness :
  QUANTIZE (ctx_4_classes RFC_FLAGS_DEFAULT) (CLASS_MEAN (ctx_4_classes RFC_FLAGS_DEFAULT) 2) = 2.
Proof.
  apply (class_mean_round_trip (ctx_4_classes RFC_FLAGS_DEFAULT) 2 1%Q).
  - reflexivity.
  - vm_compute. split; [discriminate|reflexivity].
  - vm_compute. discriminate.
  - vm_compute. reflexivity.
Defined.

(** ** No cycle is left pending *)

Lemma filter_none_keeps_confirmed c pt :
  snd (RFC_feed_filter_pt c pt) = None ->
  residue_cnt (fst (RFC_feed_filter_pt c pt)) = residue_cnt c
  /\ forall j, (j < residue_cnt c)%nat ->
       residue_at (fst (RFC_feed_filter_pt c pt)) j = residue_at c j.
Proof.
  rewrite filter_unfold. cbv zeta.
  repeat break_if; cbn [fst snd]; try discriminate; intros _;
    unfold filter_first; rewrite ?residue_cnt_residue_put; cbn_ctx;
    split; try reflexivity; intros j Hj; try reflexivity.
  apply residue_at_residue_put_other. lia.
Qed.

Lemma exhausted_same_confirmed c c' :
  residue_cnt c' = residue_cnt c ->
  (forall j, (j < residue_cnt c)%nat -> residue_at c' j = residue_at c j) ->
  detector_exhausted c -> detector_exhausted c'.
Proof.
  intros Ec Ea [H|H]; [left; lia|].
  destruct (Nat.lt_ge_cases (residue_cnt c) 4) as [Hn|Hn]; [left; lia|].
  right. rewrite Ec, !Ea by lia. exact H.
Qed.

Lemma feed_once_keeps_eager c pt fl : eager_inv c -> eager_inv (snd (RFC_feed_once c pt fl)).
Proof.
  intros (Ht & Hcc & He).
  pose proof (feed_once_keeps_tuples (fun _ => True) c pt fl I Ht) as Ht'.
  pose proof (configuration_feed_once c pt fl) as Hcfg.
  split; [exact Ht'|]. split.
  { rewrite (parameters_class_count _ _ (configuration_parameters _ _ Hcfg)). exact Hcc. }
  pose proof (filter_keeps_tuples (fun _ => True) c pt I Ht) as (Hres & _).
  pose proof (filter_none_keeps_confirmed c pt) as Hnone.
  pose proof (configuration_filter c pt) as Hcf.
  apply configuration_parameters, parameters_class_count in Hcf.
  unfold RFC_feed_once.
  destruct (RFC_feed_filter_pt c pt) as [c' [i|]]; cbn [fst snd] in *.
  - rewrite Hcf. destruct (Z.eqb_spec (class_count c) 0) as [|_]; [contradiction|].
    cbn [negb snd].
    now apply (detector_loop_result fl (residue_cnt c') c' Hres).
  - destruct (Hnone eq_refl) as [Ec Ea]. now apply (exhausted_same_confirmed c).
Qed.

Lemma feed_loop_keeps_eager data : forall c,
  eager_inv c -> eager_inv (snd (RFC_feed_loop c data)).
Proof.
  induction data as [|v data IH]; intros c H; cbn [RFC_feed_loop snd]; [assumption|].
  set (c1 := with_internal c _).
  set (tp := {| value := v; cls := _; pos := _ |}).
  pose proof (fst_feed_once c1 tp (Internal.flags (internal c1))) as Hok.
  pose proof (feed_once_keeps_eager c1 tp (Internal.flags (internal c1)) H) as Hinv.
  destruct (RFC_feed_once c1 tp (Internal.flags (internal c1))) as [ok c2].
  cbn [fst snd] in *. subst ok. now apply IH.
Qed.

Lemma feed_chunks_keep_eager chunks : forall c,
  eager_inv c -> eager_inv (feed_chunks c chunks).
Proof.
  unfold feed_chunks.
  induction chunks as [|a chunks IH]; intros c H; cbn [fold_left]; [assumption|].
  apply IH. rewrite feed_unfold.
  destruct (negb (version_ok c)).
  { destruct H as ((? & ? & ?) & ? & ?). repeat split; auto. }
  destruct (negb (state_accepted (state c))); [exact H|].
  now apply feed_loop_keeps_eager.
Qed.

(** X21.  Counting is eager: after a successful init with classes and any
    sequence of feeds no cycle is left pending, that is, the confirmed
    residue has fewer than four points or its last four fail the closure
    rule of the four-point method; the same holds for the residue finalize
    with NONE or IGNORE leaves. *)
Theorem counting_is_eager c0 cc w o h flags c chunks :
  RFC_init c0 cc w o h flags = (true, c) -> cc <> 0 ->
  let c1 := feed_chunks c chunks in
  detector_exhausted c1
  /\ forall m, ignores_residue m = true -> detector_exhausted (snd (RFC_finalize c1 m)).
Proof.
  intros Hinit Hcc. cbv zeta.
  destruct (init_success _ _ _ _ _ _ _ Hinit)
    as (_ & (Hv & Hs & _) & Hp & (Hcnt & _ & Hres) & _).
  assert (H0 : eager_inv c).
  { split; [|split].
    - split; [rewrite Hres; discriminate|]. rewrite Hs. split; [auto|exact Hcnt].
    - apply (f_equal (fun p => fst (fst (fst (snd (fst (fst p))))))) in Hp.
      unfold parameters in Hp. cbn [fst snd] in Hp. now rewrite Hp.
    - left. rewrite Hcnt. lia. }
  destruct (feed_chunks_keep_eager chunks c H0) as (Ht & Hc1 & He).
  split; [exact He|]. intros m Hm.
  set (c1 := feed_chunks c chunks) in *.
  pose proof (tuples_hold_feeding _ _ Ht) as Hfs.
  destruct Ht as (Hres1 & _ & Hst).
  destruct (version_ok c1) eqn:Hv1.
  2:{ unfold RFC_finalize. rewrite Hv1. cbn [negb snd].
      apply (exhausted_same_confirmed c1); auto. }
  rewrite (finalize_ignore_unfold c1 m Hv1 Hfs Hm). cbn [snd].
  destruct (class_count (promote_interim_spec c1) =? 0).
  { left. cbn_ctx. lia. }
  apply (exhausted_same_confirmed (promote_interim_spec c1)); [reflexivity|auto|].
  unfold promote_interim_spec.
  destruct (state_eqb (state c1) RFC_STATE_BUSY_INTERIM); [|exact He].
  now apply (detector_loop_result (Internal.flags (internal c1)) (S (residue_cnt c1))
               (set_state (set_residue_cnt c1 (S (residue_cnt c1))) RFC_STATE_BUSY)).
Qed.

Lemma counting_is_eager_witness :
  RFC_init ctx_zero 4 1%Q (1 # 2)%Q (99 # 100)%Q RFC_FLAGS_DEFAULT
  = (true, ctx_4_classes RFC_FLAGS_DEFAULT)
  /\ detector_exhausted (feed_chunks (ctx_4_classes RFC_FLAGS_DEFAULT) [data_stress]).
Proof.
  assert (Hinit : RFC_init ctx_zero 4 1%Q (1 # 2)%Q (99 # 100)%Q RFC_FLAGS_DEFAULT
                  = (true, ctx_4_classes RFC_FLAGS_DEFAULT)).
  { unfold ctx_4_classes.
    assert (Hok : fst (RFC_init ctx_zero 4 1%Q (1 # 2)%Q (99 # 100)%Q RFC_FLAGS_DEFAULT)
                  = true) by (vm_compute; reflexivity).
    destruct (RFC_init ctx_zero 4 1%Q (1 # 2)%Q (99 # 100)%Q RFC_FLAGS_DEFAULT).
    cbn [fst snd] in *. now subst. }
  assert (Hcc : 4 <> 0) by discriminate.
  exact (conj Hinit (proj1 (counting_is_eager _ _ _ _ _ _ _ [data_stress] Hinit Hcc))).
Defined.

(** ** Writes inside the residue buffer *)

Lemma buffer_grows_refl c : buffer_grows c c.
Proof. split; [lia|reflexivity]. Qed.

Lemma buffer_grows_trans a b c : buffer_grows a b -> buffer_grows b c -> buffer_grows a c.
Proof. intros [L1 C1] [L2 C2]. split; [lia|congruence]. Qed.

Lemma buffer_grows_same c c' :
  residue c' = residue c -> residue_cap c' = residue_cap c -> buffer_grows c c'.
Proof. intros E1 E2. split; [unfold residue_buffer_length; rewrite E1; lia|exact E2]. Qed.

Lemma buffer_grows_residue_put c i v : buffer_grows c (residue_put c i v).
Proof.
  split.
  - unfold residue_buffer_length. rewrite residue_residue_put.
    destruct (residue c); cbn [option_map]; [rewrite length_poke|]; lia.
  - rewrite residue_put_eq. reflexivity.
Qed.

Lemma buffer_grows_filter c pt : buffer_grows c (fst (RFC_feed_filter_pt c pt)).
Proof.
  rewrite filter_unfold. cbv zeta.
  repeat break_if; cbn [fst]; try apply buffer_grows_refl;
    try (apply buffer_grows_same; reflexivity);
    try apply buffer_grows_residue_put.
  all: unfold filter_append, filter_emit_first.
  all: eapply buffer_grows_trans; [|apply buffer_grows_residue_put].
  all: try (apply buffer_grows_same; reflexivity).
  all: eapply buffer_grows_trans; [|apply buffer_grows_same; reflexivity].
  all: eapply buffer_grows_trans; [|apply buffer_grows_residue_put].
  all: apply buffer_grows_same; reflexivity.
Qed.

Lemma buffer_grows_close_cycle c fl : buffer_grows c (close_cycle_spec c fl).
Proof.
  unfold close_cycle_spec. cbv zeta.
  set (c1 := RFC_cycle_process_counts c _ _ _ fl).
  assert (H1 : buffer_grows c c1).
  { pose proof (residue_part_process_counts c (residue_at c (residue_cnt c - 3))
      (residue_at c (residue_cnt c - 2)) (residue_at c (residue_cnt c - 1)) fl) as HR.
    pose proof (untouched_process_counts c (residue_at c (residue_cnt c - 3))
      (residue_at c (residue_cnt c - 2)) (residue_at c (residue_cnt c - 1)) fl) as HU.
    fold c1 in HR, HU. unfold residue_part in HR. injection HR as HR1 _.
    apply buffer_grows_same; [exact HR1|].
    unfold untouched_by_counting in HU. now injection HU. }
  eapply buffer_grows_trans; [exact H1|].
  eapply buffer_grows_trans; [apply buffer_grows_residue_put|].
  destruct (state_eqb _ _).
  - eapply buffer_grows_trans; [apply buffer_grows_residue_put|].
    apply buffer_grows_same; reflexivity.
  - apply buffer_grows_same; reflexivity.
Qed.

Lemma buffer_grows_cycle_find c fl : buffer_grows c (RFC_cycle_find c fl).
Proof.
  unfold RFC_cycle_find, RFC_cycle_find_4ptm.
  generalize (residue_cnt c) at 1. intros fuel. revert c.
  induction fuel as [|fuel IH]; intros c; cbn [cycle_find_4ptm_loop];
    [apply buffer_grows_refl|].
  destruct (Nat.leb_spec 4 (residue_cnt c)) as [Hn|]; [|apply buffer_grows_refl].
  rewrite (body_is_close_cycle c fl Hn). cbv zeta.
  destruct (closed_cycle _ _ _ _); [|apply buffer_grows_refl].
  eapply buffer_grows_trans; [apply buffer_grows_close_cycle|apply IH].
Qed.

Lemma buffer_grows_remove_item c index count :
  buffer_grows c (RFC_residue_remove_item c index count).
Proof.
  unfold RFC_residue_remove_item. cbv zeta.
  match goal with
  | |- buffer_grows _ (set_residue_cnt ?x _) =>
      apply (buffer_grows_trans _ x); [|apply buffer_grows_same; reflexivity]
  end.
  generalize (seq 0 ((if state_eqb (state c) RFC_STATE_BUSY_INTERIM
                      then S (residue_cnt c) else residue_cnt c) - (index + count))).
  intros l. revert c. induction l as [|k l IH]; intros c; cbn [fold_left];
    [apply buffer_grows_refl|].
  eapply buffer_grows_trans; [apply buffer_grows_residue_put|apply IH].
Qed.

Lemma buffer_grows_feed_once c pt fl : buffer_grows c (snd (RFC_feed_once c pt fl)).
Proof.
  pose proof (buffer_grows_filter c pt) as Hf.
  destruct (feed_once_cases c pt fl) as [-> | [-> | ->]]; [exact Hf| |];
    (eapply buffer_grows_trans; [exact Hf|]);
    [apply buffer_grows_cycle_find|apply buffer_grows_remove_item].
Qed.

Lemma buffer_grows_feed_loop data : forall c, buffer_grows c (snd (RFC_feed_loop c data)).
Proof.
  induction data as [|v data IH]; intros c; cbn [RFC_feed_loop snd];
    [apply buffer_grows_refl|].
  set (c1 := with_internal c _).
  set (tp := {| value := v; cls := _; pos := _ |}).
  pose proof (fst_feed_once c1 tp (Internal.flags (internal c1))) as Hok.
  pose proof (buffer_grows_feed_once c1 tp (Internal.flags (internal c1))) as Hstep.
  destruct (RFC_feed_once c1 tp (Internal.flags (internal c1))) as [ok c2].
  cbn [fst snd] in *. subst ok.
  eapply buffer_grows_trans; [|apply IH].
  eapply buffer_grows_trans; [|exact Hstep].
  apply buffer_grows_same; reflexivity.
Qed.

Lemma buffer_grows_call c call : buffer_grows c (run_call c call).
Proof.
  destruct call as [data n|m]; cbn [run_call].
  - unfold RFC_feed. repeat break_if; cbn [snd];
      try apply buffer_grows_refl; try (apply buffer_grows_same; reflexivity).
    apply buffer_grows_feed_loop.
  - unfold RFC_finalize. repeat break_if; cbn [snd];
      try apply buffer_grows_refl; try (apply buffer_grows_same; reflexivity).
    all: assert (Hfin : buffer_grows c (snd (RFC_feed_finalize c)))
      by (unfold RFC_feed_finalize; repeat break_if; cbn [snd];
          try apply buffer_grows_refl; try (apply buffer_grows_same; reflexivity);
          (eapply buffer_grows_trans; [|apply buffer_grows_same; reflexivity]);
          (eapply buffer_grows_trans; [|apply buffer_grows_cycle_find]);
          apply buffer_grows_same; reflexivity).
    all: destruct m as [| |code]; unfold RFC_finalize_res_ignore in *;
      try (destruct (RFC_feed_finalize c) as [ok c1]; cbn [snd] in *;
           (eapply buffer_grows_trans; [exact Hfin|]);
           repeat break_if; apply buffer_grows_same; reflexivity).
    all: cbn [snd]; repeat break_if; apply buffer_grows_same; reflexivity.
Qed.

Lemma buffer_grows_calls calls : forall c, buffer_grows c (run_calls c calls).
Proof.
  induction calls as [|call calls IH]; intros c; cbn [run_calls fold_left].
  - apply buffer_grows_refl.
  - eapply buffer_grows_trans; [apply buffer_grows_call|apply IH].
Qed.

(** A run that ends in bounds was in bounds at every call before. *)
Lemma in_bounds_all_along c calls more :
  residue_in_bounds (run_calls c (calls ++ more)) -> residue_in_bounds (run_calls c calls).
Proof.
  unfold residue_in_bounds. rewrite run_calls_app.
  destruct (buffer_grows_calls more (run_calls c calls)) as [L C]. lia.
Qed.

(** ** The stress test and the capacity of the residue *)

(** Once a write has gone beyond the capacity of the residue, no later call
    brings the residue back in bounds. *)
Lemma out_of_bounds_for_good c calls :
  ~ residue_in_bounds c -> ~ residue_in_bounds (run_calls c calls).
Proof.
  unfold residue_in_bounds. intros H.
  destruct (buffer_grows_calls calls c) as [L C]. lia.
Qed.

(** C10, the code at the failing input.  The residue stress test: four
    classes, class width 1, class offset 0.5, hysteresis 0.99, the 25
    samples, residual method NONE.  The residue has 8 slots.  Through the
    first eight samples every feed succeeds, the residue stays in bounds and
    no cycle is counted: the matrix is all zero.  After eight samples seven
    points are confirmed and the interim point sits in the last slot; the
    filter writes the ninth sample, 2, as the new interim point into slot 8,
    one beyond the buffer, and whatever is called afterwards, the residue is
    out of bounds from then on.  All nine cycles and the final residue the
    test expects come after that write, so the run does not determine them.
    The position a turning point carries is its own: the 4 at position 4 is
    the interim point after four samples and is confirmed by the fifth
    sample, and it stays in the residue with the position 4, not 5. *)
Theorem stress_test_leaves_the_residue :
  (length data_stress = 25%nat
   /\ residue_cap (ctx_4_classes RFC_FLAGS_DEFAULT) = 8%nat
   /\ Forall (fun k => fst (feed (ctx_4_classes RFC_FLAGS_DEFAULT) (firstn k data_stress))
                       = true
                       /\ residue_in_bounds (ctx_stress k)
                       /\ rfm_sum (ctx_stress k) = 0)
             (seq 0 9))
  /\ (state (ctx_stress 8) = RFC_STATE_BUSY_INTERIM
      /\ residue_cnt (ctx_stress 8) = 7%nat
      /\ nth_error data_stress 8 = Some 2%Q
      /\ residue_cnt (after_filter (ctx_stress 8) 2%Q) = 8%nat
      /\ residue_buffer_length (after_filter (ctx_stress 8) 2%Q) = 9%nat
      /\ residue_at (after_filter (ctx_stress 8) 2%Q) 8
         = {| value := 2%Q; cls := 1; pos := 9 |})
  /\ (forall calls, ~ residue_in_bounds (run_calls (ctx_stress 9) calls))
  /\ (state (ctx_stress 4) = RFC_STATE_BUSY_INTERIM
      /\ residue_cnt (ctx_stress 4) = 3%nat
      /\ residue_at (ctx_stress 4) 3 = {| value := 4%Q; cls := 3; pos := 4 |}
      /\ nth_error data_stress 4 = Some 1%Q
      /\ pos (next_tuple (ctx_stress 4) 1%Q) = 5
      /\ residue_cnt (ctx_stress 5) = 4%nat
      /\ residue_at (ctx_stress 5) 3 = {| value := 4%Q; cls := 3; pos := 4 |}).
Proof.
  split; [|split; [|split]].
  - split; [reflexivity|]. split; [reflexivity|].
    repeat constructor; try (vm_compute; reflexivity); vm_compute; lia.
  - repeat split; vm_compute; reflexivity.
  - intros calls. apply out_of_bounds_for_good. vm_compute. lia.
  - repeat split; vm_compute; reflexivity.
Qed.
